(** * age: the test-vector generator (testkit) and the plugin client

    A shallow embedding of two Go files of the age encryption tool:
    the [testkit] package, which writes age files piece by piece, and
    [internal/plugin/client.go], the client side of the plugin protocol.

    Go values are modelled as follows.
    - [[]byte] is [list byte]; a [string] is a [string]; the conversions
      [[]byte(s)] and [string(b)] are [list_byte_of_string] and
      [string_of_list_byte].
    - A run-time panic (index out of range, nil dereference) is [None].
    - The functions of packages outside of the repository that the
      generator calls (curve25519, hkdf, hmac, chacha20poly1305, scrypt,
      chacha20) are the fields of the class [Crypto.Primitives]: every
      theorem about the generator holds for whatever these functions
      compute, given that [scrypt.Key] checks its [N] and returns a key
      of the length asked for.  SHA-256, HMAC and HKDF are also defined,
      to run the model; the hash that [Generate] prints is that SHA-256.
    - [bech32.Decode] and the starting of a process are arguments of the
      functions that call them.

    The first part of the file holds the model, the second part the
    properties. *)

From Stdlib Require Import ZArith NArith Lia List Bool.
From Stdlib Require Import Strings.Byte Strings.Ascii Strings.String.
From Stdlib Require Import Numbers.DecimalString.
From stdpp Require Import base option list strings.

Local Open Scope string_scope.
Local Open Scope list_scope.

(** * Part I: the model *)

(** ** Go basics *)

Module Go.

Definition bytes := list byte.

(** [[]byte(s)] *)
Definition bytes_of (s : string) : bytes := list_byte_of_string s.

(** The line feed, as a one-character string. *)
Definition LF : string := String (ascii_of_nat 10) EmptyString.

(** [make([]byte, n)] *)
Definition make (n : nat) : bytes := repeat x00 n.

(** [r.Read(p)]: [p] is overwritten, from its start, by the bytes [src]
    that the reader delivers. *)
Definition Read (src p : bytes) : bytes :=
  take (length p) src ++ drop (length src) p.

(** [len(s)] as a Go [int]. *)
Definition len (s : string) : Z := Z.of_nat (String.length s).

(** [s[i]]: faults when [i] is out of range. *)
Definition index (s : string) (i : Z) : option ascii :=
  if (i <? 0)%Z then None else String.get (Z.to_nat i) s.

(** [s[:j]] for [0 <= j <= len(s)]; faults otherwise. *)
Definition slice_to (s : string) (j : Z) : option string :=
  if ((j <? 0) || (len s <? j))%Z then None
  else Some (String.substring 0 (Z.to_nat j) s).

(** [strings.IndexByte(s, c)]: the first position of [c] in [s], or -1. *)
Fixpoint IndexByte (s : string) (c : ascii) : Z :=
  match s with
  | EmptyString => (-1)%Z
  | String a r =>
      if Ascii.eqb a c then 0%Z
      else let i := IndexByte r c in if (i <? 0)%Z then (-1)%Z else (i + 1)%Z
  end.

(** [b++] on a byte: addition modulo 256. *)
Definition byte_inc (b : byte) : byte :=
  match Byte.of_N ((Byte.to_N b + 1) mod 256) with
  | Some b' => b'
  | None => x00
  end.

#[global] Instance byte_eq_dec : EqDecision byte := Byte.byte_eq_dec.

(** The byte with value [n], for [n < 256]. *)
Definition byte_of_N (n : N) : byte :=
  match Byte.of_N n with Some b => b | None => x00 end.

(** [b] after [k] increments. *)
Definition byte_add (k : nat) (b : byte) : byte :=
  byte_of_N ((Byte.to_N b + N.of_nat k) mod 256).

(** The big-endian encoding of [c] on [n] bytes. *)
Fixpoint big_endian (n : nat) (c : N) : bytes :=
  match n with
  | O => []
  | S n' => big_endian n' (c / 256) ++ [byte_of_N (c mod 256)]
  end.

(** The number that a byte string encodes in big-endian order. *)
Definition big_endian_value (l : bytes) : N :=
  fold_left (fun acc b => (acc * 256 + Byte.to_N b)%N) l 0%N.

(** [bytes.HasPrefix] *)
Fixpoint HasPrefix (s prefix : bytes) {struct prefix} : bool :=
  match prefix, s with
  | [], _ => true
  | p :: prefix', a :: s' => bool_decide (a = p) && HasPrefix s' prefix'
  | _ :: _, [] => false
  end.

(** [bytes.HasSuffix] *)
Definition HasSuffix (s suffix : bytes) : bool :=
  (length suffix <=? length s)%nat
  && bool_decide (drop (length s - length suffix) s = suffix).

(** [bytes.TrimSuffix] *)
Definition TrimSuffix (s suffix : bytes) : bytes :=
  if HasSuffix s suffix then take (length s - length suffix) s else s.

(** [bytes.LastIndex]: where the last instance of [sep] in [s] starts,
    or -1. *)
Fixpoint LastIndex (s sep : bytes) : Z :=
  match s with
  | [] => match sep with [] => 0%Z | _ => (-1)%Z end
  | _ :: r =>
      let i := LastIndex r sep in
      if (0 <=? i)%Z then (i + 1)%Z
      else if HasPrefix s sep then 0%Z else (-1)%Z
  end.

(** [b[lo:hi]] on a slice whose capacity is its length: faults unless
    [0 <= lo <= hi <= len(b)]. *)
Definition slice (b : bytes) (lo hi : Z) : option bytes :=
  if ((lo <? 0) || (hi <? lo) || (Z.of_nat (length b) <? hi))%Z then None
  else Some (take (Z.to_nat (hi - lo)) (drop (Z.to_nat lo) b)).

End Go.

(** ** encoding/base64, [RawStdEncoding] *)

Module Base64.
Import Go.

Definition alphabet : string :=
  "ABCDEFGHIJKLMNOPQRSTUVWXYZabcdefghijklmnopqrstuvwxyz0123456789+/".

(** [enc.encode[v & 0x3F]] *)
Definition encode (v : N) : ascii :=
  match String.get (N.to_nat (N.land v 63)) alphabet with
  | Some c => c
  | None => "A"%char
  end.

(** [RawStdEncoding.EncodeToString]: three bytes give four characters; a
    remainder of one byte gives two, of two bytes three; no padding. *)
Fixpoint EncodeToString (src : bytes) : string :=
  match src with
  | [] => EmptyString
  | [a] =>
      let val := N.shiftl (Byte.to_N a) 16 in
      String (encode (N.shiftr val 18)) (String (encode (N.shiftr val 12)) EmptyString)
  | [a; b] =>
      let val := N.lor (N.shiftl (Byte.to_N a) 16) (N.shiftl (Byte.to_N b) 8) in
      String (encode (N.shiftr val 18)) (String (encode (N.shiftr val 12))
        (String (encode (N.shiftr val 6)) EmptyString))
  | a :: b :: c :: rest =>
      let val := N.lor (N.lor (N.shiftl (Byte.to_N a) 16) (N.shiftl (Byte.to_N b) 8))
                       (Byte.to_N c) in
      String (encode (N.shiftr val 18)) (String (encode (N.shiftr val 12))
        (String (encode (N.shiftr val 6)) (String (encode val) (EncodeToString rest))))
  end.

End Base64.

(** ** crypto/sha256, crypto/hmac and x/crypto/hkdf

    SHA-256 (FIPS 180-4), HMAC (RFC 2104) and HKDF (RFC 5869) on byte
    strings.  Words are 32-bit numbers in [N], reduced modulo [2^32] after
    each addition. *)

Module Sha256.
Import Go.
Local Open Scope N_scope.

Definition w32 (x : N) : N := x mod 4294967296.

Definition rotr (n x : N) : N := N.lor (N.shiftr x n) (w32 (N.shiftl x (32 - n))).

Definition not32 (x : N) : N := N.lxor x 4294967295.

Definition Ch (x y z : N) : N := N.lxor (N.land x y) (N.land (not32 x) z).

Definition Maj (x y z : N) : N :=
  N.lxor (N.lxor (N.land x y) (N.land x z)) (N.land y z).

Definition Sigma0 (x : N) : N := N.lxor (N.lxor (rotr 2 x) (rotr 13 x)) (rotr 22 x).

Definition Sigma1 (x : N) : N := N.lxor (N.lxor (rotr 6 x) (rotr 11 x)) (rotr 25 x).

Definition sigma0 (x : N) : N := N.lxor (N.lxor (rotr 7 x) (rotr 18 x)) (N.shiftr x 3).

Definition sigma1 (x : N) : N := N.lxor (N.lxor (rotr 17 x) (rotr 19 x)) (N.shiftr x 10).

(** The constants are defined the way FIPS 180-4 defines them, from the
    first 64 prime numbers. *)
Definition is_prime (p : nat) : bool :=
  forallb (fun d => negb (p mod d =? 0)%nat) (seq 2 (p - 2)).

Definition primes : list nat := Eval vm_compute in filter is_prime (seq 2 310).

(** The integer cube root of [n], one bit at a time, [b] bits. *)
Fixpoint cube_root (b : nat) (n r : N) : N :=
  match b with
  | O => r
  | S b' =>
      let c := r + 2 ^ N.of_nat b' in
      cube_root b' n (if c * c * c <=? n then c else r)
  end.

(** The first 32 bits of the fractional part of the cube root of each of
    the 64 primes. *)
Definition K : list N :=
  Eval vm_compute in map (fun p => w32 (cube_root 36 (N.of_nat p * 2 ^ 96) 0)) primes.

(** The first 32 bits of the fractional part of the square root of each of
    the first 8 primes. *)
Definition H0 : list N :=
  Eval vm_compute in map (fun p => w32 (N.sqrt (N.of_nat p * 2 ^ 64))) (firstn 8 primes).

(** The message followed by the bit 1, zeros, and its length in bits on
    64 bits, which makes a whole number of 64-byte blocks. *)
Definition pad (msg : bytes) : bytes :=
  let l := length msg in
  let k := ((64 - (l + 9) mod 64) mod 64)%nat in
  msg ++ [x80] ++ repeat x00 k ++ big_endian 8 (8 * N.of_nat l).

(** The 32-bit words of a byte string, big-endian. *)
Fixpoint words (l : bytes) : list N :=
  match l with
  | a :: b :: c :: d :: rest => big_endian_value [a; b; c; d] :: words rest
  | _ => []
  end.

(** The message schedule, latest word first: [n] more words after [w]. *)
Fixpoint schedule (n : nat) (w : list N) : list N :=
  match n with
  | O => w
  | S n' =>
      let x := w32 (sigma1 (nth 1 w 0) + nth 6 w 0 + sigma0 (nth 14 w 0) + nth 15 w 0) in
      schedule n' (x :: w)
  end.

(** One round on the working variables [a .. h]. *)
Definition round (st : list N) (kw : N * N) : list N :=
  match st with
  | [a; b; c; d; e; f; g; h] =>
      let t1 := h + Sigma1 e + Ch e f g + fst kw + snd kw in
      let t2 := Sigma0 a + Maj a b c in
      [w32 (t1 + t2); a; b; c; w32 (d + t1); e; f; g]
  | _ => st
  end.

(** The compression of one 16-word block into the hash value [h]. *)
Definition compress (h : list N) (block : list N) : list N :=
  let w := rev (schedule 48 (rev block)) in
  let st := fold_left round (combine K w) h in
  map (fun p => w32 (fst p + snd p)) (combine h st).

Fixpoint blocks (fuel : nat) (ws : list N) (h : list N) : list N :=
  match fuel, ws with
  | S fuel', _ :: _ => blocks fuel' (skipn 16 ws) (compress h (firstn 16 ws))
  | _, _ => h
  end.

(** [sha256.Sum256] *)
Definition Sum256 (msg : bytes) : bytes :=
  let ws := words (pad msg) in
  concat (map (big_endian 4) (blocks (length ws) ws H0)).

Definition xor_pad (p : byte) (key : bytes) : bytes :=
  map (fun b => byte_of_N (N.lxor (Byte.to_N b) (Byte.to_N p))) key.

(** [hmac.New(sha256.New, key)], written [msg], then [Sum(nil)]. *)
Definition HMAC (key msg : bytes) : bytes :=
  let key := if (64 <? length key)%nat then Sum256 key else key in
  let key := key ++ repeat x00 (64 - length key) in
  Sum256 (xor_pad x5c key ++ Sum256 (xor_pad x36 key ++ msg)).

(** The expansion of HKDF: [n] more blocks after block [i] with value [t]. *)
Fixpoint expand (n : nat) (prk info t : bytes) (i : N) : bytes :=
  match n with
  | O => []
  | S n' =>
      let t' := HMAC prk (t ++ info ++ [byte_of_N (i + 1)]) in
      t' ++ expand n' prk info t' (i + 1)
  end.

(** [hkdf.New(sha256.New, secret, salt, info)], then a [Read] of [n]
    bytes.  A nil salt stands for 32 zero bytes. *)
Definition HKDF (secret salt info : bytes) (n : nat) : bytes :=
  let salt := match salt with [] => repeat x00 32 | _ => salt end in
  let prk := HMAC salt secret in
  firstn n (expand ((n + 31) / 32) prk info [] 0).

(** Hexadecimal, as [%x] prints a byte string. *)
Definition hex_digit (n : N) : ascii :=
  match String.get (N.to_nat n) "0123456789abcdef" with Some c => c | None => "0"%char end.

Fixpoint hex (l : bytes) : string :=
  match l with
  | [] => EmptyString
  | b :: r => String (hex_digit (Byte.to_N b / 16)) (String (hex_digit (Byte.to_N b mod 16)) (hex r))
  end.

(** [hex.DecodeString], on lower-case digits. *)
Definition hex_value (c : ascii) : N :=
  let n := N_of_ascii c in
  if ((48 <=? n) && (n <=? 57))%N then (n - 48)%N
  else if ((97 <=? n) && (n <=? 102))%N then (n - 87)%N
  else 0%N.

Fixpoint unhex (s : string) : bytes :=
  match s with
  | String a (String b r) => byte_of_N (16 * hex_value a + hex_value b) :: unhex r
  | _ => []
  end.

End Sha256.

(** ** Curve25519

    [curve25519.X25519(scalar, point)] of golang.org/x/crypto: the function
    X25519 of RFC 7748, section 5, on two strings of 32 bytes, with the
    error that the library returns for an all-zero result. *)

Module Curve25519.
Import Go.

Definition p : Z := Eval vm_compute in (2 ^ 255 - 19)%Z.
Definition a24 : Z := 121665.

Definition decodeLittleEndian (b : bytes) : Z :=
  fold_right (fun x acc => Z.of_N (Byte.to_N x) + 256 * acc)%Z 0%Z b.

Fixpoint encodeLittleEndian (n : nat) (z : Z) : bytes :=
  match n with
  | O => []
  | S n' => byte_of_N (Z.to_N (z mod 256)) :: encodeLittleEndian n' (z / 256)
  end.

(** The most significant bit of the last byte of a u-coordinate is
    masked. *)
Definition decodeUCoordinate (u : bytes) : Z :=
  Z.land (decodeLittleEndian u) (Z.ones 255).

(** [k[0] &= 248], [k[31] &= 127], [k[31] |= 64]. *)
Definition decodeScalar25519 (k : bytes) : Z :=
  Z.lor (Z.land (decodeLittleEndian k) (Z.ones 255 - 7)) (2 ^ 254).

(** The operations of a field on numbers. *)
Record field := mkField {
  add : Z -> Z -> Z;
  sub : Z -> Z -> Z;
  mul : Z -> Z -> Z
}.

(** GF(2^255 - 19). *)
Definition GF : field :=
  mkField (fun a b => (a + b) mod p)%Z
          (fun a b => (a - b) mod p)%Z
          (fun a b => (a * b) mod p)%Z.

(** The same operations for numbers below [p], without a division: as
    2^255 = 19 modulo [p], the bits from 255 on are folded down, twice for
    a product. *)
Definition fold255 (x : Z) : Z :=
  (Z.land x (Z.ones 255) + 19 * Z.shiftr x 255)%Z.

Definition reduce (x : Z) : Z :=
  let z := fold255 (fold255 x) in
  if (p <=? z)%Z then (z - p)%Z else z.

Definition GF_by_shifts : field :=
  mkField (fun a b => let c := (a + b)%Z in if (p <=? c)%Z then (c - p)%Z else c)
          (fun a b => if (a <? b)%Z then (a - b + p)%Z else (a - b)%Z)
          (fun a b => reduce (a * b)).

Definition cswap (swap : bool) (a b : Z) : Z * Z :=
  if swap then (b, a) else (a, b).

Record ladder := mkLadder {
  x_2 : Z; z_2 : Z; x_3 : Z; z_3 : Z; swap : bool
}.

Section Ladder.

Variable F : field.

(** [base ^ e] *)
Fixpoint pow (base : Z) (e : positive) : Z :=
  match e with
  | xH => base
  | xO e' => let r := pow base e' in mul F r r
  | xI e' => let r := pow base e' in mul F base (mul F r r)
  end.

(** One round of the Montgomery ladder, for the bit [t] of [k]. *)
Definition round (k x_1 : Z) (s : ladder) (t : nat) : ladder :=
  let k_t := Z.testbit k (Z.of_nat t) in
  let sw := xorb (swap s) k_t in
  let '(x2, x3) := cswap sw (x_2 s) (x_3 s) in
  let '(z2, z3) := cswap sw (z_2 s) (z_3 s) in
  let A := add F x2 z2 in
  let AA := mul F A A in
  let B := sub F x2 z2 in
  let BB := mul F B B in
  let E := sub F AA BB in
  let C := add F x3 z3 in
  let D := sub F x3 z3 in
  let DA := mul F D A in
  let CB := mul F C B in
  mkLadder (mul F AA BB)
           (mul F E (add F AA (mul F a24 E)))
           (mul F (add F DA CB) (add F DA CB))
           (mul F x_1 (mul F (sub F DA CB) (sub F DA CB)))
           k_t.

(** The rounds for the bits 254 down to 0 of the scalar, then
    [x_2 * z_2 ^ (p - 2)]. *)
Definition scalarMult_in (scalar point : bytes) : bytes :=
  let k := decodeScalar25519 scalar in
  let x_1 := (decodeUCoordinate point mod p)%Z in
  let s := fold_left (round k x_1) (rev (seq 0 255)) (mkLadder 1 0 x_1 1 false) in
  let '(x2, _) := cswap (swap s) (x_2 s) (x_3 s) in
  let '(z2, _) := cswap (swap s) (z_2 s) (z_3 s) in
  encodeLittleEndian 32 (mul F x2 (pow z2 (Z.to_pos (p - 2)))).

(** [None] is the error return: a scalar or a point that is not 32 bytes
    long, or an all-zero result, which is what a point of low order
    gives. *)
Definition X25519_in (scalar point : bytes) : option bytes :=
  if negb (length scalar =? 32)%nat then None
  else if negb (length point =? 32)%nat then None
  else
    let dst := scalarMult_in scalar point in
    if bool_decide (dst = repeat x00 32) then None else Some dst.

End Ladder.

Definition scalarMult : bytes -> bytes -> bytes := scalarMult_in GF.

Definition X25519 : bytes -> bytes -> option bytes := X25519_in GF.

Definition Basepoint : bytes := x09 :: repeat x00 31.

End Curve25519.

(** ** The primitives that the generator calls

    Of what these functions do, the properties use one fact, which is the
    last field. *)

Module Crypto.
Import Go.

Class Primitives := {
  (** [curve25519.X25519(scalar, point)]; [None] is the error return, which
      comes with a nil slice. *)
  curve25519_X25519 : bytes -> bytes -> option bytes;
  curve25519_Basepoint : bytes;
  (** [hkdf.New(sha256.New, secret, salt, info)], as the bytes that a
      [Read] of [n] bytes delivers. *)
  hkdf_sha256 : bytes -> bytes -> bytes -> nat -> bytes;
  (** [hmac.New(sha256.New, key)], written to, then summed. *)
  hmac_sha256 : bytes -> bytes -> bytes;
  (** [Seal(nil, nonce, plaintext, additionalData)] of the
      ChaCha20-Poly1305 AEAD of a key. *)
  chacha20poly1305_Seal : bytes -> bytes -> bytes -> bytes -> bytes;
  (** [scrypt.Key(password, salt, N, r, p, keyLen)]; [None] is the error
      return, which comes with a nil slice. *)
  scrypt_Key : bytes -> bytes -> Z -> Z -> Z -> Z -> option bytes;
  (** [scrypt.Key] starts with a check of [N], which must exceed 1, and
      returns [keyLen] bytes. *)
  scrypt_Key_checks : forall password salt N r p keyLen key,
    scrypt_Key password salt N r p keyLen = Some key ->
    (1 < N)%Z /\ length key = Z.to_nat keyLen;
  (** The keystream of ChaCha20 under the key
      ["TEST RANDOMNESS TEST RANDOMNESS!"] and the zero nonce. *)
  chacha20_keystream : nat -> byte
}.

End Crypto.

(** ** Stand-ins

    To run the model on chosen inputs, the primitives need values.  The
    hash functions and the curve are the real ones; the others are
    stand-ins, and no theorem about the generator depends on what they
    compute. *)

Module Standin.
Import Go.

(** A keystream for [Rand]: the bytes 0, 1, 2, ... *)
Definition keystream (i : nat) : byte := byte_of_N (N.of_nat i mod 256).

(** An AEAD that shows what it was given: the nonce, then the plaintext. *)
Definition Seal (key nonce plaintext additionalData : bytes) : bytes :=
  nonce ++ plaintext.

(** A key derivation with the check of [N] that [scrypt.Key] starts with:
    [N] must exceed 1 and be a power of two. *)
Definition scrypt_Key (password salt : bytes) (N r p keyLen : Z) : option bytes :=
  if ((N <=? 1) || negb (Z.land N (N - 1) =? 0))%Z then None
  else Some (Read (Sha256.HKDF password salt [] (Z.to_nat keyLen))
                  (make (Z.to_nat keyLen))).

Lemma scrypt_Key_checks password salt N r p keyLen key :
  scrypt_Key password salt N r p keyLen = Some key ->
  (1 < N)%Z /\ length key = Z.to_nat keyLen.
Proof.
  unfold scrypt_Key. destruct (Z.leb_spec N 1) as [|HN]; [discriminate|].
  cbn [orb]. destruct (negb _); [discriminate|]. intros [= <-].
  split; [exact HN|]. unfold Read, make.
  rewrite length_app, length_take, length_drop, repeat_length. lia.
Qed.

#[global] Instance primitives : Crypto.Primitives := {|
  Crypto.curve25519_X25519 := Curve25519.X25519;
  Crypto.curve25519_Basepoint := Curve25519.Basepoint;
  Crypto.hkdf_sha256 := Sha256.HKDF;
  Crypto.hmac_sha256 := Sha256.HMAC;
  Crypto.chacha20poly1305_Seal := Seal;
  Crypto.scrypt_Key := scrypt_Key;
  Crypto.scrypt_Key_checks := scrypt_Key_checks;
  Crypto.chacha20_keystream := keystream
|}.

End Standin.

(** ** testkit *)

Module TestKit.
Import Go Crypto.

(** [var b64 = base64.RawStdEncoding.EncodeToString] *)
Definition b64 : bytes -> string := Base64.EncodeToString.

(** [NotCanonicalBase64]: replaces the last character of [s] by the one
    that follows it in the alphabet.  Both index expressions can fault. *)
Definition NotCanonicalBase64 (s : string) : option string :=
  let alphabet := "ABCDEFGHIJKLMNOPQRSTUVWXYZabcdefghijklmnopqrstuvwxyz0123456789+/" in
  last ← index s (len s - 1);
  let idx := IndexByte alphabet last in
  init ← slice_to s (len s - 1);
  c ← index alphabet (idx + 1);
  Some (init +:+ String c EmptyString).

(** [var TestFileKey = []byte("YELLOW SUBMARINE")] *)
Definition TestFileKey : bytes := bytes_of "YELLOW SUBMARINE".

(** The [TestFile] struct.  [Rand] holds what the closure of [NewTestFile]
    holds: the part of the cipher's keystream that has not been read yet.
    [nonce] is the [[12]byte] array. *)
Record TestFile := mkTestFile {
  Buf : bytes;
  Rand : nat -> byte;
  fileKey : bytes;
  streamKey : bytes;
  nonce : list byte;
  payload : bytes;
  expect : string;
  comment : string;
  identities : list string;
  passphrases : list string
}.

Definition set_Buf (v : bytes) (f : TestFile) : TestFile :=
  mkTestFile v (Rand f) (fileKey f) (streamKey f) (nonce f) (payload f)
             (expect f) (comment f) (identities f) (passphrases f).

Definition set_Rand (v : nat -> byte) (f : TestFile) : TestFile :=
  mkTestFile (Buf f) v (fileKey f) (streamKey f) (nonce f) (payload f)
             (expect f) (comment f) (identities f) (passphrases f).

Definition set_fileKey (v : bytes) (f : TestFile) : TestFile :=
  mkTestFile (Buf f) (Rand f) v (streamKey f) (nonce f) (payload f)
             (expect f) (comment f) (identities f) (passphrases f).

Definition set_streamKey (v : bytes) (f : TestFile) : TestFile :=
  mkTestFile (Buf f) (Rand f) (fileKey f) v (nonce f) (payload f)
             (expect f) (comment f) (identities f) (passphrases f).

Definition set_nonce (v : list byte) (f : TestFile) : TestFile :=
  mkTestFile (Buf f) (Rand f) (fileKey f) (streamKey f) v (payload f)
             (expect f) (comment f) (identities f) (passphrases f).

Definition set_payload (v : bytes) (f : TestFile) : TestFile :=
  mkTestFile (Buf f) (Rand f) (fileKey f) (streamKey f) (nonce f) v
             (expect f) (comment f) (identities f) (passphrases f).

Definition set_passphrases (v : list string) (f : TestFile) : TestFile :=
  mkTestFile (Buf f) (Rand f) (fileKey f) (streamKey f) (nonce f) (payload f)
             (expect f) (comment f) (identities f) v.

(** [f.Rand(n)]: the next [n] bytes of the keystream, which is advanced. *)
Definition Rand_call (n : nat) (f : TestFile) : bytes * TestFile :=
  (map (Rand f) (seq 0 n), set_Rand (fun i => Rand f (n + i)) f).

Definition FileKey (key : bytes) (f : TestFile) : TestFile := set_fileKey key f.

Definition TextLine (s : string) (f : TestFile) : TestFile :=
  set_Buf ((Buf f ++ bytes_of s) ++ bytes_of LF) f.

Definition VersionLine (v : string) (f : TestFile) : TestFile :=
  TextLine ("age-encryption.org/" +:+ v) f.

Definition ArgsLine (args : list string) (f : TestFile) : TestFile :=
  TextLine (String.concat " " ("->" :: args)) f.

(** The loop of [Body].  Each turn writes one line of at most 48 bytes and
    stops after the first line shorter than 48 bytes. *)
Fixpoint Body_loop (fuel : nat) (body : bytes) (f : TestFile) : option TestFile :=
  match fuel with
  | O => None
  | S fuel' =>
      let line := if (48 <? length body)%nat then take 48 body else body in
      let f := TextLine (b64 line) f in
      let body := drop (length line) body in
      if (length line <? 48)%nat then Some f else Body_loop fuel' body f
  end.

Definition Body (body : bytes) (f : TestFile) : option TestFile :=
  Body_loop (S (length body)) body f.

Definition Stanza (args : list string) (body : bytes) (f : TestFile) : option TestFile :=
  Body body (ArgsLine args f).

Definition ScryptRecordPassphrase (passphrase : string) (f : TestFile) : TestFile :=
  set_passphrases (passphrases f ++ [passphrase]) f.

Definition HMACLine (h : bytes) (f : TestFile) : TestFile :=
  TextLine ("--- " +:+ b64 h) f.

(** A Go [int] is 64 bits wide here. *)
Definition wrap_int (z : Z) : Z := ((z + 2 ^ 63) mod 2 ^ 64 - 2 ^ 63)%Z.

(** [x << s] on [int]: a negative count faults. *)
Definition shl_int (x s : Z) : option Z :=
  if (s <? 0)%Z then None else Some (wrap_int (x * 2 ^ s)).

(** [strconv.Itoa] *)
Definition Itoa (i : Z) : string := NilZero.string_of_int (Z.to_int i).

(** [v, _ := call]: the error is dropped, and the slice is nil with it. *)
Definition drop_err (r : option bytes) : bytes :=
  match r with Some v => v | None => [] end.

Section Generator.

Context {P : Primitives}.

(** [chacha20poly1305.New(key)]: refuses a key that is not 32 bytes long;
    the generator drops the error and is left with a nil AEAD. *)
Definition chacha20poly1305_New (key : bytes)
  : option (bytes -> bytes -> bytes -> bytes) :=
  if (length key =? 32)%nat then Some (chacha20poly1305_Seal key) else None.

Definition NewTestFile : TestFile :=
  mkTestFile [] chacha20_keystream TestFileKey [] (repeat x00 12) []
             "success" EmptyString [] [].

(** [AEADBody]: calling [Seal] on the nil AEAD faults. *)
Definition AEADBody (key body : bytes) (f : TestFile) : option TestFile :=
  aead ← chacha20poly1305_New key;
  Body (aead (make 12) body []) f.

Definition X25519NoRecordIdentity (identity : bytes) (f : TestFile) : option TestFile :=
  let recipient := drop_err (curve25519_X25519 identity curve25519_Basepoint) in
  let '(ephemeral, f) := Rand_call 32 f in
  let share := drop_err (curve25519_X25519 ephemeral curve25519_Basepoint) in
  let f := ArgsLine ["X25519"; b64 share] f in
  let secret := drop_err (curve25519_X25519 ephemeral recipient) in
  let key := Read (hkdf_sha256 secret (share ++ recipient)
                     (bytes_of "age-encryption.org/v1/X25519") 32) (make 32) in
  AEADBody key (fileKey f) f.

Definition ScryptNoRecordPassphrase (passphrase : string) (workFactor : Z) (f : TestFile)
  : option TestFile :=
  let '(salt, f) := Rand_call 16 f in
  let f := ArgsLine ["scrypt"; b64 salt; Itoa workFactor] f in
  N ← shl_int 1 workFactor;
  let key := drop_err (scrypt_Key (bytes_of passphrase)
                         (bytes_of "age-encryption.org/v1/scrypt" ++ salt) N 8 1 32) in
  AEADBody key (fileKey f) f.

Definition Scrypt (passphrase : string) (workFactor : Z) (f : TestFile) : option TestFile :=
  ScryptNoRecordPassphrase passphrase workFactor (ScryptRecordPassphrase passphrase f).

Definition HMAC (f : TestFile) : TestFile :=
  let key := Read (hkdf_sha256 (fileKey f) [] (bytes_of "header") 32) (make 32) in
  let h := hmac_sha256 key (Buf f ++ bytes_of "---") in
  HMACLine h f.

Definition Nonce (nonce : bytes) (f : TestFile) : TestFile :=
  let f := set_streamKey
             (Read (hkdf_sha256 (fileKey f) nonce (bytes_of "payload") 32) (make 32)) f in
  set_Buf (Buf f ++ nonce) f.

Definition PayloadChunk (plaintext : bytes) (f : TestFile) : option TestFile :=
  let f := set_payload (payload f ++ plaintext) f in
  aead ← chacha20poly1305_New (streamKey f);
  let f := set_Buf (Buf f ++ aead (nonce f) plaintext []) f in
  Some (set_nonce (alter byte_inc 10 (nonce f)) f).

Definition PayloadChunkFinal (plaintext : bytes) (f : TestFile) : option TestFile :=
  let f := set_payload (payload f ++ plaintext) f in
  let f := set_nonce (<[11 := x01]> (nonce f)) f in
  aead ← chacha20poly1305_New (streamKey f);
  Some (set_Buf (Buf f ++ aead (nonce f) plaintext []) f).

Definition Payload (plaintext : string) (f : TestFile) : option TestFile :=
  let '(n, f) := Rand_call 16 f in
  PayloadChunkFinal (bytes_of plaintext) (Nonce n f).

(** [k] calls of [PayloadChunk] in a row, one per plaintext of [pts]. *)
Fixpoint PayloadChunks (pts : list bytes) (f : TestFile) : option TestFile :=
  match pts with
  | [] => Some f
  | plaintext :: pts' => f' ← PayloadChunk plaintext f; PayloadChunks pts' f'
  end.

End Generator.

(** *** The format, in the words of its description *)

(** The nonce of a chunk as the format describes it: the counter on 11
    bytes, big-endian, then the flag of the last chunk. *)
Definition chunk_nonce (counter : N) (last_flag : byte) : bytes :=
  big_endian 11 counter ++ [last_flag].

(** The lines of a body as the format describes them: [len(b) / 48] full
    lines of 48 bytes each, then one line with the remaining bytes. *)
Definition full_line (b : bytes) (i : nat) : string := b64 (take 48 (drop (48 * i) b)).

Definition short_line (b : bytes) : string := b64 (drop (48 * (length b / 48)) b).

Definition body_lines (b : bytes) : list string :=
  map (full_line b) (seq 0 (length b / 48)) ++ [short_line b].

(** What writing each line with [TextLine] appends to the buffer. *)
Definition text_lines (ls : list string) : bytes :=
  concat (map (fun l => bytes_of l ++ bytes_of LF) ls).

(** *** Files to run the generator on *)

(** A file with the version line written. *)
Definition header_v1 : TestFile := VersionLine "v1" NewTestFile.

(** A file ready for its payload: the stream key is derived from a zero
    nonce. *)
Definition payload_start : TestFile :=
  Nonce (repeat x00 16) NewTestFile.

(** *** The rest of the generator *)

Definition set_expect (v : string) (f : TestFile) : TestFile :=
  mkTestFile (Buf f) (Rand f) (fileKey f) (streamKey f) (nonce f) (payload f)
             v (comment f) (identities f) (passphrases f).

Definition set_comment (v : string) (f : TestFile) : TestFile :=
  mkTestFile (Buf f) (Rand f) (fileKey f) (streamKey f) (nonce f) (payload f)
             (expect f) v (identities f) (passphrases f).

(** [UnreadLine]: takes the last line off the buffer and returns it.  The
    three slice expressions are [buf[:len(buf)-1]], [buf[:idx]] and
    [buf[idx:]]; none of them reaches past [len(buf)]. *)
Definition UnreadLine (f : TestFile) : option (string * TestFile) :=
  let buf := TrimSuffix (Buf f) (bytes_of LF) in
  init ← slice buf 0 (Z.of_nat (length buf) - 1);
  let idx := (LastIndex init (bytes_of LF) + 1)%Z in
  head ← slice buf 0 idx;
  tail ← slice buf idx (Z.of_nat (length buf));
  Some (string_of_list_byte tail, set_Buf head f).

Definition ExpectHeaderFailure (f : TestFile) : TestFile := set_expect "header failure" f.

Definition ExpectPayloadFailure (f : TestFile) : TestFile := set_expect "payload failure" f.

Definition Comment (c : string) (f : TestFile) : TestFile := set_comment c f.

(** [Generate]: what is printed to the standard output, and the file
    after it: [io.Copy] reads the buffer, which is left empty. *)
Definition Generate (f : TestFile) : string * TestFile :=
  let out := "expect: " +:+ expect f +:+ LF in
  let out :=
    if String.eqb (expect f) "success"
    then out +:+ "payload: " +:+ Sha256.hex (Sha256.Sum256 (payload f)) +:+ LF
    else out in
  let out := out +:+ "file key: " +:+ Sha256.hex (fileKey f) +:+ LF in
  let out := fold_left (fun out id => out +:+ "identity: " +:+ id +:+ LF) (identities f) out in
  let out := fold_left (fun out p => out +:+ "passphrase: " +:+ p +:+ LF) (passphrases f) out in
  let out :=
    if negb (String.eqb (comment f) EmptyString)
    then out +:+ "comment: " +:+ comment f +:+ LF
    else out in
  let out := out +:+ LF in
  (out +:+ string_of_list_byte (Buf f), set_Buf [] f).

End TestKit.

(** ** internal/plugin: the client of the plugin protocol *)

Module Plugin.
Import Go.

(** Modelled from the spec: the [Stanza] type of the packages [format] and
    [age], which are not among the sources: a type, ordered arguments and a
    body.  [Body] is a slice, and [client.go] tests one against nil: [None]
    is the nil slice. *)
Record Stanza := mkStanza {
  Type_ : string;
  Args : list string;
  Body : option bytes
}.

Inductive error :=
| ErrIncorrectIdentity
    (** [age.ErrIncorrectIdentity] *)
| Errorf (msg : string)
    (** [fmt.Errorf(msg)] for a constant message *)
| ErrorQ (body : option bytes)
    (** [fmt.Errorf("%q", s.Body)] *)
| StartError (e : error)
    (** [fmt.Errorf("couldn't start plugin: %v", err)] *)
| PluginError (name : string) (e : error)
    (** [fmt.Errorf("age-plugin-%s: %w", name, err)] *)
| IOError (msg : string).
    (** an error of the pipes, of the stanza reader or of a callback *)

Inductive result (A : Type) :=
| Ok (a : A)
| Err (e : error).

Arguments Ok {A} a.
Arguments Err {A} e.

(** What happens to the plugin process, in order. *)
Inductive event :=
| Wrote (s : Stanza)
| ClosedStdin
| ClosedStdout
| Interrupted
| Waited.

(** The process as the client sees it.  [format.StanzaReader.ReadStanza]
    and [format.Stanza.Marshal] are not among the sources, and are taken
    as given: [stdout] lists the results that the successive calls of
    [ReadStanza] on the output of the process will give (at the end of the
    list the output is at its end), and [stdin] the outcomes of the
    successive writes to its input (past the end of the list writes
    succeed). *)
Record process := mkProcess {
  stdout : list (result Stanza);
  stdin : list (option error)
}.

(** [clientConnection]: the reader, the writer, and what has been done
    to the process so far. *)
Record clientConnection := mkConn {
  Reader : list (result Stanza);
  Writer : list (option error);
  log : list event
}.

(** Code that uses the connection and may return early with an error. *)
Definition M (A : Type) : Type := clientConnection -> result A * clientConnection.

Definition ret {A} (a : A) : M A := fun conn => (Ok a, conn).

Definition fail {A} (e : error) : M A := fun conn => (Err e, conn).

Definition bind {A B} (m : M A) (k : A -> M B) : M B :=
  fun conn =>
    match m conn with
    | (Ok a, conn') => k a conn'
    | (Err e, conn') => (Err e, conn')
    end.

Notation "'let*' x ':=' c1 'in' c2" := (bind c1 (fun x => c2))
  (at level 10, x name, c1 at level 100, c2 at level 200).

Notation "c1 '>>' c2" := (bind c1 (fun _ => c2))
  (at level 100, c2 at level 200, right associativity).

(** [s.Marshal(conn)]: the write fails with the error of the pipe, or the
    plugin receives the stanza. *)
Definition Marshal (s : Stanza) : M unit :=
  fun conn =>
    match Writer conn with
    | Some e :: w => (Err e, mkConn (Reader conn) w (log conn))
    | None :: w => (Ok tt, mkConn (Reader conn) w (log conn ++ [Wrote s]))
    | [] => (Ok tt, mkConn (Reader conn) [] (log conn ++ [Wrote s]))
    end.

(** [format.NewStanzaReader(bufio.NewReader(conn))] *)
Definition NewStanzaReader : M (list (result Stanza)) :=
  fun conn => (Ok (Reader conn), conn).

(** The error of [ReadStanza] at the end of the output. *)
Definition EOF : error := IOError "EOF".

(** [clientConnection.Close]: closes stdin and stdout, sends the interrupt
    signal, then waits for the process. *)
Definition Close (conn : clientConnection) : clientConnection :=
  mkConn (Reader conn) (Writer conn)
         (log conn ++ [ClosedStdin; ClosedStdout; Interrupted; Waited]).

(** [strconv.Atoi]: an optional sign, then decimal digits, at least one;
    a value outside of the 64-bit [int] is an error. *)
Definition digit (c : ascii) : option Z :=
  let n := Z.of_nat (nat_of_ascii c) in
  if ((48 <=? n) && (n <=? 57))%Z then Some (n - 48)%Z else None.

Fixpoint digits (s : string) (acc : Z) : option Z :=
  match s with
  | EmptyString => Some acc
  | String c r =>
      match digit c with
      | Some d => digits r (acc * 10 + d)%Z
      | None => None
      end
  end.

Definition Atoi (s : string) : option Z :=
  let '(neg, body) :=
    match s with
    | String "+"%char r => (false, r)
    | String "-"%char r => (true, r)
    | _ => (false, s)
    end in
  match body with
  | EmptyString => None
  | _ =>
      match digits body 0 with
      | Some n =>
          let v := if neg : bool then (- n)%Z else n in
          if ((- 2 ^ 63 <=? v) && (v <=? 2 ^ 63 - 1))%Z then Some v else None
      | None => None
      end
  end.

(** [string(s.Body)] *)
Definition body_string (body : option bytes) : string :=
  match body with
  | Some b => string_of_list_byte b
  | None => EmptyString
  end.

(** [openClientConnection].  [exec_Start] stands for the operating
    system: the process that it starts for a path and an argument, or the
    error of [cmd.StdoutPipe], [cmd.StdinPipe] or [cmd.Start], after any of
    which the function returns no connection. *)
Definition openClientConnection (exec_Start : string -> string -> result process)
  (name protocol : string) : result clientConnection :=
  match exec_Start ("age-plugin-" +:+ name) ("--age-plugin=" +:+ protocol) with
  | Ok p => Ok (mkConn (stdout p) (stdin p) [])
  | Err e => Err e
  end.

(** The deferred function that prefixes the error with the plugin name. *)
Definition prefix_error {A} (name : string) (res : result A) : result A :=
  match res with
  | Ok a => Ok a
  | Err e => Err (PluginError name e)
  end.

Module Recipient.

Record t := mk {
  name : string;
  encoding : string;
  identity : bool;
  DisplayMessage : option (string -> option error);
  RequestValue : option (string -> bool -> result string)
}.

(** The [ReadLoop] of [Wrap], one turn per stanza read. *)
Fixpoint Wrap_ReadLoop (r : t) (sr : list (result Stanza))
  (stanzas : list Stanza) : M (list Stanza) :=
  match sr with
  | [] => fail EOF
  | Err e :: _ => fail e
  | Ok s :: sr =>
      if String.eqb (Type_ s) "msg" then
        match DisplayMessage r with
        | None =>
            Marshal (mkStanza "fail" [] None) >> Wrap_ReadLoop r sr stanzas
        | Some display =>
            match display (body_string (Body s)) with
            | Some _ =>
                Marshal (mkStanza "fail" [] None) >> Wrap_ReadLoop r sr stanzas
            | None =>
                Marshal (mkStanza "ok" [] None) >> Wrap_ReadLoop r sr stanzas
            end
        end
      else if String.eqb (Type_ s) "request-secret"
              || String.eqb (Type_ s) "request-public" then
        match RequestValue r with
        | None =>
            Marshal (mkStanza "fail" [] None) >> Wrap_ReadLoop r sr stanzas
        | Some request =>
            match request (body_string (Body s))
                          (String.eqb (Type_ s) "request-secret") with
            | Err _ =>
                Marshal (mkStanza "fail" [] None) >> Wrap_ReadLoop r sr stanzas
            | Ok secret =>
                Marshal (mkStanza "ok" [] (Some (bytes_of secret)))
                >> Wrap_ReadLoop r sr stanzas
            end
        end
      else if String.eqb (Type_ s) "recipient-stanza" then
        if (length (Args s) <? 2)%nat then
          fail (Errorf "received malformed recipient stanza")
        else
          match Atoi (nth 0 (Args s) EmptyString) with
          | None => fail (Errorf "received malformed recipient stanza")
          | Some n =>
              if negb (n =? 0)%Z then
                fail (Errorf "received malformed recipient stanza")
              else
                let stanzas :=
                  stanzas ++ [mkStanza (nth 1 (Args s) EmptyString)
                                       (drop 2 (Args s)) (Body s)] in
                Marshal (mkStanza "ok" [] None) >> Wrap_ReadLoop r sr stanzas
          end
      else if String.eqb (Type_ s) "error" then
        Marshal (mkStanza "ok" [] None) >> fail (ErrorQ (Body s))
      else if String.eqb (Type_ s) "done" then
        ret stanzas
      else
        Marshal (mkStanza "unsupported" [] None) >> Wrap_ReadLoop r sr stanzas
  end.

(** [Wrap] between the opening of the connection and the deferred calls. *)
Definition Wrap_session (r : t) (fileKey : bytes) : M (list Stanza) :=
  Marshal (mkStanza (if identity r then "add-identity" else "add-recipient")
                    [encoding r] None) >>
  Marshal (mkStanza "wrap-file-key" [] (Some fileKey)) >>
  Marshal (mkStanza "done" [] None) >>
  let* sr := NewStanzaReader in
  let* stanzas := Wrap_ReadLoop r sr [] in
  if (length stanzas =? 0)%nat then fail (Errorf "received zero recipient stanzas")
  else ret stanzas.

(** [Recipient.Wrap].  The second component is the connection as the call
    leaves it, if one was opened. *)
Definition Wrap (exec_Start : string -> string -> result process)
  (r : t) (fileKey : bytes) : result (list Stanza) * option clientConnection :=
  match openClientConnection exec_Start (name r) "recipient-v1" with
  | Err e => (prefix_error (name r) (Err (StartError e)), None)
  | Ok conn =>
      let '(res, conn) := Wrap_session r fileKey conn in
      let conn := Close conn in
      (prefix_error (name r) res, Some conn)
  end.

End Recipient.

Module Identity.

Record t := mk {
  name : string;
  encoding : string;
  DisplayMessage : option (string -> option error);
  RequestValue : option (string -> bool -> result string)
}.

(** [Identity.Recipient] *)
Definition Recipient (i : t) : Recipient.t :=
  Recipient.mk (name i) (encoding i) true (DisplayMessage i) (RequestValue i).

(** The loop of phase 1 over the stanzas of the header. *)
Fixpoint send_stanzas (stanzas : list Stanza) : M unit :=
  match stanzas with
  | [] => ret tt
  | rs :: stanzas =>
      Marshal (mkStanza "recipient-stanza" ("0" :: Type_ rs :: Args rs) (Body rs))
      >> send_stanzas stanzas
  end.

(** The [ReadLoop] of [Unwrap], one turn per stanza read. *)
Fixpoint Unwrap_ReadLoop (i : t) (sr : list (result Stanza))
  (fileKey : option bytes) : M (option bytes) :=
  match sr with
  | [] => fail EOF
  | Err e :: _ => fail e
  | Ok s :: sr =>
      if String.eqb (Type_ s) "msg" then
        match DisplayMessage i with
        | None =>
            Marshal (mkStanza "fail" [] None) >> Unwrap_ReadLoop i sr fileKey
        | Some display =>
            match display (body_string (Body s)) with
            | Some _ =>
                Marshal (mkStanza "fail" [] None) >> Unwrap_ReadLoop i sr fileKey
            | None =>
                Marshal (mkStanza "ok" [] None) >> Unwrap_ReadLoop i sr fileKey
            end
        end
      else if String.eqb (Type_ s) "request-secret"
              || String.eqb (Type_ s) "request-public" then
        match RequestValue i with
        | None =>
            Marshal (mkStanza "fail" [] None) >> Unwrap_ReadLoop i sr fileKey
        | Some request =>
            match request (body_string (Body s))
                          (String.eqb (Type_ s) "request-secret") with
            | Err _ =>
                Marshal (mkStanza "fail" [] None) >> Unwrap_ReadLoop i sr fileKey
            | Ok secret =>
                Marshal (mkStanza "ok" [] (Some (bytes_of secret)))
                >> Unwrap_ReadLoop i sr fileKey
            end
        end
      else if String.eqb (Type_ s) "file-key" then
        if negb (length (Args s) =? 1)%nat then
          fail (Errorf "received malformed file-key stanza")
        else
          match Atoi (nth 0 (Args s) EmptyString) with
          | None => fail (Errorf "received malformed file-key stanza")
          | Some n =>
              if negb (n =? 0)%Z then
                fail (Errorf "received malformed file-key stanza")
              else
                match fileKey with
                | Some _ => fail (Errorf "received duplicated file-key stanza")
                | None =>
                    let fileKey := Body s in
                    Marshal (mkStanza "ok" [] None) >> Unwrap_ReadLoop i sr fileKey
                end
          end
      else if String.eqb (Type_ s) "error" then
        Marshal (mkStanza "ok" [] None) >> fail (ErrorQ (Body s))
      else if String.eqb (Type_ s) "done" then
        ret fileKey
      else
        Marshal (mkStanza "unsupported" [] None) >> Unwrap_ReadLoop i sr fileKey
  end.

(** [Unwrap] between the opening of the connection and the deferred
    calls. *)
Definition Unwrap_session (i : t) (stanzas : list Stanza) : M bytes :=
  Marshal (mkStanza "add-identity" [encoding i] None) >>
  send_stanzas stanzas >>
  Marshal (mkStanza "done" [] None) >>
  let* sr := NewStanzaReader in
  let* fileKey := Unwrap_ReadLoop i sr None in
  match fileKey with
  | None => fail ErrIncorrectIdentity
  | Some key => ret key
  end.

(** [Identity.Unwrap] *)
Definition Unwrap (exec_Start : string -> string -> result process)
  (i : t) (stanzas : list Stanza) : result bytes * option clientConnection :=
  match openClientConnection exec_Start (name i) "identity-v1" with
  | Err e => (prefix_error (name i) (Err (StartError e)), None)
  | Ok conn =>
      let '(res, conn) := Unwrap_session i stanzas conn in
      let conn := Close conn in
      (prefix_error (name i) res, Some conn)
  end.

End Identity.

(** *** What the loops do with the stanzas of the plugin *)

(** Every write to the plugin succeeds. *)
Definition writable (conn : clientConnection) : Prop :=
  Forall (fun o => o = None) (Writer conn).

(** The index of a [recipient-stanza]: at least two arguments, the first
    of which parses as 0. *)
Definition recipient_stanza_ok (s : Stanza) : Prop :=
  2 <= length (Args s) /\ Atoi (nth 0 (Args s) EmptyString) = Some 0%Z.

(** The index of a [file-key] stanza: one argument, which parses as 0. *)
Definition file_key_ok (s : Stanza) : Prop :=
  length (Args s) = 1 /\ Atoi (nth 0 (Args s) EmptyString) = Some 0%Z.

(** The header stanza made of a [recipient-stanza]. *)
Definition collect (s : Stanza) : Stanza :=
  mkStanza (nth 1 (Args s) EmptyString) (drop 2 (Args s)) (Body s).

Definition collect_all (ss : list Stanza) : list Stanza :=
  flat_map (fun s => if String.eqb (Type_ s) "recipient-stanza" then [collect s] else []) ss.

(** Stanzas that keep the loop of [Wrap] going. *)
Definition Wrap_continues (s : Stanza) : Prop :=
  Type_ s <> "error" /\ Type_ s <> "done"
  /\ (Type_ s = "recipient-stanza" -> recipient_stanza_ok s).

(** Stanzas that keep the loop of [Unwrap] going and are no file key. *)
Definition Unwrap_continues (s : Stanza) : Prop :=
  Type_ s <> "error" /\ Type_ s <> "done" /\ Type_ s <> "file-key".

(** [m] does nothing to the process but write stanzas to it. *)
Definition writes_only {A} (m : M A) : Prop :=
  forall conn, exists ws, log (snd (m conn)) = log conn ++ map Wrote ws.

(** The state in which a call leaves the plugin: either no process was
    started, and the call fails with the error of the start, or what was
    done to the process is a series of writes, then the closing of its
    stdin and stdout, the interrupt signal, and the wait for its exit, and
    nothing after that. *)
Definition left_closed {A} (opened : result clientConnection) (name : string)
  (out : result A * option clientConnection) : Prop :=
  match out with
  | (res, None) =>
      exists e, opened = Err e /\ res = Err (PluginError name (StartError e))
  | (res, Some conn) =>
      exists conn0 ws,
        opened = Ok conn0
        /\ log conn = map Wrote ws ++ [ClosedStdin; ClosedStdout; Interrupted; Waited]
  end.

(** *** Sessions with a plugin named [test] *)

(** A system on which [age-plugin-test] is the one plugin. *)
Definition one_plugin (protocol : string) (p : process) (path arg : string)
  : result process :=
  if String.eqb path "age-plugin-test" && String.eqb arg ("--age-plugin=" +:+ protocol)
  then Ok p else Err (IOError "executable file not found").

Definition test_recipient : Recipient.t :=
  Recipient.mk "test" "age1test1qqqq" false (Some (fun _ => None)) None.

Definition test_identity : Identity.t :=
  Identity.mk "test" "AGE-PLUGIN-TEST-1QQQQ" (Some (fun _ => None)) None.

Definition msg_stanza : Stanza := mkStanza "msg" [] (Some (bytes_of "hello")).

Definition done_stanza : Stanza := mkStanza "done" [] None.

(** The plugin shows a message, wraps the file key in one stanza, and is
    done. *)
Definition wrapping : process :=
  mkProcess [Ok msg_stanza;
             Ok (mkStanza "recipient-stanza" ["0"; "test"; "arg"] (Some (bytes_of "wrapped")));
             Ok done_stanza] [].

(** The plugin shows a message, gives the file key, and is done. *)
Definition unwrapping : process :=
  mkProcess [Ok msg_stanza;
             Ok (mkStanza "file-key" ["0"] (Some TestKit.TestFileKey));
             Ok done_stanza] [].

(** The plugin gives a [file-key] stanza with an empty body, which
    [ReadStanza] leaves as the nil slice, then one with the file key, and
    is done. *)
Definition two_file_keys : process :=
  mkProcess [Ok (mkStanza "file-key" ["0"] None);
             Ok (mkStanza "file-key" ["0"] (Some TestKit.TestFileKey));
             Ok done_stanza] [].

(** The plugin gives a [file-key] stanza with an empty body and is done. *)
Definition empty_file_key : process :=
  mkProcess [Ok (mkStanza "file-key" ["0"] None); Ok done_stanza] [].

(** *** The constructors *)

(** [strings.HasPrefix], [strings.TrimPrefix], [strings.HasSuffix] and
    [strings.TrimSuffix] *)
Definition strings_HasPrefix (s prefix : string) : bool := String.prefix prefix s.

Definition strings_TrimPrefix (s prefix : string) : string :=
  if strings_HasPrefix s prefix
  then String.substring (String.length prefix) (String.length s - String.length prefix) s
  else s.

Definition strings_HasSuffix (s suffix : string) : bool :=
  (String.length suffix <=? String.length s)%nat
  && String.eqb (String.substring (String.length s - String.length suffix)
                                  (String.length suffix) s) suffix.

Definition strings_TrimSuffix (s suffix : string) : string :=
  if strings_HasSuffix s suffix
  then String.substring 0 (String.length s - String.length suffix) s
  else s.

(** The characters below 128, the only ones in what [bech32.Decode]
    returns. *)
Definition is_ascii (s : string) : Prop :=
  Forall (fun c => nat_of_ascii c < 128) (list_ascii_of_string s).

(** [strings.ToLower] on a string of such characters: the letters [A] to
    [Z] are moved to [a] to [z]. *)
Definition lower (c : ascii) : ascii :=
  let n := nat_of_ascii c in
  if ((65 <=? n) && (n <=? 90))%nat then ascii_of_nat (n + 32) else c.

Fixpoint strings_ToLower (s : string) : string :=
  match s with
  | EmptyString => EmptyString
  | String c r => String (lower c) (strings_ToLower r)
  end.

(** The errors of the constructors. *)
Inductive encoding_error :=
| InvalidRecipientEncoding (s : string) (err : string)
    (** [fmt.Errorf("invalid recipient encoding %q: %v", s, err)] *)
| NotPluginRecipient (s : string)
    (** [fmt.Errorf("not a plugin recipient %q: %v", s, err)], [err] being nil *)
| InvalidIdentityEncoding (err : string)
    (** [fmt.Errorf("invalid identity encoding: %v", err)] *)
| NotPluginIdentity.
    (** [fmt.Errorf("not a plugin identity: %v", err)], [err] being nil *)

(** [NewRecipient].  [bech32_Decode] stands for [bech32.Decode], of the
    package [internal/bech32]: the human-readable part and the data of a
    string, or the text of an error. *)
Definition NewRecipient (bech32_Decode : string -> string * bytes + string) (s : string)
  : Recipient.t + encoding_error :=
  match bech32_Decode s with
  | inr err => inr (InvalidRecipientEncoding s err)
  | inl (hrp, _) =>
      if negb (strings_HasPrefix hrp "age1") then inr (NotPluginRecipient s)
      else
        let name := strings_TrimPrefix hrp "age1" in
        inl (Recipient.mk name s false None None)
  end.

(** [NewIdentity] *)
Definition NewIdentity (bech32_Decode : string -> string * bytes + string) (s : string)
  : Identity.t + encoding_error :=
  match bech32_Decode s with
  | inr err => inr (InvalidIdentityEncoding err)
  | inl (hrp, _) =>
      if negb (strings_HasPrefix hrp "AGE-PLUGIN-") || negb (strings_HasSuffix hrp "-")
      then inr NotPluginIdentity
      else
        let name := strings_TrimSuffix (strings_TrimPrefix hrp "AGE-PLUGIN-") "-" in
        let name := strings_ToLower name in
        inl (Identity.mk name s None None)
  end.

(** *** The answers of the client *)

(** What the client writes back for a stanza that asks for the user, or
    that it does not know. *)
Definition callback_response
  (DisplayMessage : option (string -> option error))
  (RequestValue : option (string -> bool -> result string)) (s : Stanza) : Stanza :=
  if String.eqb (Type_ s) "msg" then
    match DisplayMessage with
    | None => mkStanza "fail" [] None
    | Some display =>
        match display (body_string (Body s)) with
        | Some _ => mkStanza "fail" [] None
        | None => mkStanza "ok" [] None
        end
    end
  else if String.eqb (Type_ s) "request-secret" || String.eqb (Type_ s) "request-public" then
    match RequestValue with
    | None => mkStanza "fail" [] None
    | Some request =>
        match request (body_string (Body s)) (String.eqb (Type_ s) "request-secret") with
        | Err _ => mkStanza "fail" [] None
        | Ok secret => mkStanza "ok" [] (Some (bytes_of secret))
        end
    end
  else mkStanza "unsupported" [] None.

Definition Wrap_response (r : Recipient.t) (s : Stanza) : Stanza :=
  if String.eqb (Type_ s) "recipient-stanza" then mkStanza "ok" [] None
  else callback_response (Recipient.DisplayMessage r) (Recipient.RequestValue r) s.

Definition Unwrap_response (i : Identity.t) (s : Stanza) : Stanza :=
  if String.eqb (Type_ s) "file-key" then mkStanza "ok" [] None
  else callback_response (Identity.DisplayMessage i) (Identity.RequestValue i) s.

(** What the client writes in phase 1. *)
Definition Wrap_phase1 (r : Recipient.t) (fileKey : bytes) : list Stanza :=
  [mkStanza (if Recipient.identity r then "add-identity" else "add-recipient")
            [Recipient.encoding r] None;
   mkStanza "wrap-file-key" [] (Some fileKey);
   mkStanza "done" [] None].

Definition Unwrap_phase1 (i : Identity.t) (stanzas : list Stanza) : list Stanza :=
  mkStanza "add-identity" [Identity.encoding i] None
  :: map (fun rs => mkStanza "recipient-stanza" ("0" :: Type_ rs :: Args rs) (Body rs)) stanzas
  ++ [mkStanza "done" [] None].

(** The end of every log. *)
Definition closed : list event := [ClosedStdin; ClosedStdout; Interrupted; Waited].

(** Stanzas that keep the loop of [Unwrap] going, [file-key] stanzas
    with a good index among them. *)
Definition Unwrap_goes_on (s : Stanza) : Prop :=
  Type_ s <> "error" /\ Type_ s <> "done"
  /\ (Type_ s = "file-key" -> file_key_ok s).

(** The connection after a write that succeeds, and after several. *)
Definition wrote (s : Stanza) (conn : clientConnection) : clientConnection :=
  mkConn (Reader conn) (tail (Writer conn)) (log conn ++ [Wrote s]).

Definition wrote_all (ss : list Stanza) (conn : clientConnection) : clientConnection :=
  fold_left (fun c s => wrote s c) ss conn.

(** The file key at hand after stanzas that keep the loop of [Unwrap]
    going: the body of the last [file-key] stanza among them, if any. *)
Fixpoint key_after (fileKey : option bytes) (pre : list Stanza) : option bytes :=
  match pre with
  | [] => fileKey
  | s :: pre =>
      key_after (if String.eqb (Type_ s) "file-key" then Body s else fileKey) pre
  end.

(** The stanzas [pre] keep the loop of [Unwrap] going, from the file key
    at hand: a [file-key] stanza does when its index is good and no file
    key is at hand. *)
Fixpoint Unwrap_keeps_going (fileKey : option bytes) (pre : list Stanza) : Prop :=
  match pre with
  | [] => True
  | s :: pre =>
      Unwrap_goes_on s
      /\ (Type_ s = "file-key" -> fileKey = None)
      /\ Unwrap_keeps_going (if String.eqb (Type_ s) "file-key" then Body s else fileKey) pre
  end.

(** A stand-in for [bech32.Decode] that knows one identity and one
    recipient. *)
Definition decode_test (s : string) : string * bytes + string :=
  if String.eqb s "AGE-PLUGIN-TEST-1QQQQ" then inl ("AGE-PLUGIN-TEST-", [])
  else if String.eqb s "age1test1qqqq" then inl ("age1test", [])
  else inr "invalid".

(** The plugin asks for a secret, fails to read on, and sends garbage. *)
Definition asking : process :=
  mkProcess [Ok (mkStanza "request-secret" [] (Some (bytes_of "pin")));
             Ok (mkStanza "hello" [] None);
             Err (IOError "malformed stanza")] [].

(** The plugin reports an error. *)
Definition failing : process :=
  mkProcess [Ok msg_stanza; Ok (mkStanza "error" [] (Some (bytes_of "no key")))] [].

(** A process whose input is closed. *)
Definition deaf : process :=
  mkProcess [Ok done_stanza] [Some (IOError "broken pipe")].

(** The spellings of zero: a sign or none, then zeros, at least one. *)
Fixpoint zeros (n : nat) : string :=
  match n with
  | O => EmptyString
  | S n' => String "0"%char (zeros n')
  end.

Definition spells_zero (s : string) : Prop :=
  exists sign n, (sign = EmptyString \/ sign = "+" \/ sign = "-") /\ s = sign +:+ zeros (S n).

End Plugin.

(** * Part II: the properties *)

(** ** Bytes *)

Module GoProps.
Import Go.

Lemma to_N_byte_of_N n : (n < 256)%N -> Byte.to_N (byte_of_N n) = n.
Proof.
  intros Hn. unfold byte_of_N.
  destruct (Byte.of_N n) as [b|] eqn:E.
  - now apply Byte.to_of_N.
  - apply Byte.of_N_None_iff in E. lia.
Qed.

Lemma byte_of_N_to_N b : byte_of_N (Byte.to_N b) = b.
Proof. unfold byte_of_N. now rewrite Byte.of_to_N. Qed.

Lemma byte_inc_add b : byte_inc b = byte_add 1 b.
Proof. reflexivity. Qed.

Lemma byte_add_0 b : byte_add 0 b = b.
Proof.
  unfold byte_add. pose proof (Byte.to_N_bounded b).
  rewrite N.add_0_r, N.mod_small by lia. apply byte_of_N_to_N.
Qed.

Lemma byte_add_add i j b : byte_add j (byte_add i b) = byte_add (i + j) b.
Proof.
  unfold byte_add. rewrite to_N_byte_of_N by (apply N.mod_lt; lia).
  rewrite N.Div0.add_mod_idemp_l. f_equal. f_equal. lia.
Qed.

(** A byte wraps around after 256 increments. *)
Lemma byte_add_256 k b : byte_add (k + 256) b = byte_add k b.
Proof.
  unfold byte_add. f_equal.
  replace (Byte.to_N b + N.of_nat (k + 256))%N
    with (Byte.to_N b + N.of_nat k + 1 * 256)%N by lia.
  now rewrite N.Div0.mod_add.
Qed.

Lemma big_endian_length n c : length (big_endian n c) = n.
Proof.
  revert c. induction n as [|n IH]; intros c; [reflexivity|].
  cbn [big_endian]. rewrite length_app, IH. cbn. lia.
Qed.

Lemma big_endian_value_snoc l b :
  big_endian_value (l ++ [b]) = (big_endian_value l * 256 + Byte.to_N b)%N.
Proof. unfold big_endian_value. now rewrite fold_left_app. Qed.

(** Decoding undoes encoding, up to the size of the field. *)
Lemma big_endian_value_encode n c :
  big_endian_value (big_endian n c) = (c mod 256 ^ N.of_nat n)%N.
Proof.
  revert c. induction n as [|n IH]; intros c.
  - cbn. now rewrite N.mod_1_r.
  - cbn [big_endian]. rewrite big_endian_value_snoc, IH.
    rewrite to_N_byte_of_N by (apply N.mod_lt; lia).
    rewrite Nat2N.inj_succ, N.pow_succ_r'.
    rewrite (N.Div0.mod_mul_r c 256 (256 ^ N.of_nat n)). lia.
Qed.

End GoProps.

(** ** Base64 *)

Module Base64Props.
Import Go Base64.

(** Induction over a byte string, three bytes at a time, as the encoder
    consumes it. *)
Lemma triples_ind (P : bytes -> Prop) :
  P [] -> (forall a, P [a]) -> (forall a b, P [a; b]) ->
  (forall a b c rest, P rest -> P (a :: b :: c :: rest)) ->
  forall src, P src.
Proof.
  intros H0 H1 H2 H3.
  fix IH 1.
  intros [|a [|b [|c rest]]];
    [exact H0 | apply H1 | apply H2 | apply H3, IH].
Qed.

(** The encoding of [n] bytes has [ceil(4n/3)] characters. *)
Lemma EncodeToString_length src :
  String.length (EncodeToString src) = (4 * length src + 2) / 3.
Proof.
  induction src as [|a|a b|a b c rest IH] using triples_ind; try reflexivity.
  cbn [EncodeToString String.length length]. rewrite IH.
  replace (4 * S (S (S (length rest))) + 2) with ((4 * length rest + 2) + 4 * 3) by lia.
  rewrite Nat.div_add by lia. lia.
Qed.

Lemma encode_in_alphabet v : In (encode v) (list_ascii_of_string alphabet).
Proof.
  unfold encode.
  assert (Hlt : (N.land v 63 < 64)%N).
  { change 63%N with (N.ones 6). rewrite N.land_ones. now apply N.mod_lt. }
  assert (Hnat : N.to_nat (N.land v 63) < 64) by lia.
  revert Hnat. generalize (N.to_nat (N.land v 63)). intros n Hn.
  do 64 (destruct n as [|n]; [vm_compute; tauto|]). lia.
Qed.

(** Every character of an encoding is one of the 64 of the alphabet. *)
Lemma EncodeToString_alphabet src :
  Forall (fun c => In c (list_ascii_of_string alphabet))
         (list_ascii_of_string (EncodeToString src)).
Proof.
  induction src as [|a|a b|a b c rest IH] using triples_ind;
    cbn [EncodeToString list_ascii_of_string];
    repeat (constructor; [apply encode_in_alphabet|]); auto.
Qed.

End Base64Props.

(** ** The hash functions, on the test vectors of their standards *)

Module Sha256Props.
Import Go Sha256.

(** The digest of ["abc"] (FIPS 180-4, appendix B.1). *)
Example Sum256_abc :
  hex (Sum256 (bytes_of "abc")) =
  "ba7816bf8f01cfea414140de5dae2223b00361a396177a9cb410ff61f20015ad"%string.
Proof. vm_compute. reflexivity. Qed.

(** A message of more than one block. *)
Example Sum256_two_blocks :
  hex (Sum256 (repeat x61 100)) =
  "2816597888e4a0d3a36b82b83316ab32680eb8f00f8cd3b904d681246d285a0e"%string.
Proof. vm_compute. reflexivity. Qed.

(** RFC 4231, test case 2. *)
Example HMAC_rfc4231_2 :
  hex (HMAC (bytes_of "Jefe") (bytes_of "what do ya want for nothing?")) =
  "5bdcc146bf60754e6a042426089575c75a003f089d2739839dec58b964ec3843"%string.
Proof. vm_compute. reflexivity. Qed.

(** RFC 5869, test case 1. *)
Example HKDF_rfc5869_1 :
  hex (HKDF (repeat x0b 22)
            [x00; x01; x02; x03; x04; x05; x06; x07; x08; x09; x0a; x0b; x0c]
            [xf0; xf1; xf2; xf3; xf4; xf5; xf6; xf7; xf8; xf9] 42) =
  "3cb25f25faacd57a90434f64d0362f2a2d2d0a90cf1a5a4c5db02d56ecc4c5bf34007208d5b887185865"%string.
Proof. vm_compute. reflexivity. Qed.

End Sha256Props.

(** ** The curve, on the test vectors of RFC 7748 *)

Module Curve25519Props.
Import Go Sha256 Curve25519.

(** *** The field operations without division *)

Definition inF (x : Z) : Prop := (0 <= x < p)%Z.

Lemma p_value : p = (2 ^ 255 - 19)%Z.
Proof. reflexivity. Qed.

Lemma fold255_spec x :
  (0 <= x)%Z ->
  exists q, (0 <= q /\ 2 ^ 255 * q <= x /\ x = p * q + fold255 x
             /\ 0 <= fold255 x < 2 ^ 255 + 19 * q)%Z.
Proof.
  intros Hx. unfold fold255.
  rewrite Z.land_ones, Z.shiftr_div_pow2 by lia.
  pose proof (Z.div_mod x (2 ^ 255) ltac:(lia)) as E.
  pose proof (Z.mod_pos_bound x (2 ^ 255) ltac:(lia)) as Hr.
  assert (Hq : (0 <= x / 2 ^ 255)%Z) by (apply Z.div_pos; lia).
  exists (x / 2 ^ 255)%Z. rewrite p_value.
  set (q := (x / 2 ^ 255)%Z) in *. set (r := (x mod 2 ^ 255)%Z) in *.
  lia.
Qed.

Lemma reduce_spec x : (0 <= x < p * p)%Z -> reduce x = (x mod p)%Z.
Proof.
  intros Hx. unfold reduce.
  destruct (fold255_spec x) as (q1 & Hq1 & Hle1 & E1 & Hy); [lia|].
  destruct (fold255_spec (fold255 x)) as (q2 & Hq2 & Hle2 & E2 & Hz); [lia|].
  set (y := fold255 x) in *. set (z := fold255 y) in *.
  assert (Hq1' : (q1 < 2 ^ 255)%Z).
  { rewrite p_value in Hx.
    assert (x < 2 ^ 255 * 2 ^ 255)%Z by nia. nia. }
  assert (Hq2' : (q2 < 20)%Z) by lia.
  rewrite p_value in *.
  destruct (Z.leb_spec (2 ^ 255 - 19) z) as [Hp|Hp].
  - apply Z.mod_unique with (q := (q1 + q2 + 1)%Z); lia.
  - apply Z.mod_unique with (q := (q1 + q2)%Z); lia.
Qed.

Lemma add_by_shifts a a' b b' :
  a = a' -> b = b' -> inF a' -> inF b' -> add GF_by_shifts a b = add GF a' b'.
Proof.
  intros -> -> Ha Hb. unfold inF in *. cbn [add GF_by_shifts GF].
  rewrite p_value in *.
  destruct (Z.leb_spec (2 ^ 255 - 19) (a' + b')) as [Hp|Hp].
  - apply Z.mod_unique with (q := 1%Z); lia.
  - apply Z.mod_unique with (q := 0%Z); lia.
Qed.

Lemma sub_by_shifts a a' b b' :
  a = a' -> b = b' -> inF a' -> inF b' -> sub GF_by_shifts a b = sub GF a' b'.
Proof.
  intros -> -> Ha Hb. unfold inF in *. cbn [sub GF_by_shifts GF].
  rewrite p_value in *.
  destruct (Z.ltb_spec a' b') as [Hp|Hp].
  - apply Z.mod_unique with (q := (-1)%Z); lia.
  - apply Z.mod_unique with (q := 0%Z); lia.
Qed.

Lemma mul_by_shifts a a' b b' :
  a = a' -> b = b' -> inF a' -> inF b' -> mul GF_by_shifts a b = mul GF a' b'.
Proof.
  intros -> -> Ha Hb. unfold inF in *. cbn [mul GF_by_shifts GF].
  apply reduce_spec. rewrite p_value in *. nia.
Qed.

Lemma add_inF a b : inF (add GF a b).
Proof. apply Z.mod_pos_bound. reflexivity. Qed.

Lemma sub_inF a b : inF (sub GF a b).
Proof. apply Z.mod_pos_bound. reflexivity. Qed.

Lemma mul_inF a b : inF (mul GF a b).
Proof. apply Z.mod_pos_bound. reflexivity. Qed.

Lemma a24_inF : inF a24.
Proof. unfold inF, a24. rewrite p_value. lia. Qed.

Create HintDb gf.
#[local] Hint Resolve add_by_shifts sub_by_shifts mul_by_shifts
  add_inF sub_inF mul_inF a24_inF : gf.

Definition in_range (s : ladder) : Prop :=
  inF (x_2 s) /\ inF (z_2 s) /\ inF (x_3 s) /\ inF (z_3 s).

Lemma round_inF F k x_1 s t :
  F = GF -> in_range (round F k x_1 s t).
Proof.
  intros ->. unfold round, in_range.
  destruct (cswap _ (x_2 s) _), (cswap _ (z_2 s) _). cbn [x_2 z_2 x_3 z_3].
  split; [|split; [|split]]; auto with gf.
Qed.

Lemma round_by_shifts k x_1 s t :
  in_range s -> inF x_1 -> round GF_by_shifts k x_1 s t = round GF k x_1 s t.
Proof.
  intros (H1 & H2 & H3 & H4) Hx. unfold round.
  destruct (xorb _ _); cbv beta iota zeta delta [cswap];
    f_equal; auto 12 with gf.
Qed.

Lemma rounds_by_shifts k x_1 l s :
  in_range s -> inF x_1 ->
  fold_left (round GF_by_shifts k x_1) l s = fold_left (round GF k x_1) l s
  /\ in_range (fold_left (round GF k x_1) l s).
Proof.
  intros Hs Hx. revert s Hs. induction l as [|t l IH]; intros s Hs; [now split|].
  cbn [fold_left]. rewrite round_by_shifts by assumption.
  apply IH. now apply round_inF.
Qed.

Lemma pow_by_shifts base e :
  inF base -> pow GF_by_shifts base e = pow GF base e /\ inF (pow GF base e).
Proof.
  intros Hb. induction e as [e [IH1 IH2]|e [IH1 IH2]|]; cbn [pow].
  - rewrite IH1. split; auto 6 with gf.
  - rewrite IH1. split; auto with gf.
  - now split.
Qed.

Lemma scalarMult_by_shifts scalar point :
  scalarMult_in GF_by_shifts scalar point = scalarMult scalar point.
Proof.
  unfold scalarMult, scalarMult_in.
  set (k := decodeScalar25519 scalar).
  set (x_1 := (decodeUCoordinate point mod p)%Z).
  assert (Hx : inF x_1) by (apply Z.mod_pos_bound; reflexivity).
  destruct (rounds_by_shifts k x_1 (rev (seq 0 255)) (mkLadder 1 0 x_1 1 false))
    as [-> (H1 & H2 & H3 & H4)]; [|exact Hx|].
  { repeat split; cbn; try reflexivity; try discriminate; apply Hx. }
  set (s := fold_left _ _ _) in *.
  destruct (swap s); cbv beta iota zeta delta [cswap]; f_equal.
  - destruct (pow_by_shifts (z_3 s) (Z.to_pos (p - 2)) H4) as [-> ?]. auto with gf.
  - destruct (pow_by_shifts (z_2 s) (Z.to_pos (p - 2)) H2) as [-> ?]. auto with gf.
Qed.

(** [X25519] can be computed without division. *)
Lemma X25519_by_shifts scalar point :
  X25519 scalar point = X25519_in GF_by_shifts scalar point.
Proof.
  unfold X25519, X25519_in. rewrite scalarMult_by_shifts.
  unfold scalarMult. reflexivity.
Qed.

(** *** The test vectors *)

(** RFC 7748, section 5.2, the first vector. *)
Example X25519_rfc7748_5_2 :
  option_map hex
    (X25519 (unhex "a546e36bf0527c9d3b16154b82465edd62144c0ac1fc5a18506a2244ba449ac4")
            (unhex "e6db6867583030db3594c1a424b15f7c726624ec26b3353b10a903a6d0ab1c4c")) =
  Some "c3da55379de9c6908e94ea4df28d084f32eccf03491c71f754b4075577a28552"%string.
Proof. rewrite X25519_by_shifts. vm_compute. reflexivity. Qed.

(** RFC 7748, section 6.1: the public keys of Alice and Bob, and the
    secret that they share. *)
Example X25519_rfc7748_6_1 :
  let a := unhex "77076d0a7318a57d3c16c17251b26645df4c2f87ebc0992ab177fba51db92c2a" in
  let b := unhex "5dab087e624a8a4b79e17f8b83800ee66f3bb1292618b6fd1c2f8b27ff88e0eb" in
  option_map hex (X25519 a Basepoint) =
  Some "8520f0098930a754748b7ddcb43ef75a0dbf3a0d26381af4eba4a98eaa9b4e6a"%string
  /\ option_map hex (X25519 b Basepoint) =
     Some "de9edb7d7b7dc1b4d35b61c2ece435373f8343c85b78674dadfc7e146f882b4f"%string
  /\ option_map hex
       (X25519 a (unhex "de9edb7d7b7dc1b4d35b61c2ece435373f8343c85b78674dadfc7e146f882b4f")) =
     Some "4a5d9d5ba4ce2de1728e3bf480350f25e07e21c947d19e3376f09b3c1e161742"%string.
Proof.
  intros a b. rewrite !X25519_by_shifts.
  split; [|split]; vm_compute; reflexivity.
Qed.

(** An all-zero result is answered with the error. *)
Lemma X25519_all_zero scalar point :
  scalarMult scalar point = repeat x00 32 -> X25519 scalar point = None.
Proof.
  unfold scalarMult, X25519, X25519_in. intros ->.
  destruct (negb _); [reflexivity|]. destruct (negb _); [reflexivity|].
  now rewrite bool_decide_eq_true_2.
Qed.

(** A point of low order gives the all-zero result. *)
Example X25519_low_order_point :
  let point := unhex "e0eb7a7c3b41b8ae1656e3faf19fc46ada098deb9c32b1fd866205165f49b800" in
  let scalar := unhex "77076d0a7318a57d3c16c17251b26645df4c2f87ebc0992ab177fba51db92c2a" in
  scalarMult scalar point = repeat x00 32
  /\ X25519 scalar point = None.
Proof.
  intros point scalar.
  assert (H : scalarMult scalar point = repeat x00 32).
  { rewrite <- scalarMult_by_shifts. vm_compute. reflexivity. }
  split; [exact H|]. apply X25519_all_zero, H.
Qed.

(** *** What the library checks *)

Lemma length_encodeLittleEndian n z : length (encodeLittleEndian n z) = n.
Proof. revert z. induction n as [|n IH]; intros z; cbn; [reflexivity|]. now rewrite IH. Qed.

(** What [X25519] returns is 32 bytes long and not all-zero. *)
Lemma X25519_result scalar point dst :
  X25519 scalar point = Some dst -> length dst = 32 /\ dst <> repeat x00 32.
Proof.
  unfold X25519, X25519_in.
  destruct (negb _); [discriminate|]. destruct (negb _); [discriminate|].
  destruct (bool_decide_reflect (scalarMult_in GF scalar point = repeat x00 32)) as [|Hne];
    [discriminate|].
  intros [= <-]. split; [|exact Hne].
  unfold scalarMult_in. destruct (cswap _ _ _), (cswap _ _ _).
  apply length_encodeLittleEndian.
Qed.

(** Both arguments must be 32 bytes long. *)
Lemma X25519_lengths scalar point dst :
  X25519 scalar point = Some dst -> length scalar = 32 /\ length point = 32.
Proof.
  unfold X25519, X25519_in.
  destruct (Nat.eqb_spec (length scalar) 32) as [Hs|]; [|discriminate].
  destruct (Nat.eqb_spec (length point) 32) as [Hp|]; [|discriminate].
  intros _. now split.
Qed.

End Curve25519Props.

(** ** The generator *)

Module TestKitProps.
Import Go GoProps Crypto TestKit.

Section Properties.

Context {P : Primitives}.

(** *** The body of a stanza *)

Lemma set_Buf_TextLine v s f : set_Buf v (TextLine s f) = set_Buf v f.
Proof. reflexivity. Qed.

Lemma Buf_TextLine s f : Buf (TextLine s f) = Buf f ++ bytes_of s ++ bytes_of LF.
Proof. cbn. now rewrite <- app_assoc. Qed.

Lemma div48_small (b : bytes) : length b / 48 = 0 -> length b < 48.
Proof.
  intros H. pose proof (Nat.div_mod_eq (length b) 48) as E.
  pose proof (Nat.mod_upper_bound (length b) 48). lia.
Qed.

Lemma div48_drop (b : bytes) n :
  length b / 48 = S n -> 48 <= length b /\ length (drop 48 b) / 48 = n.
Proof.
  intros H. pose proof (Nat.div_mod_eq (length b) 48) as E.
  pose proof (Nat.mod_upper_bound (length b) 48).
  split; [lia|]. rewrite length_drop.
  symmetry. apply (Nat.div_unique _ 48 n (length b mod 48)); lia.
Qed.

Lemma body_lines_short (b : bytes) : length b / 48 = 0 -> body_lines b = [b64 b].
Proof.
  intros H. unfold body_lines, short_line. rewrite H. reflexivity.
Qed.

Lemma body_lines_full (b : bytes) n :
  length b / 48 = S n -> body_lines b = b64 (take 48 b) :: body_lines (drop 48 b).
Proof.
  intros H. destruct (div48_drop b n H) as [_ Hd].
  unfold body_lines, short_line. rewrite H, Hd.
  cbn [seq map app]. change (full_line b 0) with (b64 (take 48 b)).
  apply (f_equal (cons _)).
  rewrite <- seq_shift, map_map.
  assert (Hd48 : forall i, drop (48 * i) (drop 48 b) = drop (48 * S i) b).
  { intros i. rewrite drop_drop. f_equal. lia. }
  rewrite Hd48. f_equal.
  apply map_ext. intros i. unfold full_line. now rewrite Hd48.
Qed.

(** The loop writes exactly these lines, given one unit of fuel per line. *)
Lemma Body_loop_lines n : forall (b : bytes) f fuel,
  length b / 48 = n -> n < fuel ->
  Body_loop fuel b f = Some (set_Buf (Buf f ++ text_lines (body_lines b)) f).
Proof.
  induction n as [|n IH]; intros b f [|fuel] Hn Hfuel; try lia.
  - apply div48_small in Hn as Hlt. cbn [Body_loop].
    destruct (Nat.ltb_spec 48 (length b)); [lia|].
    destruct (Nat.ltb_spec (length b) 48); [|lia].
    rewrite body_lines_short by (now apply Nat.div_small).
    unfold text_lines. cbn [map concat]. rewrite app_nil_r.
    unfold TextLine. now rewrite <- app_assoc.
  - destruct (div48_drop b n Hn) as [Hle Hd]. cbn [Body_loop].
    assert (Hline : (if (48 <? length b)%nat then take 48 b else b) = take 48 b).
    { destruct (Nat.ltb_spec 48 (length b)); [reflexivity|].
      symmetry. apply take_ge. lia. }
    rewrite Hline, length_take, Nat.min_l by lia.
    change (48 <? 48)%nat with false. cbv iota.
    rewrite (IH (drop 48 b)) by (auto; lia).
    rewrite set_Buf_TextLine, Buf_TextLine, (body_lines_full b n Hn).
    unfold text_lines. cbn [map concat]. now rewrite <- !app_assoc.
Qed.

Lemma Body_lines (b : bytes) f :
  Body b f = Some (set_Buf (Buf f ++ text_lines (body_lines b)) f).
Proof.
  unfold Body. apply (Body_loop_lines (length b / 48)); [reflexivity|].
  pose proof (Nat.Div0.div_le_upper_bound (length b) 48 (length b)). lia.
Qed.

Lemma b64_length (b : bytes) : String.length (b64 b) = (4 * length b + 2) / 3.
Proof. apply Base64Props.EncodeToString_length. Qed.

Lemma full_line_length (b : bytes) i :
  i < length b / 48 -> String.length (full_line b i) = 64.
Proof.
  intros Hi. unfold full_line. rewrite b64_length, length_take, length_drop.
  pose proof (Nat.div_mod_eq (length b) 48).
  rewrite Nat.min_l by nia. reflexivity.
Qed.

Lemma short_line_bytes (b : bytes) :
  length (drop (48 * (length b / 48)) b) = length b mod 48.
Proof.
  rewrite length_drop. pose proof (Nat.div_mod_eq (length b) 48). lia.
Qed.

(** C6. For every byte string [b], [Body] returns, and what it appends to
    the buffer is [len(b) / 48] lines of exactly 64 base64 characters
    (line [i] encodes bytes [48 i .. 48 i + 47]) followed by exactly one
    line of fewer than 64 characters that encodes the last [len(b) mod 48]
    bytes; that last line is empty when [len(b)] is a multiple of 48, zero
    included.  Every line consists of characters of the base64 alphabet,
    and nothing but the buffer changes. *)
Theorem Body_writes_full_lines_then_one_short (b : bytes) (f : TestFile) :
  let n := length b / 48 in
  let rest := drop (48 * n) b in
  Body b f = Some (set_Buf (Buf f ++ text_lines (map (full_line b) (seq 0 n) ++ [b64 rest])) f)
  /\ length (map (full_line b) (seq 0 n)) = n
  /\ (forall i, i < n -> String.length (full_line b i) = 64)
  /\ length rest = length b mod 48
  /\ String.length (b64 rest) < 64
  /\ (length b mod 48 = 0 -> b64 rest = EmptyString)
  /\ Forall (fun l => Forall (fun c => In c (list_ascii_of_string Base64.alphabet))
                             (list_ascii_of_string l))
            (map (full_line b) (seq 0 n) ++ [b64 rest]).
Proof.
  intros n rest. pose proof (short_line_bytes b) as Hrest. fold n rest in Hrest.
  pose proof (Nat.mod_upper_bound (length b) 48 ltac:(lia)) as Hlt.
  repeat split.
  - apply Body_lines.
  - now rewrite length_map, length_seq.
  - apply full_line_length.
  - exact Hrest.
  - rewrite b64_length, Hrest.
    apply Nat.Div0.div_lt_upper_bound. lia.
  - intros H0. rewrite H0 in Hrest. destruct rest; [reflexivity|discriminate].
  - apply Forall_app. split.
    + apply Forall_map, Forall_forall. intros i _. apply Base64Props.EncodeToString_alphabet.
    + constructor; [apply Base64Props.EncodeToString_alphabet|constructor].
Qed.

(** *** NotCanonicalBase64 *)

Lemma index_last_defined a r :
  exists c, index (String a r) (len (String a r) - 1) = Some c.
Proof.
  unfold index, len.
  destruct (Z.ltb_spec (Z.of_nat (String.length (String a r)) - 1) 0) as [H|_].
  { cbn [String.length] in H. lia. }
  replace (Z.to_nat (Z.of_nat (String.length (String a r)) - 1))
    with (String.length r) by (cbn [String.length]; lia).
  revert a. induction r as [|b r IH]; intros a.
  - exists a. reflexivity.
  - destruct (IH b) as [c Hc]. exists c. exact Hc.
Qed.

Lemma slice_to_last_defined a r :
  exists init, slice_to (String a r) (len (String a r) - 1) = Some init.
Proof.
  unfold slice_to, len. cbn [String.length].
  destruct (Z.ltb_spec (Z.of_nat (S (String.length r)) - 1) 0); [lia|].
  destruct (Z.ltb_spec (Z.of_nat (S (String.length r)))
                       (Z.of_nat (S (String.length r)) - 1)); [lia|].
  cbn [orb]. eauto.
Qed.

(** The character after [c] in the alphabet is missing only for ['/']; a
    character that is not in the alphabet has index -1, and then the
    character "after" it is the first one, ['A']. *)
Lemma next_in_alphabet_None c :
  index Base64.alphabet (IndexByte Base64.alphabet c + 1) = None <-> c = "/"%char.
Proof.
  destruct c as [[] [] [] [] [] [] [] []]; vm_compute;
    split; intros H; solve [reflexivity | discriminate H].
Qed.

Lemma NotCanonicalBase64_unfold s :
  NotCanonicalBase64 s =
  match index s (len s - 1) with
  | None => None
  | Some last =>
      match slice_to s (len s - 1) with
      | None => None
      | Some init =>
          match index Base64.alphabet (IndexByte Base64.alphabet last + 1) with
          | None => None
          | Some c => Some (init +:+ String c EmptyString)
          end
      end
  end.
Proof. reflexivity. Qed.

(** C10, as amended.  [NotCanonicalBase64] faults exactly on the empty
    string and on the strings whose last character is ['/']; it returns on
    every other string, also when the last character is not in the base64
    alphabet: [IndexByte] is then -1, and the character is replaced by the
    first of the alphabet, ['A']. *)
Theorem NotCanonicalBase64_faults_iff (s : string) :
  (NotCanonicalBase64 s = None <->
   s = EmptyString \/ index s (len s - 1) = Some "/"%char)
  /\ (forall c, index s (len s - 1) = Some c ->
      IndexByte Base64.alphabet c = (-1)%Z ->
      exists init,
        slice_to s (len s - 1) = Some init
        /\ NotCanonicalBase64 s = Some (init +:+ "A")).
Proof.
  rewrite NotCanonicalBase64_unfold.
  destruct s as [|a r].
  - split; [split; [now left | reflexivity] | discriminate].
  - destruct (index_last_defined a r) as [c Hc].
    destruct (slice_to_last_defined a r) as [init Hinit].
    rewrite Hc, Hinit. split.
    + pose proof (next_in_alphabet_None c) as Hnext.
      destruct (index Base64.alphabet (IndexByte Base64.alphabet c + 1)) as [c'|].
      * split; [discriminate|]. intros [H|H]; [discriminate|].
        injection H as ->. destruct Hnext as [_ Hnext].
        specialize (Hnext eq_refl). discriminate Hnext.
      * split; [|reflexivity]. intros _. right. f_equal.
        now apply Hnext.
    + intros c' Hc' Hout. injection Hc' as ->. exists init.
      split; [reflexivity|]. now rewrite Hout.
Qed.

(** *** The payload *)

Lemma New_32 key :
  length key = 32 -> chacha20poly1305_New key = Some (chacha20poly1305_Seal key).
Proof. intros H. unfold chacha20poly1305_New. now rewrite H. Qed.

Lemma Read_length src p : length (Read src p) = length p.
Proof. unfold Read. rewrite length_app, length_take, length_drop. lia. Qed.

(** [k] calls of [PayloadChunk]: chunk [i] is sealed with the nonce whose
    byte 10 has been incremented [i] times, and nothing else of the nonce
    changes. *)
Lemma PayloadChunks_spec pts : forall f,
  length (streamKey f) = 32 ->
  PayloadChunks pts f =
  Some (set_nonce (alter (byte_add (length pts)) 10 (nonce f))
       (set_Buf (Buf f ++ concat (imap (fun i plaintext =>
                   chacha20poly1305_Seal (streamKey f)
                     (alter (byte_add i) 10 (nonce f)) plaintext []) pts))
       (set_payload (payload f ++ concat pts) f))).
Proof.
  induction pts as [|pt pts IH]; intros f Hkey.
  - destruct f. cbn. unfold set_nonce, set_Buf, set_payload. cbn.
    rewrite !app_nil_r, (list_alter_id _ _ _ byte_add_0). reflexivity.
  - cbn [PayloadChunks]. unfold PayloadChunk.
    cbn [streamKey set_payload]. rewrite (New_32 _ Hkey). cbn [mbind option_bind].
    rewrite IH by exact Hkey.
    destruct f as [B R fk sk n pl ex co ids pps]. cbn in *.
    unfold set_nonce, set_Buf, set_payload. cbn.
    rewrite list_alter_alter_eq.
    rewrite (list_alter_ext (byte_add (length pts) ∘ byte_inc)
               (byte_add (S (length pts))) n n 10)
      by (auto; intros; cbn; rewrite byte_inc_add; apply byte_add_add).
    rewrite (list_alter_id _ _ _ byte_add_0).
    rewrite <- !app_assoc. do 4 f_equal.
    f_equal. apply imap_ext. intros i x _. cbn.
    rewrite list_alter_alter_eq. f_equal.
    apply list_alter_ext; [|reflexivity].
    intros; cbn; rewrite byte_inc_add; apply byte_add_add.
Qed.

Lemma zero_nonce_alter (g : byte -> byte) :
  alter g 10 (repeat x00 12) = (repeat x00 10 ++ [g x00]) ++ [x00].
Proof. reflexivity. Qed.

Lemma chunk_nonce_small k flag :
  k < 256 ->
  chunk_nonce (N.of_nat k) flag = (repeat x00 10 ++ [byte_add k x00]) ++ [flag].
Proof.
  intros Hk. unfold chunk_nonce, byte_add.
  change (big_endian 11 (N.of_nat k))
    with (big_endian 10 (N.of_nat k / 256) ++ [byte_of_N (N.of_nat k mod 256)]).
  rewrite N.div_small by lia. reflexivity.
Qed.

Lemma chunk_nonce_large k flag g :
  256 <= k -> (N.of_nat k < 2 ^ 88)%N ->
  chunk_nonce (N.of_nat k) flag <> (repeat x00 10 ++ [g]) ++ [flag].
Proof.
  intros Hk Hlt E. unfold chunk_nonce in E.
  apply app_inj_tail in E as [E _].
  change (big_endian 11 (N.of_nat k))
    with (big_endian 10 (N.of_nat k / 256) ++ [byte_of_N (N.of_nat k mod 256)]) in E.
  apply app_inj_tail in E as [E _].
  apply (f_equal big_endian_value) in E.
  rewrite big_endian_value_encode in E.
  change (big_endian_value (repeat x00 10)) with 0%N in E.
  assert (Hq : (N.of_nat k / 256 < 256 ^ N.of_nat 10)%N).
  { apply N.Div0.div_lt_upper_bound. change (256 * 256 ^ N.of_nat 10)%N with (2 ^ 88)%N. lia. }
  rewrite N.mod_small in E by exact Hq.
  assert (256 <= N.of_nat k)%N as Hge by lia.
  pose proof (N.Div0.div_le_mono _ _ 256 Hge) as Hd.
  change (256 / 256)%N with 1%N in Hd. lia.
Qed.

(** C9.  [PayloadChunk] increments byte 10 of the nonce, modulo 256, and
    nothing else: after [k] calls byte 10 has gone up by [k mod 256] and
    the other eleven bytes are as before, so that 256 calls bring the nonce
    back to where it was, and chunks 256 apart are sealed with the same
    nonce.  From the zero nonce, the nonce after [k] calls is the 11-byte
    big-endian counter [k] (with flag 0) when [k < 256], and is not when
    [256 <= k < 2^88]. *)
Theorem PayloadChunk_increments_byte_10_only (pts : list bytes) (f : TestFile) :
  length (streamKey f) = 32 ->
  exists f',
    PayloadChunks pts f = Some f'
    /\ nonce f' = alter (byte_add (length pts)) 10 (nonce f)
    /\ (forall i, i <> 10 -> nonce f' !! i = nonce f !! i)
    /\ (forall b, byte_add 256 b = b)
    /\ (length pts = 256 -> nonce f' = nonce f)
    /\ Buf f' = Buf f ++ concat (imap (fun i plaintext =>
                   chacha20poly1305_Seal (streamKey f)
                     (alter (byte_add i) 10 (nonce f)) plaintext []) pts)
    /\ (forall i b, byte_add (i + 256) b = byte_add i b)
    /\ (nonce f = repeat x00 12 ->
        (length pts < 256 -> nonce f' = chunk_nonce (N.of_nat (length pts)) x00)
        /\ (256 <= length pts -> (N.of_nat (length pts) < 2 ^ 88)%N ->
            nonce f' <> chunk_nonce (N.of_nat (length pts)) x00)).
Proof.
  intros Hkey. eexists. split; [apply PayloadChunks_spec, Hkey|].
  assert (H256 : forall b, byte_add 256 b = b).
  { intros b. rewrite (byte_add_256 0). apply byte_add_0. }
  cbn [nonce Buf set_nonce set_Buf set_payload].
  repeat split; auto using byte_add_256.
  - intros i Hi. now rewrite list_lookup_alter_ne.
  - intros ->. now apply list_alter_id.
  - rewrite H, zero_nonce_alter. intros Hk. now rewrite chunk_nonce_small.
  - rewrite H, zero_nonce_alter. intros Hk Hlt E. symmetry in E.
    now apply chunk_nonce_large in E.
Qed.

(** C2, as amended (the counter is byte 10 alone, so the claim needs
    [k < 256]).  In a file whose nonce is still zero and whose stream key
    has been set, [k < 256] calls of [PayloadChunk] followed by
    [PayloadChunkFinal] all return; chunk [i] is sealed under the stream key
    with the 12-byte nonce made of the 11-byte big-endian counter [i] and
    the flag 0, and the final chunk with the counter [k] and the flag 1;
    the counter is not incremented after the final chunk. *)
Theorem PayloadChunkFinal_uses_counter_k
  (pts : list bytes) (final : bytes) (f : TestFile) :
  nonce f = repeat x00 12 ->
  length (streamKey f) = 32 ->
  length pts < 256 ->
  exists f1 f2,
    PayloadChunks pts f = Some f1
    /\ PayloadChunkFinal final f1 = Some f2
    /\ Buf f1 = Buf f ++ concat (imap (fun i plaintext =>
                   chacha20poly1305_Seal (streamKey f)
                     (chunk_nonce (N.of_nat i) x00) plaintext []) pts)
    /\ Buf f2 = Buf f1 ++ chacha20poly1305_Seal (streamKey f)
                            (chunk_nonce (N.of_nat (length pts)) x01) final []
    /\ nonce f1 = chunk_nonce (N.of_nat (length pts)) x00
    /\ nonce f2 = chunk_nonce (N.of_nat (length pts)) x01
    /\ length (chunk_nonce (N.of_nat (length pts)) x01) = 12.
Proof.
  intros Hnonce Hkey Hk.
  eexists. eexists. split; [apply PayloadChunks_spec, Hkey|].
  unfold PayloadChunkFinal.
  cbn [nonce Buf streamKey set_nonce set_Buf set_payload].
  rewrite (New_32 _ Hkey). cbn [mbind option_bind]. split; [reflexivity|].
  cbn [nonce Buf streamKey set_nonce set_Buf set_payload].
  rewrite Hnonce, zero_nonce_alter.
  assert (Hfinal : <[11:=x01]> ((repeat x00 10 ++ [byte_add (length pts) x00]) ++ [x00])
                   = chunk_nonce (N.of_nat (length pts)) x01).
  { now rewrite chunk_nonce_small. }
  rewrite Hfinal. repeat split.
  - do 2 f_equal. apply imap_ext. intros i x Hi.
    apply lookup_lt_Some in Hi.
    rewrite chunk_nonce_small by lia. reflexivity.
  - symmetry. now apply chunk_nonce_small.
Qed.

(** *** Stanzas and the header MAC *)

Lemma bytes_of_append a b : bytes_of (a +:+ b) = bytes_of a ++ bytes_of b.
Proof.
  unfold bytes_of, list_byte_of_string.
  induction a as [|c a IH]; [reflexivity|].
  change (String c a +:+ b) with (String c (a +:+ b)).
  cbn [list_ascii_of_string map app]. now f_equal.
Qed.

Lemma Buf_set_Buf v f : Buf (set_Buf v f) = v.
Proof. reflexivity. Qed.

(** A reader that delivers exactly as many bytes as the buffer holds
    leaves just these bytes in it. *)
Lemma Read_exact src n : length src = n -> Read src (make n) = src.
Proof.
  intros <-. unfold Read, make.
  rewrite take_ge, drop_ge, app_nil_r by (rewrite ?repeat_length; lia).
  reflexivity.
Qed.

Lemma AEADBody_lines key body f :
  length key = 32 ->
  AEADBody key body f =
  Some (set_Buf (Buf f ++ text_lines (body_lines
                   (chacha20poly1305_Seal key (make 12) body []))) f).
Proof.
  intros Hkey. unfold AEADBody. rewrite (New_32 _ Hkey). apply Body_lines.
Qed.

(** When the shift gives a number above 1, it is the power of two. *)
Lemma shl_int_pow2 s N :
  shl_int 1 s = Some N -> (1 < N)%Z -> (1 <= s <= 62)%Z /\ N = (2 ^ s)%Z.
Proof.
  unfold shl_int, wrap_int. destruct (Z.ltb_spec s 0) as [|Hs]; [discriminate|].
  intros [= <-]. rewrite Z.mul_1_l. intros HN.
  destruct (Z.le_gt_cases s 62) as [Hle|Hgt].
  - assert (0 < 2 ^ s <= 2 ^ 62)%Z.
    { split; [apply Z.pow_pos_nonneg; lia | apply Z.pow_le_mono_r; lia]. }
    rewrite Z.mod_small in * by lia.
    split; [|lia]. destruct (Z.eq_dec s 0%Z) as [->|]; [|lia]. cbn in HN. lia.
  - exfalso. destruct (Z.eq_dec s 63%Z) as [->|Hne].
    + vm_compute in HN. discriminate HN.
    + replace s with ((s - 64) + 64)%Z in HN by lia.
      rewrite Z.pow_add_r in HN by lia.
      rewrite Z.add_comm, Z_mod_plus_full in HN.
      vm_compute in HN. discriminate HN.
Qed.

(** C1, as amended.  [HMAC] appends the line [--- <base64(h)>], where [h]
    is the HMAC, under the 32-byte key read from
    HKDF(file key, nil salt, "header"), of the buffer as it stands followed
    by the three bytes [---]: the space that follows [---] on the line is
    written, and is not part of what is authenticated. *)
Theorem HMAC_covers_header_through_dashes (f : TestFile) :
  let key := Read (hkdf_sha256 (fileKey f) [] (bytes_of "header") 32) (make 32) in
  let h := hmac_sha256 key (Buf f ++ bytes_of "---") in
  HMAC f = set_Buf (Buf f ++ bytes_of "--- " ++ bytes_of (b64 h) ++ bytes_of LF) f
  /\ length key = 32
  /\ (length (hkdf_sha256 (fileKey f) [] (bytes_of "header") 32) = 32 ->
      key = hkdf_sha256 (fileKey f) [] (bytes_of "header") 32).
Proof.
  intros key h. repeat split.
  - unfold HMAC, HMACLine, TextLine. fold key. fold h.
    rewrite bytes_of_append, <- !app_assoc. reflexivity.
  - apply Read_length.
  - apply Read_exact.
Qed.


(** When the library returns its error for the secret, of which an
    all-zero result is one cause, the stanza is written all the same, with
    a key that is derived from the nil slice. *)
Lemma X25519NoRecordIdentity_drops_the_error (identity : bytes) (f : TestFile) :
  let recipient := drop_err (curve25519_X25519 identity curve25519_Basepoint) in
  let ephemeral := map (Rand f) (seq 0 32) in
  let share := drop_err (curve25519_X25519 ephemeral curve25519_Basepoint) in
  let wrap_key := Read (hkdf_sha256 [] (share ++ recipient)
                          (bytes_of "age-encryption.org/v1/X25519") 32) (make 32) in
  curve25519_X25519 ephemeral recipient = None ->
  X25519NoRecordIdentity identity f =
  AEADBody wrap_key (fileKey f)
    (ArgsLine ["X25519"; b64 share] (set_Rand (fun i => Rand f (32 + i)) f)).
Proof.
  intros recipient ephemeral share wrap_key E.
  unfold X25519NoRecordIdentity, Rand_call.
  fold recipient ephemeral share. rewrite E. reflexivity.
Qed.

(** C5, as amended.  When [scrypt.Key] returns a key, which it does for
    no work factor outside of 1 to 62, [ScryptNoRecordPassphrase]
    returns and appends the stanza
    [-> scrypt <b64(salt)> <workFactor in decimal>], salt being the next 16
    bytes of [Rand]; the key is derived from the passphrase, the salt
    "age-encryption.org/v1/scrypt" || salt, N = 2^workFactor, r = 8, p = 1
    and the length 32, and the body is the seal of the file key under it
    with the all-zero nonce. *)
Theorem ScryptNoRecordPassphrase_stanza
  (passphrase : string) (workFactor N : Z) (f : TestFile) (key : bytes) :
  let salt := map (Rand f) (seq 0 16) in
  shl_int 1 workFactor = Some N ->
  scrypt_Key (bytes_of passphrase) (bytes_of "age-encryption.org/v1/scrypt" ++ salt)
             N 8 1 32 = Some key ->
  N = (2 ^ workFactor)%Z
  /\ ScryptNoRecordPassphrase passphrase workFactor f =
     Some (set_Buf (Buf f ++ bytes_of ("-> scrypt " +:+ b64 salt +:+ " " +:+ Itoa workFactor)
                      ++ bytes_of LF
                      ++ text_lines (body_lines
                           (chacha20poly1305_Seal key (repeat x00 12) (fileKey f) [])))
                   (set_Rand (fun i => Rand f (16 + i)) f))
  /\ length salt = 16
  /\ length key = 32.
Proof.
  intros salt HN Hkey.
  destruct (scrypt_Key_checks _ _ _ _ _ _ _ Hkey) as [H1 Hlen].
  destruct (shl_int_pow2 _ _ HN H1) as [_ ->].
  split; [reflexivity|]. split; [|split; [|exact Hlen]].
  - unfold ScryptNoRecordPassphrase, Rand_call. fold salt.
    rewrite HN. cbn [mbind option_bind].
    rewrite Hkey. cbn [drop_err].
    rewrite AEADBody_lines by exact Hlen.
    unfold ArgsLine, TextLine. cbn [Buf fileKey set_Buf set_Rand String.concat].
    unfold set_Buf. cbn [Buf Rand fileKey streamKey nonce payload expect comment
                         identities passphrases set_Rand].
    rewrite <- !app_assoc. reflexivity.
  - unfold salt. now rewrite length_map, length_seq.
Qed.

(** Without a key from [scrypt.Key] there is no AEAD, and the generator
    faults; it also faults on a negative work factor. *)
Lemma ScryptNoRecordPassphrase_faults (passphrase : string) (workFactor : Z) (f : TestFile) :
  match shl_int 1 workFactor with
  | None => ScryptNoRecordPassphrase passphrase workFactor f = None
  | Some N =>
      scrypt_Key (bytes_of passphrase)
        (bytes_of "age-encryption.org/v1/scrypt" ++ map (Rand f) (seq 0 16)) N 8 1 32 = None ->
      ScryptNoRecordPassphrase passphrase workFactor f = None
  end.
Proof.
  unfold ScryptNoRecordPassphrase, Rand_call.
  destruct (shl_int 1 workFactor) as [N|]; [|reflexivity].
  cbn [mbind option_bind]. intros ->. reflexivity.
Qed.

(** A stanza is completed for the work factors 1 to 62 only: for the
    others, N = 1 << workFactor is 1 (at 0), negative (at 63) or 0 (from
    64 on), which [scrypt.Key] refuses, and a negative shift count is a
    fault of its own. *)
Lemma ScryptNoRecordPassphrase_work_factor
  (passphrase : string) (workFactor : Z) (f f' : TestFile) :
  ScryptNoRecordPassphrase passphrase workFactor f = Some f' ->
  (1 <= workFactor <= 62)%Z.
Proof.
  unfold ScryptNoRecordPassphrase, Rand_call.
  destruct (shl_int 1 workFactor) as [N|] eqn:HN; [|discriminate].
  cbn [mbind option_bind].
  destruct (scrypt_Key _ _ N 8 1 32) as [key|] eqn:Hkey; [|discriminate].
  intros _. destruct (scrypt_Key_checks _ _ _ _ _ _ _ Hkey) as [H1 _].
  exact (proj1 (shl_int_pow2 _ _ HN H1)).
Qed.

End Properties.

(** *** The theorems at chosen inputs *)

(** Counterexample to C1 as stated, with the real HMAC-SHA256 and
    HKDF-SHA256: after the version line, [HMAC] writes the MAC of
    the header followed by [---]; the MAC of the header followed by [---]
    and the space is another value. *)
Lemma HMAC_leaves_the_space_out :
  Buf (HMAC header_v1) =
    bytes_of ("age-encryption.org/v1" +:+ LF +:+
              "--- u/LRnSo3V8xM5dGMyy1IhPiaN0QaOWlkm5TqbhNCRew" +:+ LF)
  /\ b64 (Sha256.HMAC (Sha256.HKDF (fileKey header_v1) [] (bytes_of "header") 32)
                      (Buf header_v1 ++ bytes_of "---")) =
     "u/LRnSo3V8xM5dGMyy1IhPiaN0QaOWlkm5TqbhNCRew"
  /\ b64 (Sha256.HMAC (Sha256.HKDF (fileKey header_v1) [] (bytes_of "header") 32)
                      (Buf header_v1 ++ bytes_of "--- ")) =
     "wLI0FtX4DC0MhWCRgwhMT9tE7TfVocWG1WfjjdVLEdA".
Proof. split; [|split]; vm_compute; reflexivity. Qed.

(** Counterexample to C2 as stated: after 256 calls of [PayloadChunk] the
    final chunk is sealed with the counter 0, where the 11-byte big-endian
    counter 256 has the byte 1 at index 9. *)
Lemma PayloadChunkFinal_after_256_chunks :
  let final := PayloadChunks (repeat [] 256) payload_start
                 ≫= PayloadChunkFinal [] in
  option_map nonce final =
    Some [x00; x00; x00; x00; x00; x00; x00; x00; x00; x00; x00; x01]
  /\ option_map (fun f => drop (length (Buf f) - 12) (Buf f)) final =
    Some [x00; x00; x00; x00; x00; x00; x00; x00; x00; x00; x00; x01]
  /\ chunk_nonce 256 x01 =
    [x00; x00; x00; x00; x00; x00; x00; x00; x00; x01; x00; x01].
Proof. split; [|split]; vm_compute; reflexivity. Qed.

Lemma PayloadChunkFinal_uses_counter_k_witness :
  nonce payload_start = repeat x00 12
  /\ length (streamKey payload_start) = 32
  /\ exists f1 f2,
      PayloadChunks [bytes_of "first"; bytes_of "second"] payload_start = Some f1
      /\ PayloadChunkFinal (bytes_of "last") f1 = Some f2
      /\ nonce f2 = chunk_nonce 2 x01.
Proof.
  split; [reflexivity|]. split; [apply Read_length|].
  destruct (PayloadChunkFinal_uses_counter_k
              [bytes_of "first"; bytes_of "second"] (bytes_of "last") payload_start)
    as (f1 & f2 & H1 & H2 & _ & _ & _ & H3 & _);
    [reflexivity | apply Read_length | cbn; lia |].
  exists f1, f2. auto.
Defined.

Lemma PayloadChunk_increments_byte_10_only_witness :
  length (streamKey payload_start) = 32
  /\ exists f',
      PayloadChunks [bytes_of "first"; bytes_of "second"] payload_start = Some f'
      /\ nonce f' = alter (byte_add 2) 10 (nonce payload_start).
Proof.
  split; [apply Read_length|].
  destruct (PayloadChunk_increments_byte_10_only
              [bytes_of "first"; bytes_of "second"] payload_start)
    as (f' & H1 & H2 & _); [apply Read_length|].
  exists f'. auto.
Defined.


Lemma ScryptNoRecordPassphrase_stanza_witness :
  option_map Buf (ScryptNoRecordPassphrase "password" 10 NewTestFile) =
  Some (bytes_of ("-> scrypt AAECAwQFBgcICQoLDA0ODw 10" +:+ LF +:+
                  "AAAAAAAAAAAAAAAAWUVMTE9XIFNVQk1BUklORQ" +:+ LF)).
Proof.
  destruct (ScryptNoRecordPassphrase_stanza "password" 10 1024 NewTestFile
              (Read (Sha256.HKDF (bytes_of "password")
                       (bytes_of "age-encryption.org/v1/scrypt"
                        ++ map Standin.keystream (seq 0 16)) [] 32) (make 32)))
    as (_ & H & _); [reflexivity | reflexivity |].
  rewrite H. vm_compute. reflexivity.
Defined.

(** Counterexample to C10 as stated: ['='] is not in the alphabet, and
    [NotCanonicalBase64] returns on a string that ends with it. *)
Lemma NotCanonicalBase64_outside_alphabet :
  IndexByte Base64.alphabet "="%char = (-1)%Z
  /\ NotCanonicalBase64 "QQ=" = Some "QQA".
Proof. split; reflexivity. Qed.

(** A body of 48 bytes: one full line, then the empty line. *)
Example Body_48_bytes :
  option_map Buf (Body (repeat x00 48) header_v1) =
  Some (bytes_of ("age-encryption.org/v1" +:+ LF +:+
                  "AAAAAAAAAAAAAAAAAAAAAAAAAAAAAAAAAAAAAAAAAAAAAAAAAAAAAAAAAAAAAAAA" +:+ LF +:+
                  LF)).
Proof. vm_compute. reflexivity. Qed.

(** Counterexample to C5 as stated: a work factor of 0 makes N = 1, and
    one of 64 makes N = 0, which [scrypt.Key] refuses: with the nil key
    there is no AEAD, and the generator faults before the body of the
    stanza is written. *)
Lemma ScryptNoRecordPassphrase_without_key :
  ScryptNoRecordPassphrase "password" 0 NewTestFile = None
  /\ ScryptNoRecordPassphrase "password" 64 NewTestFile = None.
Proof.
  split.
  - destruct (ScryptNoRecordPassphrase "password" 0 NewTestFile) as [f'|] eqn:E;
      [|reflexivity].
    apply ScryptNoRecordPassphrase_work_factor in E. lia.
  - destruct (ScryptNoRecordPassphrase "password" 64 NewTestFile) as [f'|] eqn:E;
      [|reflexivity].
    apply ScryptNoRecordPassphrase_work_factor in E. lia.
Qed.

End TestKitProps.

(** ** The plugin client *)

Module PluginProps.
Import Go Plugin.

Lemma Marshal_writable s conn :
  writable conn ->
  exists conn',
    Marshal s conn = (Ok tt, conn') /\ writable conn' /\ Reader conn' = Reader conn.
Proof.
  unfold writable, Marshal. intros H.
  destruct (Writer conn) as [|[e|] w] eqn:E.
  - eexists. split; [reflexivity|]. split; [constructor|reflexivity].
  - inversion H; discriminate.
  - eexists. split; [reflexivity|]. split; [|reflexivity]. cbn. now inversion H.
Qed.

Lemma bind_Marshal_writable {A} s (k : M A) conn :
  writable conn ->
  exists conn', writable conn' /\ (Marshal s >> k) conn = k conn'.
Proof.
  intros H. destruct (Marshal_writable s conn H) as (conn' & E & H' & _).
  exists conn'. split; [exact H'|]. unfold bind. now rewrite E.
Qed.

Lemma eqb_neq_false a b : a <> b -> String.eqb a b = false.
Proof. intros H. now apply String.eqb_neq. Qed.

(** The three checks of the index, as one. *)
Lemma recipient_stanza_checks s :
  (recipient_stanza_ok s ->
   (length (Args s) <? 2)%nat = false
   /\ Atoi (nth 0 (Args s) EmptyString) = Some 0%Z)
  /\ (~ recipient_stanza_ok s ->
      (length (Args s) <? 2)%nat = true
      \/ Atoi (nth 0 (Args s) EmptyString) = None
      \/ exists n, Atoi (nth 0 (Args s) EmptyString) = Some n /\ (n =? 0)%Z = false).
Proof.
  unfold recipient_stanza_ok. split.
  - intros [Hlen Hn]. split; [|exact Hn]. apply Nat.ltb_ge. exact Hlen.
  - intros Hno. destruct (Nat.ltb_spec (length (Args s)) 2) as [|Hlen]; [now left|].
    right. destruct (Atoi (nth 0 (Args s) EmptyString)) as [n|]; [|now left].
    right. exists n. split; [reflexivity|].
    apply Z.eqb_neq. intros ->. apply Hno. now split.
Qed.

Lemma file_key_checks s :
  (file_key_ok s ->
   (length (Args s) =? 1)%nat = true
   /\ Atoi (nth 0 (Args s) EmptyString) = Some 0%Z)
  /\ (~ file_key_ok s ->
      (length (Args s) =? 1)%nat = false
      \/ Atoi (nth 0 (Args s) EmptyString) = None
      \/ exists n, Atoi (nth 0 (Args s) EmptyString) = Some n /\ (n =? 0)%Z = false).
Proof.
  unfold file_key_ok. split.
  - intros [Hlen Hn]. split; [|exact Hn]. now apply Nat.eqb_eq.
  - intros Hno. destruct (Nat.eqb_spec (length (Args s)) 1) as [Hlen|]; [|now left].
    right. destruct (Atoi (nth 0 (Args s) EmptyString)) as [n|]; [|now left].
    right. exists n. split; [reflexivity|].
    apply Z.eqb_neq. intros ->. apply Hno. now split.
Qed.

(** A well-formed [recipient-stanza] is collected, and answered [ok]. *)
Lemma Wrap_ReadLoop_accepts r args body sr stanzas :
  let s := mkStanza "recipient-stanza" args body in
  recipient_stanza_ok s ->
  Recipient.Wrap_ReadLoop r (Ok s :: sr) stanzas =
  (Marshal (mkStanza "ok" [] None)
   >> Recipient.Wrap_ReadLoop r sr (stanzas ++ [collect s])).
Proof.
  intros s H. apply recipient_stanza_checks in H as [Hlen Hn].
  cbn [Recipient.Wrap_ReadLoop Type_ s String.eqb Ascii.eqb Bool.eqb orb].
  cbn [Args s] in *. rewrite Hlen, Hn. reflexivity.
Qed.

(** A malformed one ends the loop with an error, and nothing is written. *)
Lemma Wrap_ReadLoop_rejects r args body sr stanzas conn :
  let s := mkStanza "recipient-stanza" args body in
  ~ recipient_stanza_ok s ->
  Recipient.Wrap_ReadLoop r (Ok s :: sr) stanzas conn =
  (Err (Errorf "received malformed recipient stanza"), conn).
Proof.
  intros s H. apply recipient_stanza_checks in H.
  cbn [Recipient.Wrap_ReadLoop Type_ s String.eqb Ascii.eqb Bool.eqb orb].
  cbn [Args s] in *.
  destruct H as [H|[H|(n & H & Hn)]]; rewrite H; try reflexivity.
  - destruct (length args <? 2)%nat; reflexivity.
  - destruct (length args <? 2)%nat; [reflexivity|]. now rewrite Hn.
Qed.

Lemma collect_all_other s :
  Type_ s <> "recipient-stanza" -> collect_all [s] = [].
Proof. intros H. unfold collect_all. cbn. now rewrite (eqb_neq_false _ _ H). Qed.

Lemma collect_all_cons s ss : collect_all (s :: ss) = collect_all [s] ++ collect_all ss.
Proof. unfold collect_all. cbn. now rewrite app_nil_r. Qed.

(** A stanza that keeps the loop going is answered, and the loop goes on
    with the next one. *)
Lemma Wrap_ReadLoop_continues r s sr stanzas conn :
  Wrap_continues s -> writable conn ->
  exists conn',
    writable conn'
    /\ Recipient.Wrap_ReadLoop r (Ok s :: sr) stanzas conn =
       Recipient.Wrap_ReadLoop r sr (stanzas ++ collect_all [s]) conn'.
Proof.
  intros (Herr & Hdone & Hrs) Hw.
  destruct (String.eqb_spec (Type_ s) "recipient-stanza") as [E|N].
  - destruct s as [ty args body]. cbn in E. subst ty.
    rewrite Wrap_ReadLoop_accepts by now apply Hrs.
    now apply bind_Marshal_writable.
  - rewrite (collect_all_other s N), app_nil_r.
    cbn [Recipient.Wrap_ReadLoop].
    rewrite (eqb_neq_false _ _ N), (eqb_neq_false _ _ Herr), (eqb_neq_false _ _ Hdone).
    destruct (String.eqb (Type_ s) "msg").
    { destruct (Recipient.DisplayMessage r) as [d|]; [destruct (d _)|];
        now apply bind_Marshal_writable. }
    destruct (String.eqb (Type_ s) "request-secret" || String.eqb (Type_ s) "request-public").
    { destruct (Recipient.RequestValue r) as [q|]; [destruct (q _ _)|];
        now apply bind_Marshal_writable. }
    now apply bind_Marshal_writable.
Qed.

Lemma Wrap_ReadLoop_prefix r pre : forall sr stanzas conn,
  Forall Wrap_continues pre -> writable conn ->
  exists conn',
    writable conn'
    /\ Recipient.Wrap_ReadLoop r (map Ok pre ++ sr) stanzas conn =
       Recipient.Wrap_ReadLoop r sr (stanzas ++ collect_all pre) conn'.
Proof.
  induction pre as [|s pre IH]; intros sr stanzas conn Hpre Hw.
  - exists conn. split; [exact Hw|]. cbn. now rewrite app_nil_r.
  - inversion Hpre as [|? ? Hs Hpre']; subst.
    destruct (Wrap_ReadLoop_continues r s (map Ok pre ++ sr) stanzas conn Hs Hw)
      as (conn1 & Hw1 & E1).
    destruct (IH sr (stanzas ++ collect_all [s]) conn1 Hpre' Hw1) as (conn2 & Hw2 & E2).
    exists conn2. split; [exact Hw2|].
    cbn [map app]. rewrite E1, E2, <- app_assoc, <- collect_all_cons. reflexivity.
Qed.

(** Phase 1 of [Wrap], when the writes succeed. *)
Lemma Wrap_session_phase1 r fileKey conn :
  writable conn ->
  exists conn',
    writable conn'
    /\ Recipient.Wrap_session r fileKey conn =
       (let* stanzas := Recipient.Wrap_ReadLoop r (Reader conn) [] in
        if (length stanzas =? 0)%nat
        then fail (Errorf "received zero recipient stanzas")
        else ret stanzas) conn'.
Proof.
  intros Hw. unfold Recipient.Wrap_session, bind at 1 2 3 4.
  destruct (Marshal_writable
              (mkStanza (if Recipient.identity r then "add-identity" else "add-recipient")
                        [Recipient.encoding r] None) conn Hw) as (c1 & E1 & Hw1 & R1).
  rewrite E1.
  destruct (Marshal_writable (mkStanza "wrap-file-key" [] (Some fileKey)) c1 Hw1)
    as (c2 & E2 & Hw2 & R2).
  rewrite E2.
  destruct (Marshal_writable (mkStanza "done" [] None) c2 Hw2) as (c3 & E3 & Hw3 & R3).
  rewrite E3. unfold NewStanzaReader.
  exists c3. split; [exact Hw3|]. now rewrite R3, R2, R1.
Qed.

Lemma Wrap_session_never_empty r fileKey conn :
  fst (Recipient.Wrap_session r fileKey conn) <> Ok [].
Proof.
  unfold Recipient.Wrap_session, bind, NewStanzaReader.
  repeat (destruct (Marshal _ _) as [[[]|?] ?]; [|discriminate]).
  destruct (Recipient.Wrap_ReadLoop _ _ _ _) as [[stanzas|?] ?]; [|discriminate].
  destruct stanzas; cbn; discriminate.
Qed.

Lemma Wrap_started exec_Start r fileKey p :
  exec_Start ("age-plugin-" +:+ Recipient.name r) "--age-plugin=recipient-v1" = Ok p ->
  fst (Recipient.Wrap exec_Start r fileKey) =
  prefix_error (Recipient.name r)
    (fst (Recipient.Wrap_session r fileKey (mkConn (stdout p) (stdin p) []))).
Proof.
  intros E. unfold Recipient.Wrap, openClientConnection.
  change ("--age-plugin=" +:+ "recipient-v1") with "--age-plugin=recipient-v1".
  rewrite E. now destruct (Recipient.Wrap_session _ _ _).
Qed.

(** C7.  In the loop of [Wrap], a [recipient-stanza] with at least two
    arguments, the first of which parses as 0, is collected as the stanza
    of type [args[1]], arguments [args[2:]] and the same body, and [ok] is
    written back; any other [recipient-stanza] ends the loop with the
    malformed-stanza error, which [Wrap] returns.  When [done] ends the
    loop, [Wrap] returns the collected stanzas in the order received if
    there is one, and an error if there is none: it never returns the empty
    list. *)
Theorem Wrap_collects_recipient_stanzas
  (exec_Start : string -> string -> result process)
  (r : Recipient.t) (fileKey : bytes) (p : process)
  (pre : list Stanza) (args : list string) (body : option bytes)
  (rest sr : list (result Stanza)) (stanzas : list Stanza) (conn : clientConnection) :
  let s := mkStanza "recipient-stanza" args body in
  let started :=
    exec_Start ("age-plugin-" +:+ Recipient.name r) "--age-plugin=recipient-v1" = Ok p
    /\ Forall (fun o => o = None) (stdin p)
    /\ Forall Wrap_continues pre in
  (recipient_stanza_ok s ->
   Recipient.Wrap_ReadLoop r (Ok s :: sr) stanzas =
   (Marshal (mkStanza "ok" [] None)
    >> Recipient.Wrap_ReadLoop r sr
         (stanzas ++ [mkStanza (nth 1 args EmptyString) (drop 2 args) body])))
  /\ (~ recipient_stanza_ok s ->
      Recipient.Wrap_ReadLoop r (Ok s :: sr) stanzas conn =
      (Err (Errorf "received malformed recipient stanza"), conn))
  /\ (started -> stdout p = map Ok pre ++ Ok s :: rest -> ~ recipient_stanza_ok s ->
      fst (Recipient.Wrap exec_Start r fileKey) =
      Err (PluginError (Recipient.name r) (Errorf "received malformed recipient stanza")))
  /\ (started -> forall done, Type_ done = "done" ->
      stdout p = map Ok pre ++ Ok done :: rest ->
      fst (Recipient.Wrap exec_Start r fileKey) =
      match collect_all pre with
      | [] => Err (PluginError (Recipient.name r) (Errorf "received zero recipient stanzas"))
      | collected => Ok collected
      end)
  /\ fst (Recipient.Wrap exec_Start r fileKey) <> Ok [].
Proof.
  intros s started.
  split; [apply Wrap_ReadLoop_accepts|].
  split; [apply Wrap_ReadLoop_rejects|].
  assert (Hrun : started -> forall last,
            stdout p = map Ok pre ++ Ok last :: rest ->
            exists conn',
              fst (Recipient.Wrap exec_Start r fileKey) =
              prefix_error (Recipient.name r)
                (fst ((let* stanzas :=
                         Recipient.Wrap_ReadLoop r (Ok last :: rest) (collect_all pre) in
                       if (length stanzas =? 0)%nat
                       then fail (Errorf "received zero recipient stanzas")
                       else ret stanzas) conn'))).
  { intros (Hstart & Hin & Hpre) last Hout.
    rewrite (Wrap_started _ _ _ _ Hstart).
    destruct (Wrap_session_phase1 r fileKey (mkConn (stdout p) (stdin p) []) Hin)
      as (c1 & Hw1 & E1).
    rewrite E1. cbn [Reader]. rewrite Hout.
    destruct (Wrap_ReadLoop_prefix r pre (Ok last :: rest) [] c1 Hpre Hw1)
      as (c2 & Hw2 & E2).
    exists c2. unfold bind at 1. rewrite E2. reflexivity. }
  split; [|split].
  - intros Hs Hout Hbad. destruct (Hrun Hs s Hout) as (c & E). rewrite E.
    unfold bind, s in *.
    now rewrite (Wrap_ReadLoop_rejects r args body rest (collect_all pre) c Hbad).
  - intros Hs done Hdone Hout. destruct (Hrun Hs done Hout) as (c & E). rewrite E.
    unfold bind. cbn [Recipient.Wrap_ReadLoop]. rewrite Hdone.
    cbn. now destruct (collect_all pre).
  - unfold Recipient.Wrap.
    destruct (openClientConnection _ _ _) as [c|e]; [|discriminate].
    pose proof (Wrap_session_never_empty r fileKey c) as H.
    destruct (Recipient.Wrap_session r fileKey c) as [[l|e] c']; cbn in *;
      [exact H | discriminate].
Qed.

(** *** The loop of [Unwrap] *)

Lemma file_key_ok_dec s : file_key_ok s \/ ~ file_key_ok s.
Proof.
  unfold file_key_ok.
  destruct (Nat.eq_dec (length (Args s)) 1) as [Hl|Hl]; [|right; tauto].
  destruct (Atoi (nth 0 (Args s) EmptyString)) as [n|]; [|right; intros [_ H]; discriminate].
  destruct (Z.eq_dec n 0%Z) as [->|Hn]; [now left|].
  right. intros [_ H]. congruence.
Qed.

(** The first well-formed [file-key] stanza gives the file key, and is
    answered [ok]. *)
Lemma Unwrap_ReadLoop_accepts i args body sr :
  let s := mkStanza "file-key" args body in
  file_key_ok s ->
  Identity.Unwrap_ReadLoop i (Ok s :: sr) None =
  (Marshal (mkStanza "ok" [] None) >> Identity.Unwrap_ReadLoop i sr body).
Proof.
  intros s H. apply file_key_checks in H as [Hlen Hn].
  cbn [Identity.Unwrap_ReadLoop Type_ s String.eqb Ascii.eqb Bool.eqb orb].
  cbn [Args s] in *. rewrite Hlen, Hn. reflexivity.
Qed.

Lemma Unwrap_ReadLoop_malformed i args body sr fileKey conn :
  let s := mkStanza "file-key" args body in
  ~ file_key_ok s ->
  Identity.Unwrap_ReadLoop i (Ok s :: sr) fileKey conn =
  (Err (Errorf "received malformed file-key stanza"), conn).
Proof.
  intros s H. apply file_key_checks in H.
  cbn [Identity.Unwrap_ReadLoop Type_ s String.eqb Ascii.eqb Bool.eqb orb].
  cbn [Args s] in *.
  destruct H as [H|[H|(n & H & Hn)]]; rewrite H; try reflexivity.
  - destruct (length args =? 1)%nat; reflexivity.
  - destruct (length args =? 1)%nat; [|reflexivity]. now rewrite Hn.
Qed.

(** With a file key at hand, one more is an error. *)
Lemma Unwrap_ReadLoop_duplicate i args body sr key conn :
  let s := mkStanza "file-key" args body in
  file_key_ok s ->
  Identity.Unwrap_ReadLoop i (Ok s :: sr) (Some key) conn =
  (Err (Errorf "received duplicated file-key stanza"), conn).
Proof.
  intros s H. apply file_key_checks in H as [Hlen Hn].
  cbn [Identity.Unwrap_ReadLoop Type_ s String.eqb Ascii.eqb Bool.eqb orb].
  cbn [Args s] in *. rewrite Hlen, Hn. reflexivity.
Qed.

Lemma Unwrap_ReadLoop_continues i s sr fileKey conn :
  Unwrap_continues s -> writable conn ->
  exists conn',
    writable conn'
    /\ Identity.Unwrap_ReadLoop i (Ok s :: sr) fileKey conn =
       Identity.Unwrap_ReadLoop i sr fileKey conn'.
Proof.
  intros (Herr & Hdone & Hkey) Hw.
  cbn [Identity.Unwrap_ReadLoop].
  rewrite (eqb_neq_false _ _ Hkey), (eqb_neq_false _ _ Herr), (eqb_neq_false _ _ Hdone).
  destruct (String.eqb (Type_ s) "msg").
  { destruct (Identity.DisplayMessage i) as [d|]; [destruct (d _)|];
      now apply bind_Marshal_writable. }
  destruct (String.eqb (Type_ s) "request-secret" || String.eqb (Type_ s) "request-public").
  { destruct (Identity.RequestValue i) as [q|]; [destruct (q _ _)|];
      now apply bind_Marshal_writable. }
  now apply bind_Marshal_writable.
Qed.

Lemma Unwrap_ReadLoop_prefix i pre : forall sr fileKey conn,
  Forall Unwrap_continues pre -> writable conn ->
  exists conn',
    writable conn'
    /\ Identity.Unwrap_ReadLoop i (map Ok pre ++ sr) fileKey conn =
       Identity.Unwrap_ReadLoop i sr fileKey conn'.
Proof.
  induction pre as [|s pre IH]; intros sr fileKey conn Hpre Hw.
  - now exists conn.
  - inversion Hpre as [|? ? Hs Hpre']; subst.
    destruct (Unwrap_ReadLoop_continues i s (map Ok pre ++ sr) fileKey conn Hs Hw)
      as (conn1 & Hw1 & E1).
    destruct (IH sr fileKey conn1 Hpre' Hw1) as (conn2 & Hw2 & E2).
    exists conn2. split; [exact Hw2|]. cbn [map app]. now rewrite E1, E2.
Qed.

Lemma send_stanzas_writable stanzas : forall conn,
  writable conn ->
  exists conn',
    Identity.send_stanzas stanzas conn = (Ok tt, conn')
    /\ writable conn' /\ Reader conn' = Reader conn.
Proof.
  induction stanzas as [|rs stanzas IH]; intros conn Hw.
  - now exists conn.
  - cbn [Identity.send_stanzas]. unfold bind.
    destruct (Marshal_writable
                (mkStanza "recipient-stanza" ("0" :: Type_ rs :: Args rs) (Body rs))
                conn Hw) as (c1 & E1 & Hw1 & R1).
    rewrite E1. destruct (IH c1 Hw1) as (c2 & E2 & Hw2 & R2).
    exists c2. now rewrite E2, R2, R1.
Qed.

(** Phase 1 of [Unwrap], when the writes succeed. *)
Lemma Unwrap_session_phase1 i stanzas conn :
  writable conn ->
  exists conn',
    writable conn'
    /\ Identity.Unwrap_session i stanzas conn =
       (let* fileKey := Identity.Unwrap_ReadLoop i (Reader conn) None in
        match fileKey with
        | None => fail ErrIncorrectIdentity
        | Some key => ret key
        end) conn'.
Proof.
  intros Hw. unfold Identity.Unwrap_session, bind at 1 2 3 4.
  destruct (Marshal_writable (mkStanza "add-identity" [Identity.encoding i] None) conn Hw)
    as (c1 & E1 & Hw1 & R1).
  rewrite E1.
  destruct (send_stanzas_writable stanzas c1 Hw1) as (c2 & E2 & Hw2 & R2).
  rewrite E2.
  destruct (Marshal_writable (mkStanza "done" [] None) c2 Hw2) as (c3 & E3 & Hw3 & R3).
  rewrite E3. unfold NewStanzaReader.
  exists c3. split; [exact Hw3|]. now rewrite R3, R2, R1.
Qed.

Lemma Unwrap_started exec_Start i stanzas p :
  exec_Start ("age-plugin-" +:+ Identity.name i) "--age-plugin=identity-v1" = Ok p ->
  fst (Identity.Unwrap exec_Start i stanzas) =
  prefix_error (Identity.name i)
    (fst (Identity.Unwrap_session i stanzas (mkConn (stdout p) (stdin p) []))).
Proof.
  intros E. unfold Identity.Unwrap, openClientConnection.
  change ("--age-plugin=" +:+ "identity-v1") with "--age-plugin=identity-v1".
  rewrite E. now destruct (Identity.Unwrap_session _ _ _).
Qed.

(** What [Unwrap] does with [file-key] stanzas.  In its loop, a
    [file-key] stanza whose arguments are
    one token that parses as 0 (the token [0] does) is accepted when no file
    key is at hand yet: its body becomes the file key and [ok] is written
    back.  A [file-key] stanza with other arguments ends the loop with the
    malformed-stanza error, and one that comes when a file key is at hand
    with the duplicate error; [Unwrap] returns these errors.  When [done]
    ends the loop, [Unwrap] returns the file key if one was accepted, and
    the incorrect-identity error if no [file-key] stanza came. *)
Theorem Unwrap_accepts_one_file_key
  (exec_Start : string -> string -> result process)
  (i : Identity.t) (stanzas : list Stanza) (p : process)
  (pre pre2 : list Stanza) (args args2 : list string) (body body2 fileKey : option bytes)
  (key : bytes) (rest sr : list (result Stanza)) (conn : clientConnection) :
  let s := mkStanza "file-key" args body in
  let s2 := mkStanza "file-key" args2 body2 in
  let started :=
    exec_Start ("age-plugin-" +:+ Identity.name i) "--age-plugin=identity-v1" = Ok p
    /\ Forall (fun o => o = None) (stdin p)
    /\ Forall Unwrap_continues pre /\ Forall Unwrap_continues pre2 in
  let returns res := fst (Identity.Unwrap exec_Start i stanzas) = res in
  let failure e := Err (PluginError (Identity.name i) e) in
  file_key_ok (mkStanza "file-key" ["0"] body)
  /\ (file_key_ok s ->
      Identity.Unwrap_ReadLoop i (Ok s :: sr) None =
      (Marshal (mkStanza "ok" [] None) >> Identity.Unwrap_ReadLoop i sr body))
  /\ (~ file_key_ok s ->
      Identity.Unwrap_ReadLoop i (Ok s :: sr) fileKey conn =
      (Err (Errorf "received malformed file-key stanza"), conn))
  /\ (file_key_ok s ->
      Identity.Unwrap_ReadLoop i (Ok s :: sr) (Some key) conn =
      (Err (Errorf "received duplicated file-key stanza"), conn))
  /\ (started -> stdout p = map Ok pre ++ Ok s :: rest -> ~ file_key_ok s ->
      returns (failure (Errorf "received malformed file-key stanza")))
  /\ (started -> file_key_ok s -> body = Some key ->
      forall done, Type_ done = "done" ->
      stdout p = map Ok pre ++ Ok s :: map Ok pre2 ++ Ok done :: rest ->
      returns (Ok key))
  /\ (started -> file_key_ok s -> body = Some key ->
      stdout p = map Ok pre ++ Ok s :: map Ok pre2 ++ Ok s2 :: rest ->
      (file_key_ok s2 /\ returns (failure (Errorf "received duplicated file-key stanza")))
      \/ (~ file_key_ok s2 /\ returns (failure (Errorf "received malformed file-key stanza"))))
  /\ (started -> forall done, Type_ done = "done" ->
      stdout p = map Ok pre ++ Ok done :: rest ->
      returns (failure ErrIncorrectIdentity)).
Proof.
  intros s s2 started returns failure.
  split; [split; reflexivity|].
  split; [apply Unwrap_ReadLoop_accepts|].
  split; [apply Unwrap_ReadLoop_malformed|].
  split; [apply Unwrap_ReadLoop_duplicate|].
  assert (Hrun : started -> forall last sr',
            stdout p = map Ok pre ++ Ok last :: sr' ->
            exists conn',
              writable conn'
              /\ fst (Identity.Unwrap exec_Start i stanzas) =
                 prefix_error (Identity.name i)
                   (fst ((let* fileKey :=
                            Identity.Unwrap_ReadLoop i (Ok last :: sr') None in
                          match fileKey with
                          | None => fail ErrIncorrectIdentity
                          | Some key => ret key
                          end) conn'))).
  { intros (Hstart & Hin & Hpre & _) last sr' Hout.
    rewrite (Unwrap_started _ _ _ _ Hstart).
    destruct (Unwrap_session_phase1 i stanzas (mkConn (stdout p) (stdin p) []) Hin)
      as (c1 & Hw1 & E1).
    rewrite E1. cbn [Reader]. rewrite Hout.
    destruct (Unwrap_ReadLoop_prefix i pre (Ok last :: sr') None c1 Hpre Hw1)
      as (c2 & Hw2 & E2).
    exists c2. split; [exact Hw2|]. unfold bind at 1. rewrite E2. reflexivity. }
  assert (Hkey : started -> file_key_ok s -> body = Some key -> forall last sr',
            stdout p = map Ok pre ++ Ok s :: map Ok pre2 ++ Ok last :: sr' ->
            exists conn',
              fst (Identity.Unwrap exec_Start i stanzas) =
              prefix_error (Identity.name i)
                (fst ((let* fileKey :=
                         Identity.Unwrap_ReadLoop i (Ok last :: sr') (Some key) in
                       match fileKey with
                       | None => fail ErrIncorrectIdentity
                       | Some key => ret key
                       end) conn'))).
  { intros Hs Hok Hbody last sr' Hout.
    destruct (Hrun Hs s _ Hout) as (c & Hw & E). rewrite E.
    destruct Hs as (_ & _ & _ & Hpre2). unfold s in *.
    rewrite (Unwrap_ReadLoop_accepts i args body _ Hok), Hbody.
    destruct (bind_Marshal_writable (mkStanza "ok" [] None)
                (Identity.Unwrap_ReadLoop i (map Ok pre2 ++ Ok last :: sr') (Some key))
                c Hw) as (c1 & Hw1 & E1).
    destruct (Unwrap_ReadLoop_prefix i pre2 (Ok last :: sr') (Some key) c1 Hpre2 Hw1)
      as (c2 & Hw2 & E2).
    exists c2. unfold bind at 1. rewrite E1, E2. reflexivity. }
  unfold returns, failure.
  split; [|split; [|split]].
  - intros Hs Hout Hbad. destruct (Hrun Hs s _ Hout) as (c & _ & E). rewrite E.
    unfold bind, s in *.
    now rewrite (Unwrap_ReadLoop_malformed i args body rest None c Hbad).
  - intros Hs Hok Hbody done Hdone Hout.
    destruct (Hkey Hs Hok Hbody done rest Hout) as (c & E). rewrite E.
    unfold bind. cbn [Identity.Unwrap_ReadLoop]. now rewrite Hdone.
  - intros Hs Hok Hbody Hout.
    destruct (Hkey Hs Hok Hbody s2 rest Hout) as (c & E). rewrite E.
    unfold bind, s2 in *.
    destruct (file_key_ok_dec (mkStanza "file-key" args2 body2)) as [Hok2|Hbad2].
    + left. split; [exact Hok2|].
      now rewrite (Unwrap_ReadLoop_duplicate i args2 body2 rest key c Hok2).
    + right. split; [exact Hbad2|].
      now rewrite (Unwrap_ReadLoop_malformed i args2 body2 rest (Some key) c Hbad2).
  - intros Hs done Hdone Hout. destruct (Hrun Hs done _ Hout) as (c & _ & E). rewrite E.
    unfold bind. cbn [Identity.Unwrap_ReadLoop]. now rewrite Hdone.
Qed.

(** *** The connection is closed on every path *)

Lemma writes_only_ret {A} (a : A) : writes_only (ret a).
Proof. intros conn. exists []. cbn. now rewrite app_nil_r. Qed.

Lemma writes_only_fail {A} e : writes_only (@fail A e).
Proof. intros conn. exists []. cbn. now rewrite app_nil_r. Qed.

Lemma writes_only_NewStanzaReader : writes_only NewStanzaReader.
Proof. intros conn. exists []. cbn. now rewrite app_nil_r. Qed.

Lemma writes_only_Marshal s : writes_only (Marshal s).
Proof.
  intros conn. unfold Marshal. destruct (Writer conn) as [|[e|] w]; cbn.
  - now exists [s].
  - exists []. cbn. now rewrite app_nil_r.
  - now exists [s].
Qed.

Lemma writes_only_bind {A B} (m : M A) (k : A -> M B) :
  writes_only m -> (forall a, writes_only (k a)) -> writes_only (bind m k).
Proof.
  intros Hm Hk conn. unfold bind.
  destruct (Hm conn) as [ws1 H1]. destruct (m conn) as [[a|e] conn1]; cbn in H1.
  - destruct (Hk a conn1) as [ws2 H2]. exists (ws1 ++ ws2).
    now rewrite H2, H1, map_app, app_assoc.
  - now exists ws1.
Qed.

Create HintDb writes.

#[local] Hint Resolve writes_only_ret writes_only_fail writes_only_Marshal
  writes_only_NewStanzaReader : writes.

Ltac writes_only_cases :=
  repeat match goal with
         | |- writes_only (bind _ _) => apply writes_only_bind; [|intros]
         | |- writes_only (if ?b then _ else _) => destruct b
         | |- writes_only (match ?x with _ => _ end) => destruct x
         end;
  auto with writes.

Lemma writes_only_Wrap_ReadLoop r sr : forall stanzas,
  writes_only (Recipient.Wrap_ReadLoop r sr stanzas).
Proof.
  induction sr as [|[s|e] sr IH]; intros stanzas; cbn [Recipient.Wrap_ReadLoop];
    writes_only_cases.
Qed.

Lemma writes_only_Wrap_session r fileKey :
  writes_only (Recipient.Wrap_session r fileKey).
Proof.
  unfold Recipient.Wrap_session.
  do 4 (apply writes_only_bind; [solve [auto with writes]|intros]).
  apply writes_only_bind; [apply writes_only_Wrap_ReadLoop|intros].
  writes_only_cases.
Qed.

Lemma writes_only_send_stanzas stanzas : writes_only (Identity.send_stanzas stanzas).
Proof. induction stanzas; cbn [Identity.send_stanzas]; writes_only_cases. Qed.

Lemma writes_only_Unwrap_ReadLoop i sr : forall fileKey,
  writes_only (Identity.Unwrap_ReadLoop i sr fileKey).
Proof.
  induction sr as [|[s|e] sr IH]; intros fileKey; cbn [Identity.Unwrap_ReadLoop];
    writes_only_cases.
Qed.

Lemma writes_only_Unwrap_session i stanzas :
  writes_only (Identity.Unwrap_session i stanzas).
Proof.
  unfold Identity.Unwrap_session.
  apply writes_only_bind; [auto with writes|intros].
  apply writes_only_bind; [apply writes_only_send_stanzas|intros].
  apply writes_only_bind; [auto with writes|intros].
  apply writes_only_bind; [auto with writes|intros].
  apply writes_only_bind; [apply writes_only_Unwrap_ReadLoop|intros].
  writes_only_cases.
Qed.

(** C8.  Whatever the plugin does and whatever [Wrap] and [Unwrap]
    return, a value or an error, a process that was started is left with
    its stdin and stdout closed, interrupted and waited for, in this order
    and as the last things done to it. *)
Theorem connection_closed_on_every_path
  (exec_Start : string -> string -> result process)
  (r : Recipient.t) (fileKey : bytes) (i : Identity.t) (stanzas : list Stanza) :
  left_closed (openClientConnection exec_Start (Recipient.name r) "recipient-v1")
              (Recipient.name r) (Recipient.Wrap exec_Start r fileKey)
  /\ left_closed (openClientConnection exec_Start (Identity.name i) "identity-v1")
                 (Identity.name i) (Identity.Unwrap exec_Start i stanzas).
Proof.
  split.
  - unfold Recipient.Wrap.
    destruct (openClientConnection _ _ _) as [conn0|e] eqn:Hopen; cbn.
    + pose proof (writes_only_Wrap_session r fileKey conn0) as [ws Hws].
      destruct (Recipient.Wrap_session r fileKey conn0) as [res conn]. cbn in *.
      exists conn0, ws. split; [reflexivity|].
      rewrite Hws. unfold openClientConnection in Hopen.
      destruct (exec_Start _ _); [|discriminate]. now injection Hopen as <-.
    + now exists e.
  - unfold Identity.Unwrap.
    destruct (openClientConnection _ _ _) as [conn0|e] eqn:Hopen; cbn.
    + pose proof (writes_only_Unwrap_session i stanzas conn0) as [ws Hws].
      destruct (Identity.Unwrap_session i stanzas conn0) as [res conn]. cbn in *.
      exists conn0, ws. split; [reflexivity|].
      rewrite Hws. unfold openClientConnection in Hopen.
      destruct (exec_Start _ _); [|discriminate]. now injection Hopen as <-.
    + now exists e.
Qed.

(** *** Sessions with a plugin named [test] *)

Example Atoi_examples :
  Atoi "0" = Some 0%Z /\ Atoi "00" = Some 0%Z /\ Atoi "+0" = Some 0%Z
  /\ Atoi "-0" = Some 0%Z /\ Atoi "1" = Some 1%Z /\ Atoi "-12" = Some (-12)%Z
  /\ Atoi EmptyString = None /\ Atoi "+" = None /\ Atoi "0x0" = None /\ Atoi "0 " = None
  /\ Atoi "9223372036854775807" = Some 9223372036854775807%Z
  /\ Atoi "9223372036854775808" = None.
Proof. repeat split. Qed.

Ltac continues :=
  repeat constructor; try discriminate; intros; try discriminate.

Lemma Wrap_collects_recipient_stanzas_witness :
  fst (Recipient.Wrap (one_plugin "recipient-v1" wrapping) test_recipient
         TestKit.TestFileKey) =
  Ok [mkStanza "test" ["arg"] (Some (bytes_of "wrapped"))].
Proof.
  destruct (Wrap_collects_recipient_stanzas
              (one_plugin "recipient-v1" wrapping) test_recipient TestKit.TestFileKey
              wrapping
              [msg_stanza;
               mkStanza "recipient-stanza" ["0"; "test"; "arg"] (Some (bytes_of "wrapped"))]
              [] None [] [] [] (mkConn [] [] []))
    as (_ & _ & _ & H & _).
  apply (H ltac:(split; [reflexivity | split; [constructor | continues]])
           done_stanza eq_refl eq_refl).
Defined.

Lemma Unwrap_accepts_one_file_key_witness :
  fst (Identity.Unwrap (one_plugin "identity-v1" unwrapping) test_identity []) =
  Ok TestKit.TestFileKey.
Proof.
  destruct (Unwrap_accepts_one_file_key
              (one_plugin "identity-v1" unwrapping) test_identity [] unwrapping
              [msg_stanza] [] ["0"] [] (Some TestKit.TestFileKey) None None
              TestKit.TestFileKey [] [] (mkConn [] [] []))
    as (Hok & _ & _ & _ & _ & H & _).
  apply (H ltac:(split; [reflexivity | split; [constructor | split; continues]])
           Hok eq_refl done_stanza eq_refl eq_refl).
Defined.

(** What is done to the plugin in the session of [wrapping]. *)
Example Wrap_session_log :
  option_map log (snd (Recipient.Wrap (one_plugin "recipient-v1" wrapping) test_recipient
                         TestKit.TestFileKey)) =
  Some [Wrote (mkStanza "add-recipient" ["age1test1qqqq"] None);
        Wrote (mkStanza "wrap-file-key" [] (Some TestKit.TestFileKey));
        Wrote (mkStanza "done" [] None);
        Wrote (mkStanza "ok" [] None);
        Wrote (mkStanza "ok" [] None);
        ClosedStdin; ClosedStdout; Interrupted; Waited].
Proof. reflexivity. Qed.

(** A plugin that is done at once: [Wrap] returns an error, and the
    process is closed all the same. *)
Example Wrap_zero_stanzas :
  Recipient.Wrap (one_plugin "recipient-v1" (mkProcess [Ok done_stanza] []))
                 test_recipient TestKit.TestFileKey =
  (Err (PluginError "test" (Errorf "received zero recipient stanzas")),
   Some (mkConn [Ok done_stanza] []
           [Wrote (mkStanza "add-recipient" ["age1test1qqqq"] None);
            Wrote (mkStanza "wrap-file-key" [] (Some TestKit.TestFileKey));
            Wrote (mkStanza "done" [] None);
            ClosedStdin; ClosedStdout; Interrupted; Waited])).
Proof. reflexivity. Qed.

(** No plugin of that name: there is no process to close. *)
Example Wrap_no_plugin :
  Recipient.Wrap (fun _ _ => Err (IOError "executable file not found"))
                 test_recipient TestKit.TestFileKey =
  (Err (PluginError "test" (StartError (IOError "executable file not found"))), None).
Proof. reflexivity. Qed.

(** C3, at a session in which the plugin gives two [file-key] stanzas.
    The test for a duplicate is [fileKey != nil]: the first stanza, whose
    body is empty, is accepted and answered [ok], and leaves the nil slice
    as the file key; so the second one is accepted and answered [ok] as
    well, and [Unwrap] returns its body and no error. *)
Theorem Unwrap_accepts_second_file_key :
  fst (Identity.Unwrap (one_plugin "identity-v1" two_file_keys) test_identity []) =
  Ok TestKit.TestFileKey
  /\ option_map log
       (snd (Identity.Unwrap (one_plugin "identity-v1" two_file_keys) test_identity [])) =
     Some [Wrote (mkStanza "add-identity" ["AGE-PLUGIN-TEST-1QQQQ"] None);
           Wrote (mkStanza "done" [] None);
           Wrote (mkStanza "ok" [] None);
           Wrote (mkStanza "ok" [] None);
           ClosedStdin; ClosedStdout; Interrupted; Waited].
Proof. split; reflexivity. Qed.

(** After the stanza with the empty body alone, [Unwrap] answers [done]
    with the error of the identity that does not match. *)
Example Unwrap_empty_file_key :
  fst (Identity.Unwrap (one_plugin "identity-v1" empty_file_key) test_identity []) =
  Err (PluginError "test" ErrIncorrectIdentity).
Proof. reflexivity. Qed.

End PluginProps.

(** ** testkit: the rest of the generator *)

Module GeneratorProps.
Import Go Crypto TestKit.

(** *** [UnreadLine] *)

Lemma bytes_of_LF : bytes_of LF = [x0a].
Proof. reflexivity. Qed.

Lemma HasPrefix_one (s : bytes) (c : byte) :
  HasPrefix s [c] = match s with a :: _ => bool_decide (a = c) | [] => false end.
Proof. destruct s as [|a r]; [reflexivity|]. cbn. now rewrite andb_true_r. Qed.

(** The last instance of one byte: either there is none, or the list
    splits at it. *)
Lemma LastIndex_split (c : byte) (s : bytes) :
  (LastIndex s [c] = (-1)%Z /\ (c ∉ s))
  \/ (exists b t, s = b ++ c :: t /\ (c ∉ t) /\ LastIndex s [c] = Z.of_nat (length b)).
Proof.
  induction s as [|a r IH].
  - left. split; [reflexivity | apply not_elem_of_nil].
  - cbn [LastIndex]. destruct IH as [[E Hn]|(b & t & -> & Ht & E)]; rewrite E.
    + cbn [Z.leb Z.compare]. rewrite HasPrefix_one.
      destruct (bool_decide_reflect (a = c)) as [->|Hne].
      * right. exists [], r. split; [reflexivity|]. split; [exact Hn|reflexivity].
      * left. split; [reflexivity|]. rewrite not_elem_of_cons. split; [congruence|exact Hn].
    + right. exists (a :: b), t.
      destruct (Z.leb_spec 0 (Z.of_nat (length b))) as [_|]; [|lia].
      split; [reflexivity|]. split; [exact Ht|]. cbn [length]. lia.
Qed.

Lemma HasSuffix_one (s : bytes) (c : byte) :
  HasSuffix s [c] = bool_decide (last s = Some c).
Proof.
  unfold HasSuffix. destruct s as [|a r] using rev_ind; [reflexivity|].
  rewrite last_snoc, length_app. cbn [length].
  replace (length r + 1 - 1) with (length r) by lia.
  rewrite drop_app_length.
  destruct (Nat.leb_spec 1 (length r + 1)) as [_|]; [|lia]. cbn [andb].
  apply bool_decide_ext. split; congruence.
Qed.

Lemma TrimSuffix_snoc (b : bytes) (c : byte) : TrimSuffix (b ++ [c]) [c] = b.
Proof.
  unfold TrimSuffix. rewrite HasSuffix_one, last_snoc, bool_decide_eq_true_2 by reflexivity.
  rewrite length_app. cbn [length].
  replace (length b + 1 - 1) with (length b) by lia.
  now rewrite take_app_length.
Qed.

Lemma TrimSuffix_other (s : bytes) (c : byte) : last s <> Some c -> TrimSuffix s [c] = s.
Proof.
  intros H. unfold TrimSuffix. now rewrite HasSuffix_one, bool_decide_eq_false_2.
Qed.

(** The buffer is the trimmed buffer, with the line feed when one was
    trimmed. *)
Lemma TrimSuffix_cases (s : bytes) (c : byte) :
  (s = TrimSuffix s [c] ++ [c]) \/ (s = TrimSuffix s [c] /\ last s <> Some c).
Proof.
  destruct (decide (last s = Some c)) as [E|Hne].
  - left. destruct s as [|a r] using rev_ind; [discriminate|].
    rewrite last_snoc in E. injection E as ->. now rewrite TrimSuffix_snoc.
  - right. now rewrite TrimSuffix_other.
Qed.

Lemma slice_prefix (b : bytes) (n : nat) :
  n <= length b -> slice b 0 (Z.of_nat n) = Some (take n b).
Proof.
  intros H. unfold slice.
  destruct (Z.ltb_spec 0 0); [lia|].
  destruct (Z.ltb_spec (Z.of_nat n) 0); [lia|].
  destruct (Z.ltb_spec (Z.of_nat (length b)) (Z.of_nat n)); [lia|].
  cbn [orb]. rewrite Z.sub_0_r, Nat2Z.id. reflexivity.
Qed.

Lemma slice_suffix (b : bytes) (n : nat) :
  n <= length b -> slice b (Z.of_nat n) (Z.of_nat (length b)) = Some (drop n b).
Proof.
  intros H. unfold slice.
  destruct (Z.ltb_spec (Z.of_nat n) 0); [lia|].
  destruct (Z.ltb_spec (Z.of_nat (length b)) (Z.of_nat n)); [lia|].
  destruct (Z.ltb_spec (Z.of_nat (length b)) (Z.of_nat (length b))); [lia|].
  cbn [orb]. rewrite Nat2Z.id. f_equal.
  rewrite take_ge; [reflexivity|]. rewrite length_drop. lia.
Qed.

(** [UnreadLine] on a buffer that, trimmed, is [init] and one more byte. *)
Lemma UnreadLine_trimmed (f : TestFile) (init : bytes) (a : byte) :
  TrimSuffix (Buf f) [x0a] = init ++ [a] ->
  ((x0a ∉ init) /\ UnreadLine f = Some (string_of_list_byte (init ++ [a]), set_Buf [] f))
  \/ (exists b t, init = b ++ x0a :: t /\ (x0a ∉ t)
        /\ UnreadLine f = Some (string_of_list_byte (t ++ [a]), set_Buf (b ++ [x0a]) f)).
Proof.
  intros E. unfold UnreadLine. rewrite bytes_of_LF, E.
  assert (Hinit : slice (init ++ [a]) 0 (Z.of_nat (length (init ++ [a])) - 1) = Some init).
  { replace (Z.of_nat (length (init ++ [a])) - 1)%Z with (Z.of_nat (length init))
      by (rewrite length_app; cbn [length]; lia).
    rewrite slice_prefix by (rewrite length_app; lia). now rewrite take_app_length. }
  rewrite Hinit. cbn [mbind option_bind].
  destruct (LastIndex_split x0a init) as [[Ei Hn]|(b & t & -> & Ht & Ei)]; rewrite Ei.
  - left. split; [exact Hn|].
    change (-1 + 1)%Z with (Z.of_nat 0).
    rewrite (slice_prefix (init ++ [a]) 0) by lia. cbn [mbind option_bind].
    rewrite (slice_suffix (init ++ [a]) 0) by lia. reflexivity.
  - right. exists b, t. split; [reflexivity|]. split; [exact Ht|].
    replace (Z.of_nat (length b) + 1)%Z with (Z.of_nat (length (b ++ [x0a])))
      by (rewrite length_app; cbn [length]; lia).
    rewrite (slice_prefix _ (length (b ++ [x0a])))
      by (rewrite !length_app; cbn [length]; lia).
    cbn [mbind option_bind].
    rewrite (slice_suffix _ (length (b ++ [x0a])))
      by (rewrite !length_app; cbn [length]; lia).
    cbn [mbind option_bind].
    replace ((b ++ x0a :: t) ++ [a]) with ((b ++ [x0a]) ++ t ++ [a])
      by (now rewrite <- !app_assoc).
    now rewrite take_app_length, drop_app_length.
Qed.

Lemma UnreadLine_empty (f : TestFile) :
  TrimSuffix (Buf f) [x0a] = [] -> UnreadLine f = None.
Proof. intros E. unfold UnreadLine. rewrite bytes_of_LF, E. reflexivity. Qed.

Lemma TrimSuffix_nil (s : bytes) (c : byte) :
  TrimSuffix s [c] = [] <-> s = [] \/ s = [c].
Proof.
  split.
  - intros E. destruct (TrimSuffix_cases s c) as [H|[H _]]; rewrite E in H; auto.
  - intros [->| ->]; [reflexivity|]. apply (TrimSuffix_snoc [] c).
Qed.

Lemma snoc_cases {A} (l : list A) : l = [] \/ exists init a, l = init ++ [a].
Proof. destruct l as [|a r] using rev_ind; [now left | right; eauto]. Qed.

Lemma set_Buf_same (f : TestFile) : set_Buf (Buf f) f = f.
Proof. now destruct f. Qed.

Lemma split_last_unique (c : byte) (b1 : bytes) : forall b2 t1 t2,
  b1 ++ c :: t1 = b2 ++ c :: t2 -> c ∉ t1 -> c ∉ t2 -> b1 = b2 /\ t1 = t2.
Proof.
  induction b1 as [|x b1 IH]; intros [|y b2] t1 t2 E H1 H2; cbn in E.
  - injection E as ->. now split.
  - injection E as -> ->. exfalso. apply H1, elem_of_app. right. constructor.
  - injection E as <- <-. exfalso. apply H2, elem_of_app. right. constructor.
  - injection E as -> E. destruct (IH _ _ _ E H1 H2) as [-> ->]. now split.
Qed.

(** [UnreadLine] faults exactly when there is nothing before the final
    line feed: on the empty buffer and on the buffer that holds one empty
    line. *)
Theorem UnreadLine_faults_iff (f : TestFile) :
  UnreadLine f = None <-> Buf f = [] \/ Buf f = bytes_of LF.
Proof.
  rewrite bytes_of_LF, <- TrimSuffix_nil. split.
  - intros HN. destruct (snoc_cases (TrimSuffix (Buf f) [x0a])) as [E|(init & a & E)];
      [exact E|].
    destruct (UnreadLine_trimmed f init a E) as [[_ H]|(b & t & _ & _ & H)];
      rewrite H in HN; discriminate.
  - apply UnreadLine_empty.
Qed.

(** What [UnreadLine] returns is never empty and has no line feed but,
    possibly, as its last byte; what it leaves in the buffer is empty or
    ends with a line feed; and the buffer was what is left, then the line,
    then the line feed if the buffer ended with one.  No other field
    changes. *)
Theorem UnreadLine_takes_last_line (f f' : TestFile) (line : string) :
  UnreadLine f = Some (line, f') ->
  (Buf f = Buf f' ++ bytes_of line ++ bytes_of LF
   \/ (Buf f = Buf f' ++ bytes_of line /\ last (Buf f) <> Some x0a))
  /\ line <> EmptyString
  /\ (x0a ∉ take (length (bytes_of line) - 1) (bytes_of line))
  /\ (Buf f' = [] \/ last (Buf f') = Some x0a)
  /\ f' = set_Buf (Buf f') f.
Proof.
  intros H.
  destruct (snoc_cases (TrimSuffix (Buf f) [x0a])) as [E|(init & a & E)].
  { rewrite (UnreadLine_empty f E) in H. discriminate. }
  assert (Hshape : exists b t,
             init = b ++ t /\ (x0a ∉ t) /\ (b = [] \/ last b = Some x0a)
             /\ line = string_of_list_byte (t ++ [a]) /\ f' = set_Buf b f).
  { destruct (UnreadLine_trimmed f init a E) as [[Hn H']|(b & t & -> & Ht & H')];
      rewrite H' in H; injection H as <- <-.
    - exists [], init. auto.
    - exists (b ++ [x0a]), t. rewrite <- app_assoc. repeat split; auto.
      right. apply last_snoc. }
  destruct Hshape as (b & t & -> & Ht & Hb & -> & ->).
  rewrite bytes_of_LF. unfold bytes_of. rewrite list_byte_of_string_of_list_byte.
  cbn [Buf set_Buf]. repeat split.
  - destruct (TrimSuffix_cases (Buf f) x0a) as [E'|[E' Hl]]; rewrite E in E'.
    + left. rewrite E'. now rewrite <- !app_assoc.
    + right. split; [|exact Hl]. rewrite E'. now rewrite <- !app_assoc.
  - intros E'. apply (f_equal list_byte_of_string) in E'.
    rewrite list_byte_of_string_of_list_byte in E'. now destruct t.
  - rewrite length_app. cbn [length].
    replace (length t + 1 - 1) with (length t) by lia.
    now rewrite take_app_length.
  - exact Hb.
Qed.

(** A line that was written is unread as it was, provided that it is not
    empty and has no line feed but, possibly, as its last byte, and that
    the buffer before it was empty or ended with a line feed. *)
Lemma UnreadLine_TextLine_gen (s : string) (f : TestFile) :
  s <> EmptyString ->
  x0a ∉ take (length (bytes_of s) - 1) (bytes_of s) ->
  Buf f = [] \/ last (Buf f) = Some x0a ->
  UnreadLine (TextLine s f) = Some (s, f).
Proof.
  intros Hs Hn Hf.
  destruct (snoc_cases (bytes_of s)) as [E|(t & a & E)].
  { exfalso. apply Hs. apply (f_equal string_of_list_byte) in E.
    unfold bytes_of in E. now rewrite string_of_list_byte_of_string in E. }
  rewrite E, length_app in Hn. cbn [length] in Hn.
  replace (length t + 1 - 1) with (length t) in Hn by lia.
  rewrite take_app_length in Hn.
  assert (Es : string_of_list_byte (t ++ [a]) = s).
  { rewrite <- E. apply string_of_list_byte_of_string. }
  assert (Et : TrimSuffix (Buf (TextLine s f)) [x0a] = (Buf f ++ t) ++ [a]).
  { unfold TextLine. cbn [Buf set_Buf]. rewrite bytes_of_LF, TrimSuffix_snoc, E.
    now rewrite app_assoc. }
  destruct (UnreadLine_trimmed _ _ _ Et) as [[Hi H]|(b & t' & Ei & Ht' & H)]; rewrite H.
  - destruct Hf as [Hf|Hf].
    + rewrite TestKitProps.set_Buf_TextLine, Hf. cbn [app].
      rewrite Es, <- Hf, set_Buf_same. reflexivity.
    + exfalso. apply Hi. destruct (snoc_cases (Buf f)) as [E0|(c & x & E0)];
        rewrite E0 in Hf; [discriminate|].
      rewrite last_snoc in Hf. injection Hf as ->. rewrite E0, !elem_of_app. left. right. constructor.
  - destruct Hf as [Hf|Hf].
    + exfalso. rewrite Hf in Ei. cbn in Ei. apply Hn. rewrite Ei. apply elem_of_app. right. constructor.
    + destruct (snoc_cases (Buf f)) as [E0|(c & x & E0)];
        rewrite E0 in Hf; [discriminate|].
      rewrite last_snoc in Hf. injection Hf as ->.
      rewrite E0, <- app_assoc in Ei. cbn [app] in Ei.
      destruct (split_last_unique _ _ _ _ _ Ei Hn Ht') as [<- <-].
      rewrite TestKitProps.set_Buf_TextLine, <- E0, Es. now rewrite set_Buf_same.
Qed.

Lemma not_elem_of_take (x : byte) (n : nat) (l : bytes) : x ∉ l -> x ∉ take n l.
Proof.
  intros Hn Hin. apply Hn. rewrite <- (take_drop n l). apply elem_of_app. now left.
Qed.

Lemma UnreadLine_TextLine_plain (s : string) (f : TestFile) :
  s <> EmptyString ->
  x0a ∉ bytes_of s ->
  Buf f = [] \/ last (Buf f) = Some x0a ->
  UnreadLine (TextLine s f) = Some (s, f).
Proof.
  intros Hs Hn Hf. apply UnreadLine_TextLine_gen; [exact Hs| |exact Hf].
  now apply not_elem_of_take.
Qed.

(** Round trip: [UnreadLine] undoes [TextLine] of a line that is not
    empty and holds no line feed, on a buffer that is empty or ends with a
    line feed; it returns the line and leaves the file as it was. *)
Theorem UnreadLine_undoes_TextLine (s : string) (f : TestFile) :
  s <> EmptyString ->
  x0a ∉ bytes_of s ->
  Buf f = [] \/ last (Buf f) = Some x0a ->
  UnreadLine (TextLine s f) = Some (s, f).
Proof.
  intros Hs Hn Hf. apply UnreadLine_TextLine_gen; [exact Hs| |exact Hf].
  now apply not_elem_of_take.
Qed.

(** An empty last line is not unread on its own: after a line [s] and an
    empty line, [UnreadLine] returns [s] with a line feed at its end, and
    takes both lines off the buffer. *)
Theorem UnreadLine_after_empty_line (s : string) (f : TestFile) :
  s <> EmptyString ->
  x0a ∉ bytes_of s ->
  Buf f = [] \/ last (Buf f) = Some x0a ->
  UnreadLine (TextLine EmptyString (TextLine s f)) = Some (s +:+ LF, f).
Proof.
  intros Hs Hn Hf.
  assert (E : TextLine EmptyString (TextLine s f) = TextLine (s +:+ LF) f).
  { unfold TextLine. cbn [Buf set_Buf]. rewrite TestKitProps.bytes_of_append.
    change (bytes_of EmptyString) with (@nil byte). rewrite app_nil_r.
    unfold set_Buf. cbn. now rewrite <- !app_assoc. }
  rewrite E. apply UnreadLine_TextLine_gen; [|
    |exact Hf].
  - destruct s; [contradiction | discriminate].
  - rewrite TestKitProps.bytes_of_append, bytes_of_LF, length_app. cbn [length].
    replace (length (bytes_of s) + 1 - 1) with (length (bytes_of s)) by lia.
    now rewrite take_app_length.
Qed.

Lemma UnreadLine_takes_last_line_witness :
  UnreadLine (TextLine "-> X25519 abc" header_v1) = Some ("-> X25519 abc", header_v1)
  /\ Buf (TextLine "-> X25519 abc" header_v1) =
     Buf header_v1 ++ bytes_of "-> X25519 abc" ++ bytes_of LF.
Proof.
  assert (H : UnreadLine (TextLine "-> X25519 abc" header_v1) =
              Some ("-> X25519 abc", header_v1)) by reflexivity.
  split; [exact H|].
  destruct (UnreadLine_takes_last_line _ _ _ H) as ([E|[_ E]] & _).
  - exact E.
  - exfalso. apply E. reflexivity.
Defined.

Lemma UnreadLine_undoes_TextLine_witness :
  UnreadLine (TextLine "-> scrypt c2FsdA 10" header_v1) =
  Some ("-> scrypt c2FsdA 10", header_v1).
Proof.
  apply UnreadLine_undoes_TextLine.
  - discriminate.
  - apply (bool_decide_unpack _). vm_compute. exact I.
  - right. reflexivity.
Defined.

Lemma UnreadLine_after_empty_line_witness :
  UnreadLine (TextLine EmptyString (TextLine "AAAA" header_v1)) =
  Some ("AAAA" +:+ LF, header_v1).
Proof.
  apply UnreadLine_after_empty_line.
  - discriminate.
  - apply (bool_decide_unpack _). vm_compute. exact I.
  - right. reflexivity.
Defined.

(** *** [NotCanonicalBase64] *)

Lemma len_snoc (init : string) (c : ascii) :
  (len (init +:+ String c EmptyString) - 1)%Z = Z.of_nat (String.length init).
Proof.
  unfold len. induction init as [|a r IH]; [reflexivity|].
  change (String a r +:+ String c EmptyString) with (String a (r +:+ String c EmptyString)).
  cbn [String.length]. lia.
Qed.

Lemma get_snoc (init : string) (c : ascii) :
  String.get (String.length init) (init +:+ String c EmptyString) = Some c.
Proof. induction init as [|a r IH]; [reflexivity | exact IH]. Qed.

Lemma substring_snoc (init : string) (c : ascii) :
  String.substring 0 (String.length init) (init +:+ String c EmptyString) = init.
Proof.
  induction init as [|a r IH]; [reflexivity|].
  change (String a r +:+ String c EmptyString) with (String a (r +:+ String c EmptyString)).
  cbn [String.length String.substring]. now rewrite IH.
Qed.

Lemma string_snoc_cases (s : string) :
  s = EmptyString \/ exists init c, s = init +:+ String c EmptyString.
Proof.
  induction s as [|a r IH]; [now left|]. right.
  destruct IH as [->|(init & c & ->)].
  - now exists EmptyString, a.
  - now exists (String a init), c.
Qed.

(** The function on a string given with its last character. *)
Lemma NotCanonicalBase64_snoc (init : string) (c : ascii) :
  NotCanonicalBase64 (init +:+ String c EmptyString) =
  match index Base64.alphabet (IndexByte Base64.alphabet c + 1) with
  | Some c' => Some (init +:+ String c' EmptyString)
  | None => None
  end.
Proof.
  rewrite TestKitProps.NotCanonicalBase64_unfold, len_snoc.
  unfold index at 1, slice_to, len.
  destruct (Z.ltb_spec (Z.of_nat (String.length init)) 0) as [|_]; [lia|].
  destruct (Z.ltb_spec (Z.of_nat (String.length (init +:+ String c EmptyString)))
                       (Z.of_nat (String.length init))) as [H|_].
  { pose proof (len_snoc init c) as E. unfold len in E. lia. }
  cbn [orb]. rewrite Nat2Z.id, get_snoc, substring_snoc. reflexivity.
Qed.

(** No character follows itself in the alphabet. *)
Lemma next_in_alphabet_differs (c c' : ascii) :
  index Base64.alphabet (IndexByte Base64.alphabet c + 1) = Some c' -> c' <> c.
Proof.
  destruct c as [[] [] [] [] [] [] [] []]; intros H; vm_compute in H;
    first [discriminate H | injection H as <-; discriminate].
Qed.

Lemma append_snoc_inj (a b : string) (c d : ascii) :
  a +:+ String c EmptyString = b +:+ String d EmptyString -> a = b /\ c = d.
Proof.
  revert b. induction a as [|x a IH]; intros [|y b] E.
  - now injection E as ->.
  - injection E as -> E. now destruct b.
  - injection E as -> E. now destruct a.
  - injection E as -> E. destruct (IH _ E) as [-> ->]. now split.
Qed.

(** When [NotCanonicalBase64] returns, the result is the argument with its
    last character replaced: by the next one of the alphabet, or by ['A']
    when it is not in the alphabet.  The result has the length of the
    argument and is never equal to it. *)
Theorem NotCanonicalBase64_changes_last_character (s r : string) :
  NotCanonicalBase64 s = Some r ->
  (exists init c c',
     s = init +:+ String c EmptyString
     /\ r = init +:+ String c' EmptyString
     /\ c' <> c
     /\ index Base64.alphabet (IndexByte Base64.alphabet c + 1) = Some c')
  /\ String.length r = String.length s
  /\ r <> s.
Proof.
  intros H. destruct (string_snoc_cases s) as [->|(init & c & ->)]; [discriminate H|].
  rewrite NotCanonicalBase64_snoc in H.
  destruct (index Base64.alphabet (IndexByte Base64.alphabet c + 1)) as [c'|] eqn:E;
    [|discriminate H].
  injection H as <-. pose proof (next_in_alphabet_differs _ _ E) as Hne.
  split; [|split].
  - exists init, c, c'. auto.
  - pose proof (len_snoc init c) as E1. pose proof (len_snoc init c') as E2.
    unfold len in E1, E2. lia.
  - intros E'. apply append_snoc_inj in E' as [_ E']. contradiction.
Qed.

Lemma NotCanonicalBase64_changes_last_character_witness :
  NotCanonicalBase64 "QUI" = Some "QUJ" /\ String.length "QUJ" = 3.
Proof.
  assert (H : NotCanonicalBase64 "QUI" = Some "QUJ") by reflexivity.
  split; [exact H|].
  destruct (NotCanonicalBase64_changes_last_character _ _ H) as (_ & E & _).
  exact E.
Defined.

(** Every six-bit value is the index of its character. *)
Lemma IndexByte_encode (v : N) :
  (v < 64)%N -> IndexByte Base64.alphabet (Base64.encode v) = Z.of_N v.
Proof.
  intros H.
  assert (Hall : forallb (fun n => (IndexByte Base64.alphabet (Base64.encode (N.of_nat n))
                                    =? Z.of_N (N.of_nat n))%Z) (seq 0 64) = true)
    by (vm_compute; reflexivity).
  rewrite forallb_forall in Hall.
  specialize (Hall (N.to_nat v)). rewrite N2Nat.id in Hall.
  apply Z.eqb_eq, Hall, in_seq. lia.
Qed.

Lemma index_alphabet_encode (v : N) :
  (v < 64)%N -> index Base64.alphabet (Z.of_N v) = Some (Base64.encode v).
Proof.
  intros H.
  assert (Hall : forallb (fun n => bool_decide (index Base64.alphabet (Z.of_N (N.of_nat n))
                                    = Some (Base64.encode (N.of_nat n)))) (seq 0 64) = true)
    by (vm_compute; reflexivity).
  rewrite forallb_forall in Hall.
  specialize (Hall (N.to_nat v)). rewrite N2Nat.id in Hall.
  eapply bool_decide_eq_true_1, Hall, in_seq. lia.
Qed.

(** On a string that ends with the character of a six-bit value below 63,
    the function puts the character of the next value in its place. *)
Lemma NotCanonicalBase64_encode (init : string) (v : N) :
  (v < 63)%N ->
  NotCanonicalBase64 (init +:+ String (Base64.encode v) EmptyString) =
  Some (init +:+ String (Base64.encode (v + 1)) EmptyString).
Proof.
  intros H. rewrite NotCanonicalBase64_snoc, IndexByte_encode by lia.
  replace (Z.of_N v + 1)%Z with (Z.of_N (v + 1)) by lia.
  now rewrite index_alphabet_encode by lia.
Qed.

Lemma encode_land (v : N) : Base64.encode (N.land v 63) = Base64.encode v.
Proof.
  unfold Base64.encode. rewrite <- N.land_assoc. reflexivity.
Qed.

(** A number whose bits 0 and 1 are zero has no bit in common with 3. *)
Lemma spare_bits (x : N) :
  (forall n, (n < 2)%N -> N.testbit x n = false) -> N.land x 3 = 0%N.
Proof.
  intros H. apply N.bits_inj. intros n. rewrite N.land_spec, N.bits_0.
  destruct (N.lt_ge_cases n 2) as [Hn|Hn].
  - now rewrite H.
  - change 3%N with (N.ones 2). rewrite N.ones_spec_high by lia. apply andb_false_r.
Qed.

Lemma land_63_bound (x : N) : (N.land x 63 < 64)%N.
Proof.
  change 63%N with (N.ones 6). rewrite N.land_ones. apply N.mod_lt. discriminate.
Qed.

Lemma land_spare_bound (v : N) : (v < 64)%N -> N.land v 3 = 0%N -> (v < 63)%N /\ N.lor v 1 = (v + 1)%N.
Proof.
  intros H E.
  assert (Hall : forallb (fun n => implb (N.land (N.of_nat n) 3 =? 0)%N
                            ((N.of_nat n <? 63)%N
                             && (N.lor (N.of_nat n) 1 =? N.of_nat n + 1)%N)) (seq 0 64) = true)
    by (vm_compute; reflexivity).
  rewrite forallb_forall in Hall.
  specialize (Hall (N.to_nat v)). rewrite N2Nat.id in Hall.
  assert (Hin : In (N.to_nat v) (seq 0 64)) by (apply in_seq; lia).
  apply Hall in Hin. rewrite E in Hin. cbn [N.eqb implb] in Hin.
  apply andb_true_iff in Hin as [H1 H2].
  split; [now apply N.ltb_lt | now apply N.eqb_eq].
Qed.

(** The last character of the encoding of a byte string whose length is
    not a multiple of 3, as a six-bit value with two spare bits. *)
Lemma b64_last_spare (x : bytes) :
  length x mod 3 <> 0 ->
  exists init v,
    b64 x = init +:+ String (Base64.encode v) EmptyString
    /\ (v < 64)%N /\ N.land v 3 = 0%N.
Proof.
  unfold b64. induction x as [|a|a b|a b c rest IH] using Base64Props.triples_ind;
    intros Hlen.
  - now contradiction Hlen.
  - cbn [Base64.EncodeToString].
    eexists (String _ EmptyString), (N.land (N.shiftr (N.shiftl (Byte.to_N a) 16) 12) 63).
    rewrite encode_land. split; [reflexivity|]. split; [apply land_63_bound|].
    apply spare_bits. intros n Hn.
    rewrite N.land_spec, N.shiftr_spec', N.shiftl_spec_low by lia. reflexivity.
  - cbn [Base64.EncodeToString].
    eexists (String _ (String _ EmptyString)),
            (N.land (N.shiftr (N.lor (N.shiftl (Byte.to_N a) 16)
                                     (N.shiftl (Byte.to_N b) 8)) 6) 63).
    rewrite encode_land. split; [reflexivity|]. split; [apply land_63_bound|].
    apply spare_bits. intros n Hn.
    rewrite N.land_spec, N.shiftr_spec', N.lor_spec, !N.shiftl_spec_low by lia.
    reflexivity.
  - cbn [Base64.EncodeToString].
    destruct IH as (init & v & -> & Hv & Hs).
    { cbn [length] in Hlen.
      replace (S (S (S (length rest)))) with (length rest + 1 * 3) in Hlen by lia.
      now rewrite Nat.Div0.mod_add in Hlen. }
    eexists (String _ (String _ (String _ (String _ init)))), v.
    split; [reflexivity|]. now split.
Qed.

(** On the encoding of a byte string whose length is not a multiple of 3,
    [NotCanonicalBase64] returns: the six-bit value of the last character
    has its two lowest bits zero, and the result has the lowest bit set,
    all other characters and bits being the same. *)
Theorem NotCanonicalBase64_sets_spare_bit (x : bytes) :
  length x mod 3 <> 0 ->
  exists init v,
    b64 x = init +:+ String (Base64.encode v) EmptyString
    /\ (v < 64)%N /\ N.land v 3 = 0%N
    /\ NotCanonicalBase64 (b64 x) =
       Some (init +:+ String (Base64.encode (N.lor v 1)) EmptyString).
Proof.
  intros Hlen. destruct (b64_last_spare x Hlen) as (init & v & E & Hv & Hs).
  exists init, v. rewrite E. repeat split; [exact Hv|exact Hs|].
  destruct (land_spare_bound v Hv Hs) as [H63 ->].
  now apply NotCanonicalBase64_encode.
Qed.

Lemma NotCanonicalBase64_sets_spare_bit_witness :
  b64 TestFileKey = "WUVMTE9XIFNVQk1BUklORQ"
  /\ NotCanonicalBase64 (b64 TestFileKey) = Some "WUVMTE9XIFNVQk1BUklORR".
Proof.
  destruct (NotCanonicalBase64_sets_spare_bit TestFileKey) as (init & v & _ & _ & _ & _).
  - vm_compute. discriminate.
  - split; reflexivity.
Defined.

(** *** The payload *)

Section Payload.

Context {P : Primitives}.

Lemma New_None (key : bytes) :
  chacha20poly1305_New key = None <-> length key <> 32.
Proof.
  unfold chacha20poly1305_New. destruct (Nat.eqb_spec (length key) 32) as [E|E].
  - split; [discriminate | contradiction].
  - split; [now intros _ | reflexivity].
Qed.

Lemma streamKey_Nonce (n : bytes) (f : TestFile) : length (streamKey (Nonce n f)) = 32.
Proof. unfold Nonce. cbn [streamKey set_Buf set_streamKey]. apply TestKitProps.Read_length. Qed.

(** [PayloadChunk] and [PayloadChunkFinal] fault exactly when the stream
    key is not 32 bytes long, as it is in a file on which [Nonce] was
    never called: the AEAD is nil then.  After [Nonce] they return. *)
Theorem PayloadChunk_needs_stream_key (plaintext nonce16 : bytes) (f : TestFile) :
  (PayloadChunk plaintext f = None <-> length (streamKey f) <> 32)
  /\ (PayloadChunkFinal plaintext f = None <-> length (streamKey f) <> 32)
  /\ PayloadChunk plaintext NewTestFile = None
  /\ PayloadChunkFinal plaintext NewTestFile = None
  /\ is_Some (PayloadChunk plaintext (Nonce nonce16 f))
  /\ is_Some (PayloadChunkFinal plaintext (Nonce nonce16 f)).
Proof.
  assert (H1 : forall g, PayloadChunk plaintext g = None <-> length (streamKey g) <> 32).
  { intros g. rewrite <- New_None. unfold PayloadChunk. cbn [streamKey set_payload].
    destruct (chacha20poly1305_New (streamKey g)); cbn; split; congruence. }
  assert (H2 : forall g, PayloadChunkFinal plaintext g = None <-> length (streamKey g) <> 32).
  { intros g. rewrite <- New_None. unfold PayloadChunkFinal.
    cbn [streamKey set_payload set_nonce].
    destruct (chacha20poly1305_New (streamKey g)); cbn; split; congruence. }
  split; [apply H1|]. split; [apply H2|].
  split; [apply H1; cbn; lia|]. split; [apply H2; cbn; lia|].
  pose proof (streamKey_Nonce nonce16 f) as Hk.
  split; apply not_eq_None_Some; [rewrite H1 | rewrite H2]; intros Hne; now apply Hne.
Qed.

(** [Payload] always returns: it takes the next 16 bytes of [Rand] as the
    nonce of the stream, writes them, derives the stream key from them, and
    writes the one chunk, sealed with the nonce of the file whose last byte
    is set to 1, which is the counter 0 with the flag of the last chunk when
    the nonce of the file was zero. *)
Theorem Payload_writes_nonce_and_final_chunk (plaintext : string) (f : TestFile) :
  let nonce16 := map (Rand f) (seq 0 16) in
  let key := Read (hkdf_sha256 (fileKey f) nonce16 (bytes_of "payload") 32) (make 32) in
  exists f',
    Payload plaintext f = Some f'
    /\ Buf f' = Buf f ++ nonce16
                ++ chacha20poly1305_Seal key (<[11:=x01]> (nonce f)) (bytes_of plaintext) []
    /\ length nonce16 = 16 /\ length key = 32
    /\ streamKey f' = key
    /\ payload f' = payload f ++ bytes_of plaintext
    /\ nonce f' = <[11:=x01]> (nonce f)
    /\ (forall i, Rand f' i = Rand f (16 + i))
    /\ (nonce f = repeat x00 12 -> nonce f' = chunk_nonce 0 x01).
Proof.
  intros nonce16 key.
  assert (Hk : length key = 32) by apply TestKitProps.Read_length.
  unfold Payload, Rand_call. fold nonce16. unfold PayloadChunkFinal, Nonce.
  cbn [streamKey fileKey set_payload set_nonce set_Buf set_streamKey set_Rand].
  fold key. rewrite (TestKitProps.New_32 _ Hk). cbn [mbind option_bind].
  eexists. split; [reflexivity|].
  cbn [Buf streamKey payload nonce Rand set_payload set_nonce set_Buf set_streamKey set_Rand].
  repeat split; auto.
  - now rewrite <- app_assoc.
  - now intros ->.
Qed.

(** The flag of the last chunk is never cleared and [PayloadChunkFinal]
    never moves the counter: after a final chunk, every later chunk has
    the flag in its nonce, and a second final chunk is sealed with the
    very nonce of the first. *)
Theorem final_flag_is_never_cleared
  (first second : bytes) (pts : list bytes) (f : TestFile) :
  length (nonce f) = 12 ->
  length (streamKey f) = 32 ->
  exists f1 f2 f3,
    PayloadChunkFinal first f = Some f1
    /\ PayloadChunkFinal second f1 = Some f2
    /\ PayloadChunks pts f1 = Some f3
    /\ nonce f1 !! 11 = Some x01
    /\ nonce f2 = nonce f1
    /\ Buf f1 = Buf f ++ chacha20poly1305_Seal (streamKey f) (nonce f1) first []
    /\ Buf f2 = Buf f1 ++ chacha20poly1305_Seal (streamKey f) (nonce f1) second []
    /\ nonce f3 !! 11 = Some x01.
Proof.
  intros Hlen Hk.
  assert (H11 : <[11:=x01]> (nonce f) !! 11 = Some x01)
    by (apply list_lookup_insert_eq; lia).
  unfold PayloadChunkFinal at 1.
  cbn [streamKey set_payload set_nonce]. rewrite (TestKitProps.New_32 _ Hk).
  cbn [mbind option_bind].
  eexists _, _, _. split; [reflexivity|].
  unfold PayloadChunkFinal.
  cbn [Buf streamKey payload nonce set_payload set_nonce set_Buf].
  rewrite (TestKitProps.New_32 _ Hk). cbn [mbind option_bind].
  split; [reflexivity|].
  rewrite TestKitProps.PayloadChunks_spec by exact Hk.
  split; [reflexivity|].
  cbn [Buf streamKey payload nonce set_payload set_nonce set_Buf].
  rewrite list_insert_insert_eq.
  repeat split; auto.
  rewrite list_lookup_alter_ne by lia. exact H11.
Qed.

End Payload.

(** *** [Generate] *)

Lemma text_lines_app (l1 l2 : list string) :
  text_lines (l1 ++ l2) = text_lines l1 ++ text_lines l2.
Proof. unfold text_lines. now rewrite map_app, concat_app. Qed.

Lemma text_lines_one (l : string) : text_lines [l] = bytes_of l ++ bytes_of LF.
Proof. unfold text_lines. cbn. now rewrite app_nil_r. Qed.

Lemma text_lines_nil : text_lines [] = [].
Proof. reflexivity. Qed.

Lemma bytes_of_string_of_list_byte (b : bytes) : bytes_of (string_of_list_byte b) = b.
Proof. apply list_byte_of_string_of_list_byte. Qed.

Lemma text_lines_cons (l : string) (ls : list string) :
  text_lines (l :: ls) = bytes_of l ++ bytes_of LF ++ text_lines ls.
Proof. unfold text_lines. cbn [map concat]. now rewrite <- app_assoc. Qed.

(** A loop that prints one line per element. *)
Lemma printed_lines (key : string) (l : list string) : forall out,
  bytes_of (fold_left (fun out x => out +:+ key +:+ x +:+ LF) l out) =
  bytes_of out ++ text_lines (map (fun x => key +:+ x) l).
Proof.
  induction l as [|x l IH]; intros out; cbn [fold_left map].
  - unfold text_lines. cbn. now rewrite app_nil_r.
  - rewrite IH, text_lines_cons, !TestKitProps.bytes_of_append.
    now rewrite <- !app_assoc.
Qed.

(** The lines that [Generate] prints before the empty line. *)
Lemma Generate_bytes (f : TestFile) :
  bytes_of (fst (Generate f)) =
  text_lines
    (["expect: " +:+ expect f]
     ++ (if String.eqb (expect f) "success"
         then ["payload: " +:+ Sha256.hex (Sha256.Sum256 (payload f))] else [])
     ++ ["file key: " +:+ Sha256.hex (fileKey f)]
     ++ map (fun id => "identity: " +:+ id) (identities f)
     ++ map (fun p => "passphrase: " +:+ p) (passphrases f)
     ++ (if String.eqb (comment f) EmptyString then [] else ["comment: " +:+ comment f]))
  ++ bytes_of LF ++ Buf f.
Proof.
  unfold Generate. cbn [fst].
  destruct (String.eqb (comment f) EmptyString); cbn [negb];
    destruct (String.eqb (expect f) "success");
    repeat first [ rewrite TestKitProps.bytes_of_append
                 | rewrite printed_lines
                 | rewrite text_lines_app
                 | rewrite text_lines_cons
                 | rewrite text_lines_nil
                 | rewrite bytes_of_string_of_list_byte
                 | rewrite <- app_assoc
                 | rewrite app_nil_l
                 | rewrite app_nil_r ];
    reflexivity.
Qed.

(** [Generate] prints the lines of the metadata, an empty line, and the
    bytes of the file; the line of the payload hash only when the
    expectation is [success], and the line of the comment only when there
    is one.  It leaves the buffer empty: a second call prints the same
    metadata and no file. *)
Theorem Generate_prints_metadata_then_file (f : TestFile) :
  let metadata :=
    ["expect: " +:+ expect f]
    ++ (if String.eqb (expect f) "success"
        then ["payload: " +:+ Sha256.hex (Sha256.Sum256 (payload f))] else [])
    ++ ["file key: " +:+ Sha256.hex (fileKey f)]
    ++ map (fun id => "identity: " +:+ id) (identities f)
    ++ map (fun p => "passphrase: " +:+ p) (passphrases f)
    ++ (if String.eqb (comment f) EmptyString then [] else ["comment: " +:+ comment f]) in
  bytes_of (fst (Generate f)) = text_lines metadata ++ bytes_of LF ++ Buf f
  /\ snd (Generate f) = set_Buf [] f
  /\ bytes_of (fst (Generate (snd (Generate f)))) = text_lines metadata ++ bytes_of LF.
Proof.
  intros metadata. split; [apply Generate_bytes|]. split; [reflexivity|].
  change (snd (Generate f)) with (set_Buf [] f).
  rewrite Generate_bytes. cbn [Buf expect payload fileKey identities passphrases comment set_Buf].
  now rewrite app_nil_r.
Qed.

(** A file that expects a failure gets no line for the hash of the
    payload, whatever payload was recorded: after [ExpectHeaderFailure] or
    [ExpectPayloadFailure], [Generate] prints the expectation, then at once
    the file key and the rest.  [Comment] with the empty string takes the
    line of the comment away. *)
Theorem Generate_after_expected_failure (f : TestFile) (c : string) :
  let keys :=
    ["file key: " +:+ Sha256.hex (fileKey f)]
    ++ map (fun id => "identity: " +:+ id) (identities f)
    ++ map (fun p => "passphrase: " +:+ p) (passphrases f) in
  let comments (c : string) :=
    if String.eqb c EmptyString then [] else ["comment: " +:+ c] in
  bytes_of (fst (Generate (ExpectHeaderFailure f))) =
  text_lines (["expect: header failure"] ++ keys ++ comments (comment f))
  ++ bytes_of LF ++ Buf f
  /\ bytes_of (fst (Generate (ExpectPayloadFailure f))) =
     text_lines (["expect: payload failure"] ++ keys ++ comments (comment f))
     ++ bytes_of LF ++ Buf f
  /\ bytes_of (fst (Generate (Comment c (ExpectHeaderFailure f)))) =
     text_lines (["expect: header failure"] ++ keys ++ comments c)
     ++ bytes_of LF ++ Buf f
  /\ bytes_of (fst (Generate (Comment EmptyString (ExpectPayloadFailure f)))) =
     text_lines (["expect: payload failure"] ++ keys) ++ bytes_of LF ++ Buf f.
Proof.
  intros keys comments. unfold keys, comments.
  repeat split; rewrite Generate_bytes;
    cbn [Buf expect payload fileKey identities passphrases comment
         ExpectHeaderFailure ExpectPayloadFailure Comment set_expect set_comment];
    rewrite <- ?app_assoc, ?app_nil_r; reflexivity.
Qed.

Section Hash.

Context {P : Primitives}.

(** The hash that [Generate] prints is that of all the plaintexts, in the
    order of the chunks: after the chunks [pts] and the final chunk, in a
    file that expects success and had no payload yet, the output starts
    with the line of the expectation and the line
    [payload: <hex of SHA-256(pts[0] || ... || final)>]. *)
Theorem Generate_prints_hash_of_plaintexts
  (pts : list bytes) (final : bytes) (f : TestFile) :
  length (streamKey f) = 32 ->
  expect f = "success" ->
  payload f = [] ->
  exists f1 f2 rest,
    PayloadChunks pts f = Some f1
    /\ PayloadChunkFinal final f1 = Some f2
    /\ bytes_of (fst (Generate f2)) =
       bytes_of ("expect: success" +:+ LF
                 +:+ "payload: " +:+ Sha256.hex (Sha256.Sum256 (concat pts ++ final)) +:+ LF)
       ++ rest.
Proof.
  intros Hk He Hp.
  eexists _, _, _. split; [apply TestKitProps.PayloadChunks_spec, Hk|].
  unfold PayloadChunkFinal.
  cbn [Buf streamKey payload nonce set_payload set_nonce set_Buf].
  rewrite (TestKitProps.New_32 _ Hk). cbn [mbind option_bind].
  split; [reflexivity|].
  rewrite Generate_bytes.
  cbn [Buf streamKey payload nonce expect set_payload set_nonce set_Buf].
  rewrite He, Hp. cbn [String.eqb Ascii.eqb Bool.eqb app].
  repeat first [ rewrite TestKitProps.bytes_of_append
               | rewrite text_lines_app
               | rewrite text_lines_cons
               | rewrite <- app_assoc ].
  reflexivity.
Qed.

End Hash.

(** *** [UnreadLine] after the writers of the header *)

Lemma b64_no_line_feed (b : bytes) : x0a ∉ bytes_of (b64 b).
Proof.
  unfold bytes_of, list_byte_of_string. intros H.
  apply list_elem_of_fmap in H as (c & Hc & Hin).
  apply (f_equal ascii_of_byte) in Hc. rewrite ascii_of_byte_of_ascii in Hc. subst c.
  apply list_elem_of_In in Hin.
  pose proof (Base64Props.EncodeToString_alphabet b) as Hall.
  rewrite List.Forall_forall in Hall. apply Hall in Hin.
  vm_compute in Hin. intuition discriminate.
Qed.

Lemma text_lines_snoc (ls : list string) (l : string) :
  text_lines (ls ++ [l]) = text_lines ls ++ bytes_of l ++ [x0a].
Proof. now rewrite text_lines_app, text_lines_one. Qed.

(** Lines written with [TextLine] leave a buffer that ends with a line
    feed where it was empty or ended with one. *)
Lemma ends_with_line_feed (B : bytes) (ls : list string) :
  B = [] \/ last B = Some x0a ->
  B ++ text_lines ls = [] \/ last (B ++ text_lines ls) = Some x0a.
Proof.
  intros HB. destruct (snoc_cases ls) as [->|(init & l & ->)].
  - now rewrite text_lines_nil, app_nil_r.
  - right. rewrite text_lines_snoc, !app_assoc. apply last_snoc.
Qed.

Lemma TextLine_set_Buf (l : string) (v : bytes) (f : TestFile) :
  TextLine l (set_Buf v f) = set_Buf (v ++ bytes_of l ++ [x0a]) f.
Proof. unfold TextLine, set_Buf. cbn. now rewrite <- app_assoc. Qed.

Lemma b64_not_empty (b : bytes) : b <> [] -> b64 b <> EmptyString.
Proof.
  intros Hb E. apply (f_equal String.length) in E.
  rewrite TestKitProps.b64_length in E. cbn [String.length] in E.
  destruct b as [|a r]; [contradiction|]. cbn [length] in E.
  assert (1 <= (4 * S (length r) + 2) / 3) by (apply Nat.div_le_lower_bound; lia). lia.
Qed.

(** [UnreadLine] after [Body], on a buffer that was empty or ended with
    a line feed.  When the length of the body is not a multiple of 48, the
    line returned is the short last line of the body.  When it is a
    multiple of 48 and not zero, the last line of the body is empty, and
    what is returned is the full line before it with a line feed at its
    end; both lines are taken off the buffer. *)
Theorem UnreadLine_after_Body (b : bytes) (f : TestFile) :
  Buf f = [] \/ last (Buf f) = Some x0a ->
  let n := length b / 48 in
  (length b mod 48 <> 0 ->
   Body b f ≫= UnreadLine =
   Some (short_line b, set_Buf (Buf f ++ text_lines (map (full_line b) (seq 0 n))) f))
  /\ (length b mod 48 = 0 -> 0 < length b ->
      Body b f ≫= UnreadLine =
      Some (full_line b (n - 1) +:+ LF,
            set_Buf (Buf f ++ text_lines (map (full_line b) (seq 0 (n - 1)))) f)).
Proof.
  intros Hf n. rewrite TestKitProps.Body_lines. cbn [mbind option_bind].
  unfold body_lines. fold n.
  pose proof (TestKitProps.short_line_bytes b) as Hrest. fold n in Hrest.
  split.
  - intros Hmod.
    rewrite text_lines_snoc, app_assoc, <- TextLine_set_Buf.
    apply UnreadLine_TextLine_plain.
    + apply b64_not_empty. intros E. fold n in E. rewrite E in Hrest. cbn [length] in Hrest. lia.
    + apply b64_no_line_feed.
    + cbn [Buf set_Buf]. now apply ends_with_line_feed.
  - intros Hmod Hpos.
    assert (Hn : n = S (n - 1)).
    { pose proof (Nat.div_mod_eq (length b) 48). fold n in H. lia. }
    assert (Hshort : short_line b = EmptyString).
    { unfold short_line. fold n. rewrite Hmod in Hrest.
      destruct (drop (48 * n) b); [reflexivity|discriminate]. }
    rewrite Hshort. rewrite Hn at 1. rewrite seq_S, map_app. cbn [map Nat.add].
    rewrite <- app_assoc. cbn [app].
    rewrite !text_lines_app, !text_lines_cons, text_lines_nil, app_nil_r.
    change (bytes_of EmptyString) with (@nil byte). rewrite app_nil_l.
    replace (Buf f ++ text_lines (map (full_line b) (seq 0 (n - 1)))
             ++ bytes_of (full_line b (n - 1)) ++ bytes_of LF ++ bytes_of LF)
      with ((Buf f ++ text_lines (map (full_line b) (seq 0 (n - 1))))
            ++ bytes_of (full_line b (n - 1) +:+ LF) ++ [x0a])
      by (rewrite TestKitProps.bytes_of_append, bytes_of_LF, <- !app_assoc; reflexivity).
    rewrite <- TextLine_set_Buf.
    apply UnreadLine_TextLine_gen.
    + destruct (full_line b (n - 1)); discriminate.
    + rewrite TestKitProps.bytes_of_append, bytes_of_LF, length_app. cbn [length].
      replace (length (bytes_of (full_line b (n - 1))) + 1 - 1)
        with (length (bytes_of (full_line b (n - 1)))) by lia.
      rewrite take_app_length. apply b64_no_line_feed.
    + cbn [Buf set_Buf]. now apply ends_with_line_feed.
Qed.

Section Header.

Context {P : Primitives}.

(** [UnreadLine] after [HMAC], on a buffer that was empty or ended with a
    line feed, returns the line of the MAC and leaves the file as it was
    before [HMAC]. *)
Theorem UnreadLine_undoes_HMAC (f : TestFile) :
  Buf f = [] \/ last (Buf f) = Some x0a ->
  let key := Read (hkdf_sha256 (fileKey f) [] (bytes_of "header") 32) (make 32) in
  UnreadLine (HMAC f) =
  Some ("--- " +:+ b64 (hmac_sha256 key (Buf f ++ bytes_of "---")), f).
Proof.
  intros Hf key. unfold HMAC, HMACLine. fold key.
  apply UnreadLine_TextLine_plain; [discriminate| |exact Hf].
  rewrite TestKitProps.bytes_of_append, elem_of_app. intros [H|H].
  - apply list_elem_of_In in H. vm_compute in H. intuition discriminate.
  - now apply b64_no_line_feed in H.
Qed.

End Header.

(** *** The theorems at chosen inputs *)

Lemma final_flag_is_never_cleared_witness :
  (PayloadChunkFinal [x01] (set_streamKey (make 32) NewTestFile)
   ≫= PayloadChunks [[x02]; [x03]]) ≫= (fun f => nonce f !! 11) = Some x01.
Proof.
  destruct (final_flag_is_never_cleared [x01] [x04] [[x02]; [x03]]
              (set_streamKey (make 32) NewTestFile))
    as (f1 & f2 & f3 & E1 & _ & E3 & _ & _ & _ & _ & H); [reflexivity | reflexivity |].
  rewrite E1. cbn [mbind option_bind]. rewrite E3. exact H.
Defined.

Lemma Generate_prints_hash_of_plaintexts_witness :
  exists f2 rest,
    PayloadChunks [bytes_of "age"] payload_start ≫= PayloadChunkFinal (bytes_of "!") = Some f2
    /\ bytes_of (fst (Generate f2)) =
       bytes_of ("expect: success" +:+ LF +:+ "payload: "
                 +:+ "58e11df18ec5a01c8507c4b62ef3c7129ddb3c224f3058a220ccf47472bbd680"
                 +:+ LF) ++ rest.
Proof.
  destruct (Generate_prints_hash_of_plaintexts [bytes_of "age"] (bytes_of "!") payload_start)
    as (f1 & f2 & rest & E1 & E2 & H);
    [apply TestKitProps.Read_length | reflexivity | reflexivity |].
  exists f2, rest. rewrite E1. split; [exact E2|].
  rewrite H. f_equal.
Defined.

Lemma UnreadLine_after_Body_witness :
  Body (repeat x00 48) header_v1 ≫= UnreadLine =
  Some ("AAAAAAAAAAAAAAAAAAAAAAAAAAAAAAAAAAAAAAAAAAAAAAAAAAAAAAAAAAAAAAAA" +:+ LF, header_v1).
Proof.
  destruct (UnreadLine_after_Body (repeat x00 48) header_v1) as [_ H];
    [right; reflexivity|].
  rewrite H by (vm_compute; lia || reflexivity). vm_compute. reflexivity.
Defined.

Lemma UnreadLine_undoes_HMAC_witness :
  option_map snd (UnreadLine (HMAC header_v1)) = Some header_v1.
Proof.
  rewrite UnreadLine_undoes_HMAC by (right; reflexivity). reflexivity.
Defined.

End GeneratorProps.

(** ** internal/plugin: the constructors and the sessions *)

Module ClientProps.
Import Go Plugin.

(** *** [NewRecipient] and [NewIdentity] *)

Lemma append_assoc (a b c : string) : (a +:+ b) +:+ c = a +:+ (b +:+ c).
Proof.
  induction a as [|x a IH]; [reflexivity|].
  change (String x a +:+ b) with (String x (a +:+ b)).
  change (String x (a +:+ b) +:+ c) with (String x ((a +:+ b) +:+ c)).
  now rewrite IH.
Qed.

Lemma substring_all (s : string) : String.substring 0 (String.length s) s = s.
Proof. induction s as [|a s IH]; [reflexivity|]. cbn. now rewrite IH. Qed.

Lemma length_append (a b : string) :
  String.length (a +:+ b) = String.length a + String.length b.
Proof.
  induction a as [|x a IH]; [reflexivity|].
  change (String x a +:+ b) with (String x (a +:+ b)). cbn [String.length]. now rewrite IH.
Qed.

Lemma prefix_append (p r : string) : String.prefix p (p +:+ r) = true.
Proof.
  induction p as [|x p IH]; [now destruct r|].
  change (String x p +:+ r) with (String x (p +:+ r)). cbn [String.prefix].
  destruct (ascii_dec x x); [exact IH | contradiction].
Qed.

(** A string with a prefix is the prefix and what [TrimPrefix] leaves. *)
Lemma prefix_inv (p : string) : forall s,
  String.prefix p s = true ->
  s = p +:+ String.substring (String.length p) (String.length s - String.length p) s.
Proof.
  induction p as [|x p IH]; intros s H.
  - cbn. now rewrite Nat.sub_0_r, substring_all.
  - destruct s as [|y s]; [discriminate|]. cbn [String.prefix] in H.
    destruct (ascii_dec x y) as [->|]; [|discriminate].
    change (String y p +:+ ?r) with (String y (p +:+ r)).
    cbn [String.length String.substring Nat.sub]. f_equal. now apply IH.
Qed.

Lemma TrimPrefix_inv (p s : string) :
  String.prefix p s = true -> s = p +:+ strings_TrimPrefix s p.
Proof.
  intros H. unfold strings_TrimPrefix, strings_HasPrefix. rewrite H. now apply prefix_inv.
Qed.

Lemma TrimPrefix_append (p r : string) : strings_TrimPrefix (p +:+ r) p = r.
Proof.
  unfold strings_TrimPrefix, strings_HasPrefix. rewrite prefix_append.
  pose proof (prefix_inv p (p +:+ r) (prefix_append p r)) as E.
  remember (String.substring _ _ _) as t eqn:Et. clear Et.
  revert E. induction p as [|x p IH]; intros E; [now symmetry|].
  injection E as E. now apply IH.
Qed.

Lemma HasSuffix_snoc (init : string) (c d : ascii) :
  strings_HasSuffix (init +:+ String c EmptyString) (String d EmptyString) = Ascii.eqb c d.
Proof.
  unfold strings_HasSuffix. rewrite length_append. cbn [String.length].
  replace (String.length init + 1 - 1) with (String.length init) by lia.
  destruct (Nat.leb_spec 1 (String.length init + 1)) as [_|]; [|lia]. cbn [andb].
  assert (E : String.substring (String.length init) 1 (init +:+ String c EmptyString)
              = String c EmptyString).
  { induction init as [|a r IH]; [reflexivity | exact IH]. }
  rewrite E. cbn [String.eqb]. now destruct (Ascii.eqb c d).
Qed.

Lemma strings_TrimSuffix_snoc (init : string) (c : ascii) :
  strings_TrimSuffix (init +:+ String c EmptyString) (String c EmptyString) = init.
Proof.
  unfold strings_TrimSuffix. rewrite HasSuffix_snoc, Ascii.eqb_refl, length_append.
  cbn [String.length]. replace (String.length init + 1 - 1) with (String.length init) by lia.
  apply GeneratorProps.substring_snoc.
Qed.

Lemma lower_not_capital (c : ascii) :
  ~ (65 <= nat_of_ascii (lower c) <= 90).
Proof.
  unfold lower.
  destruct (Nat.leb_spec 65 (nat_of_ascii c)) as [H1|H1];
    destruct (Nat.leb_spec (nat_of_ascii c) 90) as [H2|H2]; cbn [andb]; try lia.
  rewrite nat_ascii_embedding by lia. lia.
Qed.

Lemma ToLower_no_capital (s : string) :
  Forall (fun c => ~ (65 <= nat_of_ascii c <= 90)) (list_ascii_of_string (strings_ToLower s)).
Proof.
  induction s as [|c s IH]; cbn; constructor; [apply lower_not_capital | exact IH].
Qed.

(** [NewRecipient] returns a recipient exactly for the strings that
    decode to a human-readable part that starts with [age1]; the name of
    the plugin is the rest of that part, which may be empty, and the
    encoding is the string itself.  The recipient is no identity and has no
    callbacks. *)
Theorem NewRecipient_name_is_rest_of_hrp
  (bech32_Decode : string -> string * bytes + string) (s : string) :
  (forall name data,
     bech32_Decode s = inl ("age1" +:+ name, data) ->
     NewRecipient bech32_Decode s = inl (Recipient.mk name s false None None))
  /\ (forall r,
        NewRecipient bech32_Decode s = inl r ->
        exists data,
          bech32_Decode s = inl ("age1" +:+ Recipient.name r, data)
          /\ r = Recipient.mk (Recipient.name r) s false None None)
  /\ (forall err,
        bech32_Decode s = inr err ->
        NewRecipient bech32_Decode s = inr (InvalidRecipientEncoding s err))
  /\ (forall hrp data,
        bech32_Decode s = inl (hrp, data) -> String.prefix "age1" hrp = false ->
        NewRecipient bech32_Decode s = inr (NotPluginRecipient s)).
Proof.
  unfold NewRecipient. repeat split.
  - intros name data ->. unfold strings_HasPrefix at 1.
    rewrite (prefix_append "age1" name). cbn [negb].
    now rewrite (TrimPrefix_append "age1" name).
  - intros r. destruct (bech32_Decode s) as [[hrp data]|err]; [|discriminate].
    unfold strings_HasPrefix at 1.
    destruct (String.prefix "age1" hrp) eqn:Hp; cbn [negb]; [|discriminate].
    intros [= <-]. cbn [Recipient.name]. exists data.
    now rewrite <- (TrimPrefix_inv _ _ Hp).
  - now intros err ->.
  - intros hrp data -> Hp. unfold strings_HasPrefix. now rewrite Hp.
Qed.

(** [NewIdentity] returns an identity exactly for the strings that decode
    to a human-readable part that starts with [AGE-PLUGIN-] and ends with
    [-]; the name of the plugin is what is between the two, in lower case,
    and is empty when the part is [AGE-PLUGIN-] alone, whose last character
    serves as both; the encoding is the string itself.  This is for
    human-readable parts of ASCII characters, the ones that [bech32.Decode]
    returns and on which [strings_ToLower] is [strings.ToLower]. *)
Theorem NewIdentity_name_is_lower_case
  (bech32_Decode : string -> string * bytes + string) (s : string) :
  (forall hrp data, bech32_Decode s = inl (hrp, data) -> is_ascii hrp) ->
  (forall m data,
     bech32_Decode s = inl ("AGE-PLUGIN-" +:+ m +:+ "-", data) ->
     NewIdentity bech32_Decode s = inl (Identity.mk (strings_ToLower m) s None None))
  /\ (forall data,
        bech32_Decode s = inl ("AGE-PLUGIN-", data) ->
        NewIdentity bech32_Decode s = inl (Identity.mk EmptyString s None None))
  /\ (forall i,
        NewIdentity bech32_Decode s = inl i ->
        exists m data,
          (bech32_Decode s = inl ("AGE-PLUGIN-" +:+ m +:+ "-", data)
           \/ (bech32_Decode s = inl ("AGE-PLUGIN-", data) /\ m = EmptyString))
          /\ i = Identity.mk (strings_ToLower m) s None None
          /\ Forall (fun c => ~ (65 <= nat_of_ascii c <= 90))
                    (list_ascii_of_string (Identity.name i)))
  /\ (forall err,
        bech32_Decode s = inr err ->
        NewIdentity bech32_Decode s = inr (InvalidIdentityEncoding err))
  /\ (forall hrp data,
        bech32_Decode s = inl (hrp, data) ->
        String.prefix "AGE-PLUGIN-" hrp = false \/ strings_HasSuffix hrp "-" = false ->
        NewIdentity bech32_Decode s = inr NotPluginIdentity).
Proof.
  intros _. unfold NewIdentity. split; [|split; [|split; [|split]]].
  - intros m data ->. unfold strings_HasPrefix at 1.
    rewrite (prefix_append "AGE-PLUGIN-" (m +:+ "-")).
    rewrite <- (append_assoc "AGE-PLUGIN-" m "-") at 1.
    rewrite HasSuffix_snoc. cbn [negb orb Ascii.eqb Bool.eqb].
    now rewrite (TrimPrefix_append "AGE-PLUGIN-" (m +:+ "-")), strings_TrimSuffix_snoc.
  - now intros data ->.
  - intros i. destruct (bech32_Decode s) as [[hrp data]|err]; [|discriminate].
    unfold strings_HasPrefix at 1.
    destruct (String.prefix "AGE-PLUGIN-" hrp) eqn:Hp; cbn [negb orb]; [|discriminate].
    destruct (strings_HasSuffix hrp "-") eqn:Hs; cbn [negb]; [|discriminate].
    intros [= <-]. cbn [Identity.name].
    apply TrimPrefix_inv in Hp.
    destruct (GeneratorProps.string_snoc_cases (strings_TrimPrefix hrp "AGE-PLUGIN-"))
      as [E|(m & c & E)]; rewrite E in *.
    + exists EmptyString, data. split; [right; now subst hrp|]. split; [reflexivity|constructor].
    + rewrite Hp, <- append_assoc, HasSuffix_snoc in Hs.
      apply Ascii.eqb_eq in Hs. subst c. rewrite strings_TrimSuffix_snoc.
      exists m, data. split; [left; now subst hrp|]. split; [reflexivity|].
      apply ToLower_no_capital.
  - now intros err ->.
  - intros hrp data -> [H|H]; unfold strings_HasPrefix; rewrite H; [reflexivity|].
    now destruct (String.prefix "AGE-PLUGIN-" hrp).
Qed.

(** *** Writes that succeed *)

Lemma Marshal_wrote (s : Stanza) (conn : clientConnection) :
  writable conn -> Marshal s conn = (Ok tt, wrote s conn).
Proof.
  unfold writable, Marshal, wrote. intros H.
  destruct (Writer conn) as [|[e|] w] eqn:E; try reflexivity.
  inversion H; discriminate.
Qed.

Lemma writable_wrote (s : Stanza) (conn : clientConnection) :
  writable conn -> writable (wrote s conn).
Proof.
  unfold writable, wrote. cbn [Writer]. intros H.
  destruct (Writer conn); [constructor | now inversion H].
Qed.

Lemma writable_wrote_all (ss : list Stanza) : forall conn,
  writable conn -> writable (wrote_all ss conn).
Proof.
  induction ss as [|s ss IH]; intros conn H; [exact H|].
  apply IH, writable_wrote, H.
Qed.

Lemma log_wrote_all (ss : list Stanza) : forall conn,
  log (wrote_all ss conn) = log conn ++ map Wrote ss.
Proof.
  induction ss as [|s ss IH]; intros conn; cbn [wrote_all fold_left map].
  - now rewrite app_nil_r.
  - fold (wrote_all ss (wrote s conn)). rewrite IH. cbn [log wrote].
    now rewrite <- app_assoc.
Qed.

Lemma Reader_wrote_all (ss : list Stanza) : forall conn,
  Reader (wrote_all ss conn) = Reader conn.
Proof.
  induction ss as [|s ss IH]; intros conn; [reflexivity|].
  cbn [wrote_all fold_left]. fold (wrote_all ss (wrote s conn)). now rewrite IH.
Qed.

Lemma wrote_all_app (xs ys : list Stanza) (conn : clientConnection) :
  wrote_all (xs ++ ys) conn = wrote_all ys (wrote_all xs conn).
Proof. unfold wrote_all. apply fold_left_app. Qed.

Lemma bind_Marshal_wrote {A} (s : Stanza) (k : M A) (conn : clientConnection) :
  writable conn -> (Marshal s >> k) conn = k (wrote s conn).
Proof. intros H. unfold bind. now rewrite Marshal_wrote. Qed.

(** *** The loop of [Wrap] *)

Lemma Wrap_response_recipient_stanza (r : Recipient.t) (s : Stanza) :
  Type_ s = "recipient-stanza" -> Wrap_response r s = mkStanza "ok" [] None.
Proof. intros E. unfold Wrap_response. now rewrite E. Qed.

(** One turn of the loop on a stanza that keeps it going: the answer is
    written, and a [recipient-stanza] is collected. *)
Lemma Wrap_turn (r : Recipient.t) (s : Stanza) sr stanzas conn :
  Wrap_continues s -> writable conn ->
  Recipient.Wrap_ReadLoop r (Ok s :: sr) stanzas conn =
  Recipient.Wrap_ReadLoop r sr (stanzas ++ collect_all [s]) (wrote (Wrap_response r s) conn).
Proof.
  intros (Herr & Hdone & Hrs) Hw.
  destruct (String.eqb_spec (Type_ s) "recipient-stanza") as [E|N].
  - rewrite (Wrap_response_recipient_stanza r s E).
    destruct s as [ty args body]. cbn in E. subst ty.
    rewrite PluginProps.Wrap_ReadLoop_accepts by now apply Hrs.
    now rewrite bind_Marshal_wrote.
  - rewrite (PluginProps.collect_all_other s N), app_nil_r.
    unfold Wrap_response, callback_response. cbn [Recipient.Wrap_ReadLoop].
    rewrite (PluginProps.eqb_neq_false _ _ N), (PluginProps.eqb_neq_false _ _ Herr),
      (PluginProps.eqb_neq_false _ _ Hdone).
    destruct (String.eqb (Type_ s) "msg").
    { destruct (Recipient.DisplayMessage r) as [d|]; [destruct (d _)|];
        now rewrite bind_Marshal_wrote. }
    destruct (String.eqb (Type_ s) "request-secret" || String.eqb (Type_ s) "request-public").
    { destruct (Recipient.RequestValue r) as [q|]; [destruct (q _ _)|];
        now rewrite bind_Marshal_wrote. }
    now rewrite bind_Marshal_wrote.
Qed.

Lemma Wrap_turns (r : Recipient.t) (pre : list Stanza) : forall sr stanzas conn,
  Forall Wrap_continues pre -> writable conn ->
  Recipient.Wrap_ReadLoop r (map Ok pre ++ sr) stanzas conn =
  Recipient.Wrap_ReadLoop r sr (stanzas ++ collect_all pre)
    (wrote_all (map (Wrap_response r) pre) conn).
Proof.
  induction pre as [|s pre IH]; intros sr stanzas conn Hpre Hw.
  - cbn. now rewrite app_nil_r.
  - inversion Hpre as [|? ? Hs Hpre']; subst.
    cbn [map app]. rewrite (Wrap_turn r s _ _ _ Hs Hw).
    rewrite IH by (auto using writable_wrote).
    rewrite <- app_assoc, <- PluginProps.collect_all_cons. reflexivity.
Qed.

Lemma Wrap_session_wrote (r : Recipient.t) (fileKey : bytes) (conn : clientConnection) :
  writable conn ->
  Recipient.Wrap_session r fileKey conn =
  (let* stanzas := Recipient.Wrap_ReadLoop r (Reader conn) [] in
   if (length stanzas =? 0)%nat
   then fail (Errorf "received zero recipient stanzas")
   else ret stanzas) (wrote_all (Wrap_phase1 r fileKey) conn).
Proof.
  intros Hw. unfold Recipient.Wrap_session.
  rewrite !bind_Marshal_wrote by (auto using writable_wrote).
  reflexivity.
Qed.

(** A whole call, from the start of the process to its end. *)
Lemma Wrap_run exec_Start (r : Recipient.t) (fileKey : bytes) (p : process) :
  exec_Start ("age-plugin-" +:+ Recipient.name r) "--age-plugin=recipient-v1" = Ok p ->
  Recipient.Wrap exec_Start r fileKey =
  (prefix_error (Recipient.name r)
     (fst (Recipient.Wrap_session r fileKey (mkConn (stdout p) (stdin p) []))),
   Some (Close (snd (Recipient.Wrap_session r fileKey (mkConn (stdout p) (stdin p) []))))).
Proof.
  intros E. unfold Recipient.Wrap, openClientConnection.
  change ("--age-plugin=" +:+ "recipient-v1") with "--age-plugin=recipient-v1".
  rewrite E. now destruct (Recipient.Wrap_session _ _ _).
Qed.

(** The session up to the stanza after those that keep the loop going. *)
Lemma Wrap_session_turns (r : Recipient.t) (fileKey : bytes) (p : process)
  (pre : list Stanza) (sr : list (result Stanza)) :
  Forall (fun o => o = None) (stdin p) ->
  Forall Wrap_continues pre ->
  stdout p = map Ok pre ++ sr ->
  exists conn,
    writable conn
    /\ log conn = map Wrote (Wrap_phase1 r fileKey ++ map (Wrap_response r) pre)
    /\ Recipient.Wrap_session r fileKey (mkConn (stdout p) (stdin p) []) =
       (let* stanzas := Recipient.Wrap_ReadLoop r sr (collect_all pre) in
        if (length stanzas =? 0)%nat
        then fail (Errorf "received zero recipient stanzas")
        else ret stanzas) conn.
Proof.
  intros Hin Hpre Hout.
  assert (Hw : writable (mkConn (stdout p) (stdin p) [])) by exact Hin.
  rewrite (Wrap_session_wrote r fileKey _ Hw). cbn [Reader].
  exists (wrote_all (map (Wrap_response r) pre)
            (wrote_all (Wrap_phase1 r fileKey) (mkConn (stdout p) (stdin p) []))).
  split; [auto using writable_wrote_all|]. split.
  - rewrite !log_wrote_all. cbn [log app]. now rewrite map_app.
  - unfold bind at 1 2. rewrite Hout.
    rewrite (Wrap_turns r pre sr [] _ Hpre) by (auto using writable_wrote_all).
    reflexivity.
Qed.

Lemma log_Close (conn : clientConnection) : log (Close conn) = log conn ++ closed.
Proof. reflexivity. Qed.

(** The session of [Wrap] is in lock step.  With a process whose input
    takes every write, and stanzas [pre] that keep the loop going, the
    client writes the three stanzas of phase 1, then one answer per stanza
    of [pre], in order, and after that:
    - on [done], nothing more;
    - on an [error] stanza, [ok], and it returns the body of the stanza as
      the error;
    - on an error of the reader, or at the end of the output, nothing
      more, and it returns that error.
    What the plugin sends after that is not read.  The process is closed in
    each case. *)
Theorem Wrap_answers_each_stanza
  (exec_Start : string -> string -> result process)
  (r : Recipient.t) (fileKey : bytes) (p : process)
  (pre : list Stanza) (rest : list (result Stanza)) :
  exec_Start ("age-plugin-" +:+ Recipient.name r) "--age-plugin=recipient-v1" = Ok p ->
  Forall (fun o => o = None) (stdin p) ->
  Forall Wrap_continues pre ->
  let written := Wrap_phase1 r fileKey ++ map (Wrap_response r) pre in
  let out := Recipient.Wrap exec_Start r fileKey in
  (forall s, Type_ s = "done" -> stdout p = map Ok pre ++ Ok s :: rest ->
     option_map log (snd out) = Some (map Wrote written ++ closed))
  /\ (forall s, Type_ s = "error" -> stdout p = map Ok pre ++ Ok s :: rest ->
        fst out = Err (PluginError (Recipient.name r) (ErrorQ (Body s)))
        /\ option_map log (snd out) =
           Some (map Wrote (written ++ [mkStanza "ok" [] None]) ++ closed))
  /\ (forall e, stdout p = map Ok pre ++ Err e :: rest ->
        fst out = Err (PluginError (Recipient.name r) e)
        /\ option_map log (snd out) = Some (map Wrote written ++ closed))
  /\ (stdout p = map Ok pre ->
        fst out = Err (PluginError (Recipient.name r) EOF)
        /\ option_map log (snd out) = Some (map Wrote written ++ closed)).
Proof.
  intros Hstart Hin Hpre written out. unfold out.
  rewrite (Wrap_run _ _ _ _ Hstart). cbn [fst snd option_map].
  split; [|split; [|split]].
  - intros s Hs Hout.
    destruct (Wrap_session_turns r fileKey p pre _ Hin Hpre Hout) as (conn & Hw & Hlog & ->).
    assert (E : exists res,
               (let* stanzas := Recipient.Wrap_ReadLoop r (Ok s :: rest) (collect_all pre) in
                if (length stanzas =? 0)%nat
                then fail (Errorf "received zero recipient stanzas")
                else ret stanzas) conn = (res, conn)).
    { unfold bind. cbn [Recipient.Wrap_ReadLoop]. rewrite Hs.
      cbn [String.eqb Ascii.eqb Bool.eqb orb]. unfold ret, fail.
      destruct (length (collect_all pre) =? 0)%nat; eauto. }
    destruct E as [res ->]. cbn [snd]. now rewrite log_Close, Hlog.
  - intros s Hs Hout.
    destruct (Wrap_session_turns r fileKey p pre _ Hin Hpre Hout) as (conn & Hw & Hlog & ->).
    assert (E : (let* stanzas := Recipient.Wrap_ReadLoop r (Ok s :: rest) (collect_all pre) in
                 if (length stanzas =? 0)%nat
                 then fail (Errorf "received zero recipient stanzas")
                 else ret stanzas) conn
                = (Err (ErrorQ (Body s)), wrote (mkStanza "ok" [] None) conn)).
    { unfold bind at 1. cbn [Recipient.Wrap_ReadLoop]. rewrite Hs.
      cbn [String.eqb Ascii.eqb Bool.eqb orb].
      now rewrite (bind_Marshal_wrote _ _ _ Hw). }
    rewrite E. cbn [fst snd prefix_error]. split; [reflexivity|].
    unfold written. rewrite log_Close. cbn [log wrote].
    rewrite Hlog, !map_app, <- !app_assoc. reflexivity.
  - intros e Hout.
    destruct (Wrap_session_turns r fileKey p pre _ Hin Hpre Hout) as (conn & Hw & Hlog & ->).
    unfold bind. cbn [Recipient.Wrap_ReadLoop]. unfold fail. cbn [fst snd prefix_error].
    split; [reflexivity|]. now rewrite log_Close, Hlog.
  - intros Hout. rewrite <- (app_nil_r (map Ok pre)) in Hout.
    destruct (Wrap_session_turns r fileKey p pre _ Hin Hpre Hout) as (conn & Hw & Hlog & ->).
    unfold bind. cbn [Recipient.Wrap_ReadLoop]. unfold fail. cbn [fst snd prefix_error].
    split; [reflexivity|]. now rewrite log_Close, Hlog.
Qed.

(** *** Every way the loop of [Wrap] can go *)

Lemma Wrap_response_other (r : Recipient.t) (s : Stanza) :
  Type_ s <> "recipient-stanza" ->
  Wrap_response r s =
  callback_response (Recipient.DisplayMessage r) (Recipient.RequestValue r) s.
Proof. intros N. unfold Wrap_response. now rewrite (PluginProps.eqb_neq_false _ _ N). Qed.

Lemma recipient_stanza_ok_dec (s : Stanza) :
  recipient_stanza_ok s \/ ~ recipient_stanza_ok s.
Proof.
  unfold recipient_stanza_ok.
  destruct (le_dec 2 (length (Args s))) as [H|H]; [|right; tauto].
  destruct (Atoi (nth 0 (Args s) EmptyString)) as [n|]; [|right; intros [_ ?]; discriminate].
  destruct (Z.eq_dec n 0%Z) as [->|N]; [now left|].
  right. intros [_ [= ?]]. contradiction.
Qed.

(** One turn of the loop, by the type of the stanza. *)
Lemma Wrap_turn_cases (r : Recipient.t) (s : Stanza) sr stanzas conn :
  (Wrap_continues s
   /\ Recipient.Wrap_ReadLoop r (Ok s :: sr) stanzas conn =
      (Marshal (Wrap_response r s)
       >> Recipient.Wrap_ReadLoop r sr (stanzas ++ collect_all [s])) conn)
  \/ (Type_ s = "recipient-stanza" /\ ~ recipient_stanza_ok s
      /\ Recipient.Wrap_ReadLoop r (Ok s :: sr) stanzas conn =
         (Err (Errorf "received malformed recipient stanza"), conn))
  \/ (Type_ s = "error"
      /\ Recipient.Wrap_ReadLoop r (Ok s :: sr) stanzas conn =
         (Marshal (mkStanza "ok" [] None) >> fail (ErrorQ (Body s))) conn)
  \/ (Type_ s = "done"
      /\ Recipient.Wrap_ReadLoop r (Ok s :: sr) stanzas conn = (Ok stanzas, conn)).
Proof.
  destruct (String.eqb_spec (Type_ s) "recipient-stanza") as [E|N].
  { destruct (recipient_stanza_ok_dec s) as [Hok|Hno].
    - left. split.
      { unfold Wrap_continues. rewrite E.
        split; [discriminate|]. split; [discriminate|]. now intros _. }
      rewrite (Wrap_response_recipient_stanza r s E).
      destruct s as [ty args body]. cbn in E. subst ty.
      now rewrite PluginProps.Wrap_ReadLoop_accepts.
    - right. left. split; [exact E|]. split; [exact Hno|].
      destruct s as [ty args body]. cbn in E. subst ty.
      now apply PluginProps.Wrap_ReadLoop_rejects. }
  destruct (String.eqb_spec (Type_ s) "error") as [E|Nerr].
  { right. right. left. split; [exact E|]. cbn [Recipient.Wrap_ReadLoop]. now rewrite E. }
  destruct (String.eqb_spec (Type_ s) "done") as [E|Ndone].
  { right. right. right. split; [exact E|]. cbn [Recipient.Wrap_ReadLoop]. now rewrite E. }
  left. split; [repeat split; auto; intros; contradiction|].
  rewrite (PluginProps.collect_all_other s N), app_nil_r, (Wrap_response_other r s N).
  unfold callback_response. cbn [Recipient.Wrap_ReadLoop].
  rewrite (PluginProps.eqb_neq_false _ _ N), (PluginProps.eqb_neq_false _ _ Nerr),
    (PluginProps.eqb_neq_false _ _ Ndone).
  destruct (String.eqb (Type_ s) "msg").
  { destruct (Recipient.DisplayMessage r) as [d|]; [destruct (d _)|]; reflexivity. }
  destruct (String.eqb (Type_ s) "request-secret" || String.eqb (Type_ s) "request-public").
  { destruct (Recipient.RequestValue r) as [q|]; [destruct (q _ _)|]; reflexivity. }
  reflexivity.
Qed.

(** A write, then the rest: the write fails with an error of the pipe,
    or the rest runs on the connection after the write. *)
Lemma bind_Marshal_inv {A} (x : Stanza) (k : M A) conn res conn' :
  (Marshal x >> k) conn = (res, conn') ->
  (exists e, res = Err e /\ In (Some e) (Writer conn))
  \/ k (wrote x conn) = (res, conn').
Proof.
  unfold bind, Marshal, wrote.
  destruct (Writer conn) as [|[e|] w] eqn:E; cbn [tail]; auto.
  intros [= <- <-]. left. exists e. split; [reflexivity | now left].
Qed.

Lemma In_Writer_wrote (x : Stanza) conn o :
  In o (Writer (wrote x conn)) -> In o (Writer conn).
Proof.
  unfold wrote. cbn [Writer]. destruct (Writer conn); [auto | now right].
Qed.

Lemma In_Writer_wrote_all (xs : list Stanza) : forall conn o,
  In o (Writer (wrote_all xs conn)) -> In o (Writer conn).
Proof.
  induction xs as [|x xs IH]; intros conn o H; [exact H|].
  eapply In_Writer_wrote, IH, H.
Qed.

(** The errors of the loop: an error of a write, an error of the reader
    or the end of the output, the error of a malformed stanza, or the body
    of an [error] stanza of the plugin. *)
Lemma Wrap_ReadLoop_error (r : Recipient.t) (sr : list (result Stanza)) :
  forall stanzas conn e conn',
  Recipient.Wrap_ReadLoop r sr stanzas conn = (Err e, conn') ->
  In (Some e) (Writer conn)
  \/ In (Err e) sr
  \/ e = EOF
  \/ e = Errorf "received malformed recipient stanza"
  \/ (exists s, In (Ok s) sr /\ Type_ s = "error" /\ e = ErrorQ (Body s)).
Proof.
  induction sr as [|[s|e0] sr IH]; intros stanzas conn e conn' H.
  - injection H as <- _. auto.
  - destruct (Wrap_turn_cases r s sr stanzas conn)
      as [[_ E]|[(_ & _ & E)|[[Hs E]|[_ E]]]]; rewrite E in H.
    + apply bind_Marshal_inv in H as [(e1 & [= <-] & Hin)|H]; [auto|].
      apply IH in H as [H|[H|[H|[H|(s' & Hin & Hs' & He)]]]]; auto.
      * left. eapply In_Writer_wrote, H.
      * right. left. now right.
      * do 4 right. exists s'. split; [now right | auto].
    + injection H as <- _. auto.
    + apply bind_Marshal_inv in H as [(e1 & [= <-] & Hin)|H]; [auto|].
      injection H as <- _. do 4 right. exists s. split; [now left | auto].
    + discriminate.
  - injection H as <- _. right. left. now left.
Qed.

(** When the loop returns stanzas, the plugin has sent [done] after
    stanzas that kept the loop going, and what is returned is what these
    hold. *)
Lemma Wrap_ReadLoop_success (r : Recipient.t) (sr : list (result Stanza)) :
  forall stanzas conn ss conn',
  Recipient.Wrap_ReadLoop r sr stanzas conn = (Ok ss, conn') ->
  exists pre done rest,
    sr = map Ok pre ++ Ok done :: rest
    /\ Type_ done = "done"
    /\ Forall Wrap_continues pre
    /\ ss = stanzas ++ collect_all pre.
Proof.
  induction sr as [|[s|e0] sr IH]; intros stanzas conn ss conn' H; try discriminate.
  destruct (Wrap_turn_cases r s sr stanzas conn)
    as [[Hc E]|[(_ & _ & E)|[[Hs E]|[Hs E]]]]; rewrite E in H.
  - apply bind_Marshal_inv in H as [(e1 & [=] & _)|H].
    apply IH in H as (pre & done & rest & -> & Hd & Hpre & ->).
    exists (s :: pre), done, rest. repeat split; auto.
    now rewrite <- app_assoc, <- PluginProps.collect_all_cons.
  - discriminate.
  - apply bind_Marshal_inv in H as [(e1 & [=] & _)|H]. discriminate.
  - injection H as <- _. exists [], s, sr. repeat split; auto. now rewrite app_nil_r.
Qed.

(** The session after the three writes of phase 1. *)
Lemma Wrap_session_inv (r : Recipient.t) (fileKey : bytes) conn res conn' :
  Recipient.Wrap_session r fileKey conn = (res, conn') ->
  (exists e, res = Err e /\ In (Some e) (Writer conn))
  \/ (exists conn1,
        (forall o, In o (Writer conn1) -> In o (Writer conn))
        /\ (let* stanzas := Recipient.Wrap_ReadLoop r (Reader conn) [] in
            if (length stanzas =? 0)%nat
            then fail (Errorf "received zero recipient stanzas")
            else ret stanzas) conn1 = (res, conn')).
Proof.
  unfold Recipient.Wrap_session. intros H.
  apply bind_Marshal_inv in H as [H|H]; [now left|].
  apply bind_Marshal_inv in H as [(e & -> & Hin)|H].
  { left. exists e. split; [reflexivity|]. eapply In_Writer_wrote, Hin. }
  apply bind_Marshal_inv in H as [(e & -> & Hin)|H].
  { left. exists e. split; [reflexivity|]. eapply In_Writer_wrote, In_Writer_wrote, Hin. }
  right. eexists. split; [|exact H].
  intros o Ho. eapply In_Writer_wrote, In_Writer_wrote, In_Writer_wrote, Ho.
Qed.

Lemma Wrap_not_started exec_Start (r : Recipient.t) (fileKey : bytes) e0 :
  exec_Start ("age-plugin-" +:+ Recipient.name r) "--age-plugin=recipient-v1" = Err e0 ->
  Recipient.Wrap exec_Start r fileKey =
  (Err (PluginError (Recipient.name r) (StartError e0)), None).
Proof.
  intros E. unfold Recipient.Wrap, openClientConnection.
  change ("--age-plugin=" +:+ "recipient-v1") with "--age-plugin=recipient-v1".
  now rewrite E.
Qed.

(** [Wrap] returns stanzas only when the plugin has sent [done]: the
    output of the plugin then starts with stanzas that keep the loop
    going, followed by [done]; what is returned is what the
    [recipient-stanza] ones among them hold, in order, and there is at
    least one.  A plugin whose output ends, or fails, before [done] never
    makes [Wrap] return stanzas. *)
Theorem Wrap_succeeds_only_after_done
  (exec_Start : string -> string -> result process)
  (r : Recipient.t) (fileKey : bytes) (ss : list Stanza) :
  fst (Recipient.Wrap exec_Start r fileKey) = Ok ss ->
  exists p pre done rest,
    exec_Start ("age-plugin-" +:+ Recipient.name r) "--age-plugin=recipient-v1" = Ok p
    /\ stdout p = map Ok pre ++ Ok done :: rest
    /\ Type_ done = "done"
    /\ Forall Wrap_continues pre
    /\ ss = collect_all pre
    /\ ss <> [].
Proof.
  intros H.
  destruct (exec_Start ("age-plugin-" +:+ Recipient.name r) "--age-plugin=recipient-v1")
    as [p|e0] eqn:Hstart.
  2:{ rewrite (Wrap_not_started _ _ _ _ Hstart) in H. discriminate. }
  rewrite (Wrap_run _ _ _ _ Hstart) in H. cbn [fst] in H.
  destruct (Recipient.Wrap_session r fileKey (mkConn (stdout p) (stdin p) []))
    as [res conn'] eqn:Hs.
  cbn [fst] in H. destruct res as [ss'|]; [|discriminate]. injection H as ->.
  apply Wrap_session_inv in Hs as [(e & [=] & _)|(conn1 & _ & Hs)].
  unfold bind in Hs. cbn [Reader] in Hs.
  destruct (Recipient.Wrap_ReadLoop r (stdout p) [] conn1) as [[stanzas|e] c2] eqn:Hl;
    [|discriminate].
  apply Wrap_ReadLoop_success in Hl as (pre & done & rest & Hout & Hd & Hpre & ->).
  cbn [app] in Hs.
  destruct (Nat.eqb_spec (length (collect_all pre)) 0) as [E|N]; [discriminate|].
  injection Hs as <- _.
  exists p, pre, done, rest. repeat split; auto. intros E. now rewrite E in N.
Qed.

(** Every error that [Wrap] returns carries the name of the plugin, and
    is one of: the error of the start of the process; an error of a write
    to its input; an error of the reader of its output, or the end of that
    output; the error of a malformed [recipient-stanza]; the body of an
    [error] stanza that the plugin sent; the error of a session that ends
    with no stanza. *)
Theorem Wrap_returns_only_these_errors
  (exec_Start : string -> string -> result process)
  (r : Recipient.t) (fileKey : bytes) (err : error) :
  fst (Recipient.Wrap exec_Start r fileKey) = Err err ->
  exists e,
    err = PluginError (Recipient.name r) e
    /\ ((exists e0,
           exec_Start ("age-plugin-" +:+ Recipient.name r) "--age-plugin=recipient-v1" = Err e0
           /\ e = StartError e0)
        \/ (exists p,
              exec_Start ("age-plugin-" +:+ Recipient.name r) "--age-plugin=recipient-v1" = Ok p
              /\ (In (Some e) (stdin p)
                  \/ In (Err e) (stdout p)
                  \/ e = EOF
                  \/ e = Errorf "received malformed recipient stanza"
                  \/ (exists s, In (Ok s) (stdout p) /\ Type_ s = "error" /\ e = ErrorQ (Body s))
                  \/ e = Errorf "received zero recipient stanzas"))).
Proof.
  intros H.
  destruct (exec_Start ("age-plugin-" +:+ Recipient.name r) "--age-plugin=recipient-v1")
    as [p|e0] eqn:Hstart.
  2:{ rewrite (Wrap_not_started _ _ _ _ Hstart) in H. injection H as <-.
      eexists. split; [reflexivity|]. left. eauto. }
  rewrite (Wrap_run _ _ _ _ Hstart) in H. cbn [fst] in H.
  destruct (Recipient.Wrap_session r fileKey (mkConn (stdout p) (stdin p) []))
    as [res conn'] eqn:Hs.
  cbn [fst] in H. destruct res as [|e]; [discriminate|]. injection H as <-.
  exists e. split; [reflexivity|]. right. exists p. split; [reflexivity|].
  apply Wrap_session_inv in Hs as [(e1 & [= <-] & Hin)|(conn1 & Hsub & Hs)]; [now left|].
  unfold bind in Hs. cbn [Reader] in Hs.
  destruct (Recipient.Wrap_ReadLoop r (stdout p) [] conn1) as [[stanzas|e1] c2] eqn:Hl.
  - destruct (length stanzas =? 0)%nat; [|discriminate].
    injection Hs as <- _. auto 10.
  - injection Hs as <- _.
    apply Wrap_ReadLoop_error in Hl as [Hl|[Hl|[Hl|[Hl|Hl]]]]; auto 10.
Qed.

(** *** The loop of [Unwrap] *)

Lemma Unwrap_response_file_key (i : Identity.t) (s : Stanza) :
  Type_ s = "file-key" -> Unwrap_response i s = mkStanza "ok" [] None.
Proof. intros E. unfold Unwrap_response. now rewrite E. Qed.

Lemma Unwrap_response_other (i : Identity.t) (s : Stanza) :
  Type_ s <> "file-key" ->
  Unwrap_response i s =
  callback_response (Identity.DisplayMessage i) (Identity.RequestValue i) s.
Proof. intros N. unfold Unwrap_response. now rewrite (PluginProps.eqb_neq_false _ _ N). Qed.

(** One turn of the loop, by the type of the stanza and the file key at
    hand. *)
Lemma Unwrap_turn_cases (i : Identity.t) (s : Stanza) sr fileKey conn :
  (Unwrap_goes_on s /\ (Type_ s = "file-key" -> fileKey = None)
   /\ Identity.Unwrap_ReadLoop i (Ok s :: sr) fileKey conn =
      (Marshal (Unwrap_response i s)
       >> Identity.Unwrap_ReadLoop i sr
            (if String.eqb (Type_ s) "file-key" then Body s else fileKey)) conn)
  \/ (Type_ s = "file-key" /\ ~ file_key_ok s
      /\ Identity.Unwrap_ReadLoop i (Ok s :: sr) fileKey conn =
         (Err (Errorf "received malformed file-key stanza"), conn))
  \/ (Type_ s = "file-key" /\ file_key_ok s /\ fileKey <> None
      /\ Identity.Unwrap_ReadLoop i (Ok s :: sr) fileKey conn =
         (Err (Errorf "received duplicated file-key stanza"), conn))
  \/ (Type_ s = "error"
      /\ Identity.Unwrap_ReadLoop i (Ok s :: sr) fileKey conn =
         (Marshal (mkStanza "ok" [] None) >> fail (ErrorQ (Body s))) conn)
  \/ (Type_ s = "done"
      /\ Identity.Unwrap_ReadLoop i (Ok s :: sr) fileKey conn = (Ok fileKey, conn)).
Proof.
  destruct (String.eqb_spec (Type_ s) "file-key") as [E|N].
  { destruct (PluginProps.file_key_ok_dec s) as [Hok|Hno].
    - destruct fileKey as [key|].
      + right. right. left. split; [exact E|]. split; [exact Hok|]. split; [discriminate|].
        destruct s as [ty args body]. cbn in E. subst ty.
        now apply PluginProps.Unwrap_ReadLoop_duplicate.
      + left. split.
        { unfold Unwrap_goes_on. rewrite E.
          split; [discriminate|]. split; [discriminate|]. now intros _. }
        split; [reflexivity|].
        rewrite (Unwrap_response_file_key i s E).
        destruct s as [ty args body]. cbn in E. subst ty.
        now rewrite PluginProps.Unwrap_ReadLoop_accepts.
    - right. left. split; [exact E|]. split; [exact Hno|].
      destruct s as [ty args body]. cbn in E. subst ty.
      now apply PluginProps.Unwrap_ReadLoop_malformed. }
  destruct (String.eqb_spec (Type_ s) "error") as [E|Nerr].
  { do 3 right. left. split; [exact E|]. cbn [Identity.Unwrap_ReadLoop]. now rewrite E. }
  destruct (String.eqb_spec (Type_ s) "done") as [E|Ndone].
  { do 4 right. split; [exact E|]. cbn [Identity.Unwrap_ReadLoop]. now rewrite E. }
  left. split; [repeat split; auto; intros; contradiction|].
  split; [intros; contradiction|].
  rewrite (Unwrap_response_other i s N).
  unfold callback_response. cbn [Identity.Unwrap_ReadLoop].
  rewrite (PluginProps.eqb_neq_false _ _ N), (PluginProps.eqb_neq_false _ _ Nerr),
    (PluginProps.eqb_neq_false _ _ Ndone).
  destruct (String.eqb (Type_ s) "msg").
  { destruct (Identity.DisplayMessage i) as [d|]; [destruct (d _)|]; reflexivity. }
  destruct (String.eqb (Type_ s) "request-secret" || String.eqb (Type_ s) "request-public").
  { destruct (Identity.RequestValue i) as [q|]; [destruct (q _ _)|]; reflexivity. }
  reflexivity.
Qed.

(** A turn on a stanza that keeps the loop going, when the write
    succeeds. *)
Lemma Unwrap_turn (i : Identity.t) (s : Stanza) sr fileKey conn :
  Unwrap_goes_on s -> (Type_ s = "file-key" -> fileKey = None) -> writable conn ->
  Identity.Unwrap_ReadLoop i (Ok s :: sr) fileKey conn =
  Identity.Unwrap_ReadLoop i sr
    (if String.eqb (Type_ s) "file-key" then Body s else fileKey)
    (wrote (Unwrap_response i s) conn).
Proof.
  intros (Herr & Hdone & Hkey) Hnone Hw.
  destruct (Unwrap_turn_cases i s sr fileKey conn)
    as [(_ & _ & E)|[(E & Hno & _)|[(E & _ & Hsome & _)|[[E _]|[E _]]]]];
    try contradiction.
  - now rewrite E, bind_Marshal_wrote.
  - exfalso. auto.
  - exfalso. auto.
Qed.

Lemma Unwrap_turns (i : Identity.t) (pre : list Stanza) : forall sr fileKey conn,
  Unwrap_keeps_going fileKey pre -> writable conn ->
  Identity.Unwrap_ReadLoop i (map Ok pre ++ sr) fileKey conn =
  Identity.Unwrap_ReadLoop i sr (key_after fileKey pre)
    (wrote_all (map (Unwrap_response i) pre) conn).
Proof.
  induction pre as [|s pre IH]; intros sr fileKey conn Hpre Hw; [reflexivity|].
  destruct Hpre as (Hs & Hnone & Hpre).
  cbn [map app key_after]. rewrite (Unwrap_turn i s _ _ _ Hs Hnone Hw).
  now rewrite IH by (auto using writable_wrote).
Qed.

Lemma send_stanzas_wrote (stanzas : list Stanza) : forall conn,
  writable conn ->
  Identity.send_stanzas stanzas conn =
  (Ok tt, wrote_all (map (fun rs => mkStanza "recipient-stanza"
                                      ("0" :: Type_ rs :: Args rs) (Body rs)) stanzas) conn).
Proof.
  induction stanzas as [|rs stanzas IH]; intros conn Hw; [reflexivity|].
  cbn [Identity.send_stanzas map]. rewrite bind_Marshal_wrote by exact Hw.
  now rewrite IH by (auto using writable_wrote).
Qed.

Lemma send_stanzas_inv (stanzas : list Stanza) : forall conn res conn',
  Identity.send_stanzas stanzas conn = (res, conn') ->
  (exists e, res = Err e /\ In (Some e) (Writer conn))
  \/ (res = Ok tt /\ Reader conn' = Reader conn
      /\ forall o, In o (Writer conn') -> In o (Writer conn)).
Proof.
  induction stanzas as [|rs stanzas IH]; intros conn res conn' H.
  - injection H as <- <-. right. auto.
  - cbn [Identity.send_stanzas] in H.
    apply bind_Marshal_inv in H as [H|H]; [now left|].
    apply IH in H as [(e & -> & Hin)|(-> & HR & Hsub)].
    + left. exists e. split; [reflexivity|]. eapply In_Writer_wrote, Hin.
    + right. split; [reflexivity|]. split; [now rewrite HR|].
      intros o Ho. eapply In_Writer_wrote, Hsub, Ho.
Qed.

Lemma Unwrap_session_wrote (i : Identity.t) (stanzas : list Stanza) conn :
  writable conn ->
  Identity.Unwrap_session i stanzas conn =
  (let* fileKey := Identity.Unwrap_ReadLoop i (Reader conn) None in
   match fileKey with
   | None => fail ErrIncorrectIdentity
   | Some key => ret key
   end) (wrote_all (Unwrap_phase1 i stanzas) conn).
Proof.
  intros Hw. unfold Identity.Unwrap_session, Unwrap_phase1.
  rewrite bind_Marshal_wrote by exact Hw.
  unfold bind at 1. rewrite send_stanzas_wrote by (auto using writable_wrote).
  rewrite bind_Marshal_wrote by (auto using writable_wrote, writable_wrote_all).
  cbn [wrote_all fold_left]. rewrite wrote_all_app.
  unfold bind at 1, NewStanzaReader. cbn [wrote_all fold_left Reader wrote].
  fold (wrote_all (map (fun rs => mkStanza "recipient-stanza"
                                    ("0" :: Type_ rs :: Args rs) (Body rs)) stanzas)
          (wrote (mkStanza "add-identity" [Identity.encoding i] None) conn)).
  rewrite Reader_wrote_all. reflexivity.
Qed.

Lemma Unwrap_run exec_Start (i : Identity.t) (stanzas : list Stanza) (p : process) :
  exec_Start ("age-plugin-" +:+ Identity.name i) "--age-plugin=identity-v1" = Ok p ->
  Identity.Unwrap exec_Start i stanzas =
  (prefix_error (Identity.name i)
     (fst (Identity.Unwrap_session i stanzas (mkConn (stdout p) (stdin p) []))),
   Some (Close (snd (Identity.Unwrap_session i stanzas (mkConn (stdout p) (stdin p) []))))).
Proof.
  intros E. unfold Identity.Unwrap, openClientConnection.
  change ("--age-plugin=" +:+ "identity-v1") with "--age-plugin=identity-v1".
  rewrite E. now destruct (Identity.Unwrap_session _ _ _).
Qed.

Lemma Unwrap_not_started exec_Start (i : Identity.t) (stanzas : list Stanza) e0 :
  exec_Start ("age-plugin-" +:+ Identity.name i) "--age-plugin=identity-v1" = Err e0 ->
  Identity.Unwrap exec_Start i stanzas =
  (Err (PluginError (Identity.name i) (StartError e0)), None).
Proof.
  intros E. unfold Identity.Unwrap, openClientConnection.
  change ("--age-plugin=" +:+ "identity-v1") with "--age-plugin=identity-v1".
  now rewrite E.
Qed.

Lemma Unwrap_session_turns (i : Identity.t) (stanzas : list Stanza) (p : process)
  (pre : list Stanza) (sr : list (result Stanza)) :
  Forall (fun o => o = None) (stdin p) ->
  Unwrap_keeps_going None pre ->
  stdout p = map Ok pre ++ sr ->
  exists conn,
    writable conn
    /\ log conn = map Wrote (Unwrap_phase1 i stanzas ++ map (Unwrap_response i) pre)
    /\ Identity.Unwrap_session i stanzas (mkConn (stdout p) (stdin p) []) =
       (let* fileKey := Identity.Unwrap_ReadLoop i sr (key_after None pre) in
        match fileKey with
        | None => fail ErrIncorrectIdentity
        | Some key => ret key
        end) conn.
Proof.
  intros Hin Hpre Hout.
  assert (Hw : writable (mkConn (stdout p) (stdin p) [])) by exact Hin.
  rewrite (Unwrap_session_wrote i stanzas _ Hw). cbn [Reader].
  exists (wrote_all (map (Unwrap_response i) pre)
            (wrote_all (Unwrap_phase1 i stanzas) (mkConn (stdout p) (stdin p) []))).
  split; [auto using writable_wrote_all|]. split.
  - rewrite !log_wrote_all. cbn [log app]. now rewrite map_app.
  - unfold bind at 1 2. rewrite Hout.
    rewrite (Unwrap_turns i pre sr None _ Hpre) by (auto using writable_wrote_all).
    reflexivity.
Qed.

Lemma Unwrap_ReadLoop_error (i : Identity.t) (sr : list (result Stanza)) :
  forall fileKey conn e conn',
  Identity.Unwrap_ReadLoop i sr fileKey conn = (Err e, conn') ->
  In (Some e) (Writer conn)
  \/ In (Err e) sr
  \/ e = EOF
  \/ e = Errorf "received malformed file-key stanza"
  \/ e = Errorf "received duplicated file-key stanza"
  \/ (exists s, In (Ok s) sr /\ Type_ s = "error" /\ e = ErrorQ (Body s)).
Proof.
  induction sr as [|[s|e0] sr IH]; intros fileKey conn e conn' H.
  - injection H as <- _. auto.
  - destruct (Unwrap_turn_cases i s sr fileKey conn)
      as [(_ & _ & E)|[(_ & _ & E)|[(_ & _ & _ & E)|[[Hs E]|[_ E]]]]]; rewrite E in H.
    + apply bind_Marshal_inv in H as [(e1 & [= <-] & Hin)|H]; [auto|].
      apply IH in H as [H|[H|[H|[H|[H|(s' & Hin & Hs' & He)]]]]]; auto 10.
      * left. eapply In_Writer_wrote, H.
      * right. left. now right.
      * do 5 right. exists s'. split; [now right | auto].
    + injection H as <- _. auto 10.
    + injection H as <- _. auto 10.
    + apply bind_Marshal_inv in H as [(e1 & [= <-] & Hin)|H]; [auto|].
      injection H as <- _. do 5 right. exists s. split; [now left | auto].
    + discriminate.
  - injection H as <- _. right. left. now left.
Qed.

Lemma Unwrap_ReadLoop_success (i : Identity.t) (sr : list (result Stanza)) :
  forall fileKey conn res conn',
  Identity.Unwrap_ReadLoop i sr fileKey conn = (Ok res, conn') ->
  exists pre done rest,
    sr = map Ok pre ++ Ok done :: rest
    /\ Type_ done = "done"
    /\ Unwrap_keeps_going fileKey pre
    /\ res = key_after fileKey pre.
Proof.
  induction sr as [|[s|e0] sr IH]; intros fileKey conn res conn' H; try discriminate.
  destruct (Unwrap_turn_cases i s sr fileKey conn)
    as [(Hs & Hnone & E)|[(_ & _ & E)|[(_ & _ & _ & E)|[[Hs E]|[Hs E]]]]]; rewrite E in H.
  - apply bind_Marshal_inv in H as [(e1 & [=] & _)|H].
    apply IH in H as (pre & done & rest & -> & Hd & Hpre & ->).
    exists (s :: pre), done, rest.
    split; [reflexivity|]. split; [exact Hd|]. split; [|reflexivity].
    cbn [Unwrap_keeps_going]. auto.
  - discriminate.
  - discriminate.
  - apply bind_Marshal_inv in H as [(e1 & [=] & _)|H]. discriminate.
  - injection H as <- _. exists [], s, sr.
    split; [reflexivity|]. split; [exact Hs|]. split; [exact I|reflexivity].
Qed.

(** A file key at hand after the stanzas is the one from before, or the
    body of a [file-key] stanza among them. *)
Lemma key_after_Some (pre : list Stanza) : forall fileKey key,
  Unwrap_keeps_going fileKey pre ->
  key_after fileKey pre = Some key ->
  fileKey = Some key
  \/ (exists s, In s pre /\ Type_ s = "file-key" /\ file_key_ok s /\ Body s = Some key).
Proof.
  induction pre as [|s pre IH]; intros fileKey key Hpre H; [now left|].
  destruct Hpre as ((_ & _ & Hok) & _ & Hpre). cbn [key_after] in H.
  destruct (String.eqb_spec (Type_ s) "file-key") as [E|N].
  - destruct (IH _ _ Hpre H) as [Hb|(s' & Hin & Hrest)].
    + right. exists s. split; [now left|]. auto.
    + right. exists s'. split; [now right | exact Hrest].
  - destruct (IH _ _ Hpre H) as [Hb|(s' & Hin & Hrest)]; [now left|].
    right. exists s'. split; [now right | exact Hrest].
Qed.

Lemma Unwrap_session_inv (i : Identity.t) (stanzas : list Stanza) conn res conn' :
  Identity.Unwrap_session i stanzas conn = (res, conn') ->
  (exists e, res = Err e /\ In (Some e) (Writer conn))
  \/ (exists conn1,
        (forall o, In o (Writer conn1) -> In o (Writer conn))
        /\ (let* fileKey := Identity.Unwrap_ReadLoop i (Reader conn) None in
            match fileKey with
            | None => fail ErrIncorrectIdentity
            | Some key => ret key
            end) conn1 = (res, conn')).
Proof.
  unfold Identity.Unwrap_session. intros H.
  apply bind_Marshal_inv in H as [H|H]; [now left|].
  unfold bind at 1 in H.
  destruct (Identity.send_stanzas stanzas _) as [sres c1] eqn:Hsend.
  apply send_stanzas_inv in Hsend as [(e & -> & Hin)|(-> & HR & Hsub)].
  { injection H as <- _. left. exists e. split; [reflexivity|]. eapply In_Writer_wrote, Hin. }
  apply bind_Marshal_inv in H as [(e & -> & Hin)|H].
  { left. exists e. split; [reflexivity|]. eapply In_Writer_wrote, Hsub, Hin. }
  right. unfold bind at 1, NewStanzaReader in H. cbn [Reader wrote] in H.
  rewrite HR in H. cbn [Reader wrote] in H.
  eexists. split; [|exact H].
  intros o Ho. eapply In_Writer_wrote, Hsub, In_Writer_wrote, Ho.
Qed.

(** The session of [Unwrap] is in lock step.  With a process whose input
    takes every write, and stanzas [pre] that keep the loop going, the
    client writes [add-identity], one [recipient-stanza] with index 0 per
    stanza of the header, and [done]; then one answer per stanza of [pre],
    in order, and after that:
    - on [done], nothing more, and it returns the file key at hand, or
      the error of the identity that does not match when there is none;
    - on an [error] stanza, [ok], and it returns the body of the stanza as
      the error;
    - on an error of the reader, or at the end of the output, nothing
      more, and it returns that error.
    The process is closed in each case. *)
Theorem Unwrap_answers_each_stanza
  (exec_Start : string -> string -> result process)
  (i : Identity.t) (stanzas : list Stanza) (p : process)
  (pre : list Stanza) (rest : list (result Stanza)) :
  exec_Start ("age-plugin-" +:+ Identity.name i) "--age-plugin=identity-v1" = Ok p ->
  Forall (fun o => o = None) (stdin p) ->
  Unwrap_keeps_going None pre ->
  let written := Unwrap_phase1 i stanzas ++ map (Unwrap_response i) pre in
  let out := Identity.Unwrap exec_Start i stanzas in
  (forall s, Type_ s = "done" -> stdout p = map Ok pre ++ Ok s :: rest ->
     fst out = match key_after None pre with
               | Some key => Ok key
               | None => Err (PluginError (Identity.name i) ErrIncorrectIdentity)
               end
     /\ option_map log (snd out) = Some (map Wrote written ++ closed))
  /\ (forall s, Type_ s = "error" -> stdout p = map Ok pre ++ Ok s :: rest ->
        fst out = Err (PluginError (Identity.name i) (ErrorQ (Body s)))
        /\ option_map log (snd out) =
           Some (map Wrote (written ++ [mkStanza "ok" [] None]) ++ closed))
  /\ (forall e, stdout p = map Ok pre ++ Err e :: rest ->
        fst out = Err (PluginError (Identity.name i) e)
        /\ option_map log (snd out) = Some (map Wrote written ++ closed))
  /\ (stdout p = map Ok pre ->
        fst out = Err (PluginError (Identity.name i) EOF)
        /\ option_map log (snd out) = Some (map Wrote written ++ closed)).
Proof.
  intros Hstart Hin Hpre written out. unfold out.
  rewrite (Unwrap_run _ _ _ _ Hstart). cbn [fst snd option_map].
  split; [|split; [|split]].
  - intros s Hs Hout.
    destruct (Unwrap_session_turns i stanzas p pre _ Hin Hpre Hout)
      as (conn & Hw & Hlog & ->).
    assert (E : (let* fileKey := Identity.Unwrap_ReadLoop i (Ok s :: rest)
                                   (key_after None pre) in
                 match fileKey with
                 | None => fail ErrIncorrectIdentity
                 | Some key => ret key
                 end) conn
                = (match key_after None pre with
                   | Some key => Ok key
                   | None => Err ErrIncorrectIdentity
                   end, conn)).
    { unfold bind. cbn [Identity.Unwrap_ReadLoop]. rewrite Hs.
      cbn [String.eqb Ascii.eqb Bool.eqb orb]. unfold ret, fail.
      now destruct (key_after None pre). }
    rewrite E. cbn [fst snd]. rewrite log_Close, Hlog.
    split; [now destruct (key_after None pre)|reflexivity].
  - intros s Hs Hout.
    destruct (Unwrap_session_turns i stanzas p pre _ Hin Hpre Hout)
      as (conn & Hw & Hlog & ->).
    assert (E : (let* fileKey := Identity.Unwrap_ReadLoop i (Ok s :: rest)
                                   (key_after None pre) in
                 match fileKey with
                 | None => fail ErrIncorrectIdentity
                 | Some key => ret key
                 end) conn
                = (Err (ErrorQ (Body s)), wrote (mkStanza "ok" [] None) conn)).
    { unfold bind at 1. cbn [Identity.Unwrap_ReadLoop]. rewrite Hs.
      cbn [String.eqb Ascii.eqb Bool.eqb orb].
      now rewrite (bind_Marshal_wrote _ _ _ Hw). }
    rewrite E. cbn [fst snd prefix_error]. split; [reflexivity|].
    unfold written. rewrite log_Close. cbn [log wrote].
    rewrite Hlog, !map_app, <- !app_assoc. reflexivity.
  - intros e Hout.
    destruct (Unwrap_session_turns i stanzas p pre _ Hin Hpre Hout)
      as (conn & Hw & Hlog & ->).
    unfold bind. cbn [Identity.Unwrap_ReadLoop]. unfold fail. cbn [fst snd prefix_error].
    split; [reflexivity|]. now rewrite log_Close, Hlog.
  - intros Hout. rewrite <- (app_nil_r (map Ok pre)) in Hout.
    destruct (Unwrap_session_turns i stanzas p pre _ Hin Hpre Hout)
      as (conn & Hw & Hlog & ->).
    unfold bind. cbn [Identity.Unwrap_ReadLoop]. unfold fail. cbn [fst snd prefix_error].
    split; [reflexivity|]. now rewrite log_Close, Hlog.
Qed.

(** [Unwrap] returns a file key only when the plugin has sent it: the
    output of the plugin then starts with stanzas that keep the loop
    going, followed by [done], and the key is the body of a [file-key]
    stanza among them, whose index is good.  A plugin whose output ends,
    or fails, before [done] never makes [Unwrap] return a key. *)
Theorem Unwrap_succeeds_only_with_a_sent_key
  (exec_Start : string -> string -> result process)
  (i : Identity.t) (stanzas : list Stanza) (key : bytes) :
  fst (Identity.Unwrap exec_Start i stanzas) = Ok key ->
  exists p pre done rest s,
    exec_Start ("age-plugin-" +:+ Identity.name i) "--age-plugin=identity-v1" = Ok p
    /\ stdout p = map Ok pre ++ Ok done :: rest
    /\ Type_ done = "done"
    /\ Unwrap_keeps_going None pre
    /\ key_after None pre = Some key
    /\ In s pre /\ Type_ s = "file-key" /\ file_key_ok s /\ Body s = Some key.
Proof.
  intros H.
  destruct (exec_Start ("age-plugin-" +:+ Identity.name i) "--age-plugin=identity-v1")
    as [p|e0] eqn:Hstart.
  2:{ rewrite (Unwrap_not_started _ _ _ _ Hstart) in H. discriminate. }
  rewrite (Unwrap_run _ _ _ _ Hstart) in H. cbn [fst] in H.
  destruct (Identity.Unwrap_session i stanzas (mkConn (stdout p) (stdin p) []))
    as [res conn'] eqn:Hs.
  cbn [fst] in H. destruct res as [key'|]; [|discriminate]. injection H as ->.
  apply Unwrap_session_inv in Hs as [(e & [=] & _)|(conn1 & _ & Hs)].
  unfold bind in Hs. cbn [Reader] in Hs.
  destruct (Identity.Unwrap_ReadLoop i (stdout p) None conn1) as [[fk|e] c2] eqn:Hl;
    [|discriminate].
  apply Unwrap_ReadLoop_success in Hl as (pre & done & rest & Hout & Hd & Hpre & ->).
  destruct (key_after None pre) as [k|] eqn:Hk; [|discriminate].
  injection Hs as <- _.
  destruct (key_after_Some pre None k Hpre Hk) as [|(s & Hin & Ht & Hok & Hb)]; [discriminate|].
  exists p, pre, done, rest, s. repeat split; auto; apply Hok.
Qed.

(** Every error that [Unwrap] returns carries the name of the plugin,
    and is one of: the error of the start of the process; an error of a
    write to its input; an error of the reader of its output, or the end of
    that output; the error of a malformed or of a duplicated [file-key]
    stanza; the body of an [error] stanza that the plugin sent; the error
    of the identity that does not match. *)
Theorem Unwrap_returns_only_these_errors
  (exec_Start : string -> string -> result process)
  (i : Identity.t) (stanzas : list Stanza) (err : error) :
  fst (Identity.Unwrap exec_Start i stanzas) = Err err ->
  exists e,
    err = PluginError (Identity.name i) e
    /\ ((exists e0,
           exec_Start ("age-plugin-" +:+ Identity.name i) "--age-plugin=identity-v1" = Err e0
           /\ e = StartError e0)
        \/ (exists p,
              exec_Start ("age-plugin-" +:+ Identity.name i) "--age-plugin=identity-v1" = Ok p
              /\ (In (Some e) (stdin p)
                  \/ In (Err e) (stdout p)
                  \/ e = EOF
                  \/ e = Errorf "received malformed file-key stanza"
                  \/ e = Errorf "received duplicated file-key stanza"
                  \/ (exists s, In (Ok s) (stdout p) /\ Type_ s = "error" /\ e = ErrorQ (Body s))
                  \/ e = ErrIncorrectIdentity))).
Proof.
  intros H.
  destruct (exec_Start ("age-plugin-" +:+ Identity.name i) "--age-plugin=identity-v1")
    as [p|e0] eqn:Hstart.
  2:{ rewrite (Unwrap_not_started _ _ _ _ Hstart) in H. injection H as <-.
      eexists. split; [reflexivity|]. left. eauto. }
  rewrite (Unwrap_run _ _ _ _ Hstart) in H. cbn [fst] in H.
  destruct (Identity.Unwrap_session i stanzas (mkConn (stdout p) (stdin p) []))
    as [res conn'] eqn:Hs.
  cbn [fst] in H. destruct res as [|e]; [discriminate|]. injection H as <-.
  exists e. split; [reflexivity|]. right. exists p. split; [reflexivity|].
  apply Unwrap_session_inv in Hs as [(e1 & [= <-] & Hin)|(conn1 & Hsub & Hs)]; [now left|].
  unfold bind in Hs. cbn [Reader] in Hs.
  destruct (Identity.Unwrap_ReadLoop i (stdout p) None conn1) as [[fk|e1] c2] eqn:Hl.
  - destruct fk; [discriminate|]. injection Hs as <- _. auto 10.
  - injection Hs as <- _.
    apply Unwrap_ReadLoop_error in Hl as [Hl|[Hl|[Hl|[Hl|[Hl|Hl]]]]]; auto 10.
Qed.

(** *** Phase 1, and a pipe that is broken *)

Lemma writes_only_log {A} (m : M A) (conn : clientConnection) :
  writes_only m -> exists ws, log (snd (m conn)) = log conn ++ map Wrote ws.
Proof. intros H. apply H. Qed.

(** Whatever the plugin answers, when its input takes the writes the
    client first sends the stanzas of phase 1 and nothing before them:
    [Wrap] sends [add-recipient] with the encoding of the recipient
    ([add-identity] for a recipient made of an identity, with the encoding
    of the identity), [wrap-file-key] with the file key as its body, and
    [done]; [Unwrap] sends [add-identity], one [recipient-stanza] per
    stanza of the header, with the index 0 before the type and the
    arguments of the stanza and with its body, in order, and [done]. *)
Theorem phase1_is_sent_first
  (exec_Start : string -> string -> result process)
  (r : Recipient.t) (i : Identity.t) (fileKey : bytes) (stanzas : list Stanza)
  (p : process) :
  Forall (fun o => o = None) (stdin p) ->
  (exec_Start ("age-plugin-" +:+ Recipient.name r) "--age-plugin=recipient-v1" = Ok p ->
   exists rest,
     option_map log (snd (Recipient.Wrap exec_Start r fileKey)) =
     Some (Wrote (mkStanza (if Recipient.identity r then "add-identity" else "add-recipient")
                           [Recipient.encoding r] None)
           :: Wrote (mkStanza "wrap-file-key" [] (Some fileKey))
           :: Wrote (mkStanza "done" [] None) :: rest))
  /\ (exec_Start ("age-plugin-" +:+ Identity.name i) "--age-plugin=recipient-v1" = Ok p ->
      exists rest,
        option_map log (snd (Recipient.Wrap exec_Start (Identity.Recipient i) fileKey)) =
        Some (Wrote (mkStanza "add-identity" [Identity.encoding i] None)
              :: Wrote (mkStanza "wrap-file-key" [] (Some fileKey))
              :: Wrote (mkStanza "done" [] None) :: rest))
  /\ (exec_Start ("age-plugin-" +:+ Identity.name i) "--age-plugin=identity-v1" = Ok p ->
      exists rest,
        option_map log (snd (Identity.Unwrap exec_Start i stanzas)) =
        Some (Wrote (mkStanza "add-identity" [Identity.encoding i] None)
              :: map (fun rs => Wrote (mkStanza "recipient-stanza"
                                         ("0" :: Type_ rs :: Args rs) (Body rs))) stanzas
              ++ Wrote (mkStanza "done" [] None) :: rest)).
Proof.
  intros Hin.
  assert (Hw : writable (mkConn (stdout p) (stdin p) [])) by exact Hin.
  assert (HW : forall r0, exec_Start ("age-plugin-" +:+ Recipient.name r0)
                            "--age-plugin=recipient-v1" = Ok p ->
            exists rest,
              option_map log (snd (Recipient.Wrap exec_Start r0 fileKey)) =
              Some (map Wrote (Wrap_phase1 r0 fileKey) ++ rest)).
  { intros r0 Hstart. rewrite (Wrap_run _ _ _ _ Hstart). cbn [snd option_map].
    rewrite (Wrap_session_wrote r0 fileKey _ Hw), log_Close.
    destruct (writes_only_log
                (let* stanzas := Recipient.Wrap_ReadLoop r0 (stdout p) [] in
                 if (length stanzas =? 0)%nat
                 then fail (Errorf "received zero recipient stanzas")
                 else ret stanzas)
                (wrote_all (Wrap_phase1 r0 fileKey) (mkConn (stdout p) (stdin p) [])))
      as [ws Hws].
    { apply PluginProps.writes_only_bind; [apply PluginProps.writes_only_Wrap_ReadLoop|].
      intros ss. destruct (length ss =? 0)%nat;
        [apply PluginProps.writes_only_fail | apply PluginProps.writes_only_ret]. }
    cbn [Reader]. rewrite Hws, log_wrote_all. cbn [log app].
    eexists. now rewrite <- app_assoc. }
  split; [|split].
  - intros Hstart. destruct (HW r Hstart) as [rest E]. now exists rest.
  - intros Hstart. destruct (HW (Identity.Recipient i) Hstart) as [rest E]. now exists rest.
  - intros Hstart. rewrite (Unwrap_run _ _ _ _ Hstart). cbn [snd option_map].
    rewrite (Unwrap_session_wrote i stanzas _ Hw), log_Close.
    destruct (writes_only_log
                (let* fileKey := Identity.Unwrap_ReadLoop i (stdout p) None in
                 match fileKey with
                 | None => fail ErrIncorrectIdentity
                 | Some key => ret key
                 end)
                (wrote_all (Unwrap_phase1 i stanzas) (mkConn (stdout p) (stdin p) [])))
      as [ws Hws].
    { apply PluginProps.writes_only_bind; [apply PluginProps.writes_only_Unwrap_ReadLoop|].
      intros [k|]; [apply PluginProps.writes_only_ret | apply PluginProps.writes_only_fail]. }
    cbn [Reader]. rewrite Hws, log_wrote_all. cbn [log app]. unfold Unwrap_phase1.
    cbn [map]. rewrite map_app, map_map. cbn [map].
    eexists. rewrite <- !app_assoc. cbn [app]. rewrite <- app_assoc. reflexivity.
Qed.

(** When the first write fails, [Wrap] and [Unwrap] return the error of
    the pipe, with the name of the plugin; nothing has been written, the
    output of the plugin is not read, and the process is closed. *)
Theorem broken_pipe_is_reported
  (exec_Start : string -> string -> result process)
  (r : Recipient.t) (i : Identity.t) (fileKey : bytes) (stanzas : list Stanza)
  (p : process) (e : error) (w : list (option error)) :
  stdin p = Some e :: w ->
  (exec_Start ("age-plugin-" +:+ Recipient.name r) "--age-plugin=recipient-v1" = Ok p ->
   Recipient.Wrap exec_Start r fileKey =
   (Err (PluginError (Recipient.name r) e), Some (mkConn (stdout p) w closed)))
  /\ (exec_Start ("age-plugin-" +:+ Identity.name i) "--age-plugin=identity-v1" = Ok p ->
      Identity.Unwrap exec_Start i stanzas =
      (Err (PluginError (Identity.name i) e), Some (mkConn (stdout p) w closed))).
Proof.
  intros Hin. split; intros Hstart.
  - rewrite (Wrap_run _ _ _ _ Hstart).
    unfold Recipient.Wrap_session, bind at 1, Marshal. cbn [Writer]. now rewrite Hin.
  - rewrite (Unwrap_run _ _ _ _ Hstart).
    unfold Identity.Unwrap_session, bind at 1, Marshal. cbn [Writer]. now rewrite Hin.
Qed.

(** *** The index of a stanza *)

Lemma digit_range (c : ascii) (d : Z) : digit c = Some d -> (0 <= d <= 9)%Z.
Proof.
  unfold digit.
  destruct (Z.leb_spec 48 (Z.of_nat (nat_of_ascii c)));
    destruct (Z.leb_spec (Z.of_nat (nat_of_ascii c)) 57); cbn [andb]; intros [= <-]; lia.
Qed.

Lemma digit_zero (c : ascii) : digit c = Some 0%Z -> c = "0"%char.
Proof.
  unfold digit.
  destruct (Z.leb_spec 48 (Z.of_nat (nat_of_ascii c)));
    destruct (Z.leb_spec (Z.of_nat (nat_of_ascii c)) 57); cbn [andb]; intros [= E].
  assert (E' : nat_of_ascii c = 48) by lia.
  apply (f_equal ascii_of_nat) in E'. now rewrite ascii_nat_embedding in E'.
Qed.

Lemma digits_zeros (n : nat) : digits (zeros n) 0 = Some 0%Z.
Proof. induction n as [|n IH]; [reflexivity | exact IH]. Qed.

(** The digits only add to what was read before; they give 0 only when
    nothing but zeros was read. *)
Lemma digits_zero (s : string) : forall acc v,
  (0 <= acc)%Z -> digits s acc = Some v ->
  (acc <= v)%Z /\ (v = 0%Z -> exists n, s = zeros n).
Proof.
  induction s as [|c s IH]; intros acc v Hacc H; cbn [digits] in H.
  - injection H as <-. split; [lia|]. intros _. now exists 0.
  - destruct (digit c) as [d|] eqn:Hd; [|discriminate].
    pose proof (digit_range c d Hd) as Hr.
    destruct (IH (acc * 10 + d)%Z v ltac:(lia) H) as [Hle Hz].
    split; [lia|]. intros ->. destruct (Hz eq_refl) as [n ->].
    assert (d = 0%Z) as -> by lia. apply digit_zero in Hd as ->.
    now exists (S n).
Qed.

Lemma Atoi_spells_zero (s : string) : Atoi s = Some 0%Z <-> spells_zero s.
Proof.
  split.
  - intros H.
    assert (Hbody : forall body neg,
               body <> EmptyString ->
               match digits body 0 with
               | Some n =>
                   let v := if neg : bool then (- n)%Z else n in
                   if ((- 2 ^ 63 <=? v) && (v <=? 2 ^ 63 - 1))%Z then Some v else None
               | None => None
               end = Some 0%Z ->
               exists n, body = zeros (S n)).
    { intros body neg Hne Hb.
      destruct (digits body 0) as [n|] eqn:Hd; [|discriminate].
      destruct (digits_zero body 0 n ltac:(lia) Hd) as [Hle Hz].
      cbn zeta in Hb.
      destruct ((- 2 ^ 63 <=? (if neg then - n else n))
                && ((if neg then - n else n) <=? 2 ^ 63 - 1))%Z; [|discriminate].
      injection Hb as Hb.
      destruct Hz as [[|k] ->]; [destruct neg; lia | contradiction | now exists k]. }
    unfold Atoi in H.
    destruct s as [|c r]; [discriminate|].
    destruct (Ascii.eqb_spec c "+"%char) as [->|Np].
    { destruct r as [|c' r']; [discriminate|].
      destruct (Hbody (String c' r') false ltac:(discriminate) H) as [n E].
      exists "+", n. rewrite E. auto. }
    destruct (Ascii.eqb_spec c "-"%char) as [->|Nm].
    { destruct r as [|c' r']; [discriminate|].
      destruct (Hbody (String c' r') true ltac:(discriminate) H) as [n E].
      exists "-", n. rewrite E. auto. }
    assert (Hs : Atoi (String c r) =
                 match digits (String c r) 0 with
                 | Some n => if ((- 2 ^ 63 <=? n) && (n <=? 2 ^ 63 - 1))%Z then Some n else None
                 | None => None
                 end).
    { unfold Atoi.
      destruct c as [[] [] [] [] [] [] [] []]; try reflexivity; contradiction. }
    unfold Atoi in Hs. rewrite Hs in H.
    destruct (Hbody (String c r) false ltac:(discriminate) H) as [n E].
    exists EmptyString, n. rewrite E. auto.
  - intros (sign & n & [->|[->| ->]] & ->).
    + change (EmptyString +:+ zeros (S n)) with (String "0"%char (zeros n)).
      unfold Atoi. change (digits (String "0"%char (zeros n)) 0) with (digits (zeros n) 0).
      now rewrite digits_zeros.
    + change ("+" +:+ zeros (S n)) with (String "+"%char (String "0"%char (zeros n))).
      unfold Atoi. change (digits (String "0"%char (zeros n)) 0) with (digits (zeros n) 0).
      now rewrite digits_zeros.
    + change ("-" +:+ zeros (S n)) with (String "-"%char (String "0"%char (zeros n))).
      unfold Atoi. change (digits (String "0"%char (zeros n)) 0) with (digits (zeros n) 0).
      now rewrite digits_zeros.
Qed.

(** The index of a [recipient-stanza] or of a [file-key] stanza is read
    with [strconv.Atoi]: what is accepted is every spelling of zero, a sign
    or none followed by zeros, at least one ([0], [+0], [-0], [000]), and
    nothing else.  A [recipient-stanza] with at least two arguments and
    such an index is collected, and a [file-key] stanza with one argument
    that is such an index gives the file key; with any other first
    argument the loops end with the error of the malformed stanza. *)
Theorem index_accepts_every_spelling_of_zero
  (r : Recipient.t) (i : Identity.t) (args : list string) (body : option bytes)
  (sr : list (result Stanza)) (stanzas : list Stanza) (fileKey : option bytes)
  (conn : clientConnection) :
  let index := nth 0 args EmptyString in
  (2 <= length args -> spells_zero index ->
   Recipient.Wrap_ReadLoop r (Ok (mkStanza "recipient-stanza" args body) :: sr) stanzas =
   (Marshal (mkStanza "ok" [] None)
    >> Recipient.Wrap_ReadLoop r sr
         (stanzas ++ [mkStanza (nth 1 args EmptyString) (drop 2 args) body])))
  /\ (~ spells_zero index ->
      Recipient.Wrap_ReadLoop r (Ok (mkStanza "recipient-stanza" args body) :: sr) stanzas conn =
      (Err (Errorf "received malformed recipient stanza"), conn))
  /\ (length args = 1 -> spells_zero index ->
      Identity.Unwrap_ReadLoop i (Ok (mkStanza "file-key" args body) :: sr) None =
      (Marshal (mkStanza "ok" [] None) >> Identity.Unwrap_ReadLoop i sr body))
  /\ (~ spells_zero index ->
      Identity.Unwrap_ReadLoop i (Ok (mkStanza "file-key" args body) :: sr) fileKey conn =
      (Err (Errorf "received malformed file-key stanza"), conn))
  /\ (Atoi index = Some 0%Z <-> spells_zero index).
Proof.
  intros index. split; [|split; [|split; [|split]]].
  - intros Hlen Hz. apply PluginProps.Wrap_ReadLoop_accepts.
    split; [exact Hlen|]. now apply Atoi_spells_zero.
  - intros Hz. apply PluginProps.Wrap_ReadLoop_rejects.
    intros [_ H]. now apply Hz, Atoi_spells_zero.
  - intros Hlen Hz. apply PluginProps.Unwrap_ReadLoop_accepts.
    split; [exact Hlen|]. now apply Atoi_spells_zero.
  - intros Hz. apply PluginProps.Unwrap_ReadLoop_malformed.
    intros [_ H]. now apply Hz, Atoi_spells_zero.
  - apply Atoi_spells_zero.
Qed.

(** *** The theorems at chosen sessions *)

Ltac keeps_going :=
  repeat first [ exact I | reflexivity | discriminate | constructor
               | split | intros [=] | intros _ ].

Lemma NewIdentity_name_is_lower_case_witness :
  NewIdentity decode_test "AGE-PLUGIN-TEST-1QQQQ" =
  inl (Identity.mk "test" "AGE-PLUGIN-TEST-1QQQQ" None None).
Proof.
  destruct (NewIdentity_name_is_lower_case decode_test "AGE-PLUGIN-TEST-1QQQQ") as (H & _).
  - intros hrp data E. vm_compute in E. injection E as <- _.
    unfold is_ascii. cbn [list_ascii_of_string].
    repeat (constructor; [vm_compute; lia|]). constructor.
  - apply (H "TEST" []). reflexivity.
Defined.

Lemma Wrap_answers_each_stanza_witness :
  fst (Recipient.Wrap (one_plugin "recipient-v1" failing) test_recipient TestKit.TestFileKey) =
  Err (PluginError "test" (ErrorQ (Some (bytes_of "no key"))))
  /\ option_map log
       (snd (Recipient.Wrap (one_plugin "recipient-v1" failing) test_recipient
               TestKit.TestFileKey)) =
     Some [Wrote (mkStanza "add-recipient" ["age1test1qqqq"] None);
           Wrote (mkStanza "wrap-file-key" [] (Some TestKit.TestFileKey));
           Wrote (mkStanza "done" [] None);
           Wrote (mkStanza "ok" [] None);
           Wrote (mkStanza "ok" [] None);
           ClosedStdin; ClosedStdout; Interrupted; Waited].
Proof.
  destruct (Wrap_answers_each_stanza (one_plugin "recipient-v1" failing) test_recipient
              TestKit.TestFileKey failing [msg_stanza] [])
    as (_ & H & _); [reflexivity | constructor | keeps_going |].
  apply (H (mkStanza "error" [] (Some (bytes_of "no key")))); reflexivity.
Defined.

Lemma Wrap_succeeds_only_after_done_witness :
  exists pre,
    Forall Wrap_continues pre
    /\ collect_all pre = [mkStanza "test" ["arg"] (Some (bytes_of "wrapped"))].
Proof.
  destruct (Wrap_succeeds_only_after_done (one_plugin "recipient-v1" wrapping) test_recipient
              TestKit.TestFileKey [mkStanza "test" ["arg"] (Some (bytes_of "wrapped"))])
    as (p & pre & done & rest & _ & _ & _ & Hpre & E & _); [reflexivity|].
  exists pre. now split.
Defined.

Lemma Wrap_returns_only_these_errors_witness :
  exists e,
    PluginError "test" (Errorf "received zero recipient stanzas") = PluginError "test" e.
Proof.
  destruct (Wrap_returns_only_these_errors
              (one_plugin "recipient-v1" (mkProcess [Ok done_stanza] []))
              test_recipient TestKit.TestFileKey
              (PluginError "test" (Errorf "received zero recipient stanzas")))
    as (e & E & _); [reflexivity|].
  exists e. exact E.
Defined.

Lemma Unwrap_answers_each_stanza_witness :
  fst (Identity.Unwrap (one_plugin "identity-v1" unwrapping) test_identity
         [mkStanza "X25519" ["c2hhcmU"] (Some (bytes_of "body"))]) =
  Ok TestKit.TestFileKey
  /\ option_map log
       (snd (Identity.Unwrap (one_plugin "identity-v1" unwrapping) test_identity
               [mkStanza "X25519" ["c2hhcmU"] (Some (bytes_of "body"))])) =
     Some [Wrote (mkStanza "add-identity" ["AGE-PLUGIN-TEST-1QQQQ"] None);
           Wrote (mkStanza "recipient-stanza" ["0"; "X25519"; "c2hhcmU"]
                    (Some (bytes_of "body")));
           Wrote (mkStanza "done" [] None);
           Wrote (mkStanza "ok" [] None);
           Wrote (mkStanza "ok" [] None);
           ClosedStdin; ClosedStdout; Interrupted; Waited].
Proof.
  destruct (Unwrap_answers_each_stanza (one_plugin "identity-v1" unwrapping) test_identity
              [mkStanza "X25519" ["c2hhcmU"] (Some (bytes_of "body"))] unwrapping
              [msg_stanza; mkStanza "file-key" ["0"] (Some TestKit.TestFileKey)] [])
    as (H & _); [reflexivity | constructor | keeps_going |].
  apply (H done_stanza); reflexivity.
Defined.

Lemma Unwrap_succeeds_only_with_a_sent_key_witness :
  exists s, Type_ s = "file-key" /\ Body s = Some TestKit.TestFileKey.
Proof.
  destruct (Unwrap_succeeds_only_with_a_sent_key (one_plugin "identity-v1" unwrapping)
              test_identity [] TestKit.TestFileKey)
    as (p & pre & done & rest & s & _ & _ & _ & _ & _ & _ & Ht & _ & Hb); [reflexivity|].
  exists s. now split.
Defined.

Lemma Unwrap_returns_only_these_errors_witness :
  exists e, PluginError "test" ErrIncorrectIdentity = PluginError "test" e.
Proof.
  destruct (Unwrap_returns_only_these_errors (one_plugin "identity-v1" empty_file_key)
              test_identity [] (PluginError "test" ErrIncorrectIdentity))
    as (e & E & _); [reflexivity|].
  exists e. exact E.
Defined.

Lemma phase1_is_sent_first_witness :
  exists rest,
    option_map log
      (snd (Recipient.Wrap (one_plugin "recipient-v1" asking) test_recipient
              TestKit.TestFileKey)) =
    Some (Wrote (mkStanza "add-recipient" ["age1test1qqqq"] None)
          :: Wrote (mkStanza "wrap-file-key" [] (Some TestKit.TestFileKey))
          :: Wrote (mkStanza "done" [] None) :: rest).
Proof.
  destruct (phase1_is_sent_first (one_plugin "recipient-v1" asking) test_recipient
              test_identity TestKit.TestFileKey [] asking) as (H & _); [constructor|].
  apply H. reflexivity.
Defined.

Lemma broken_pipe_is_reported_witness :
  Recipient.Wrap (one_plugin "recipient-v1" deaf) test_recipient TestKit.TestFileKey =
  (Err (PluginError "test" (IOError "broken pipe")),
   Some (mkConn [Ok done_stanza] [] closed)).
Proof.
  destruct (broken_pipe_is_reported (one_plugin "recipient-v1" deaf) test_recipient
              test_identity TestKit.TestFileKey [] deaf (IOError "broken pipe") [])
    as (H & _); [reflexivity|].
  apply H. reflexivity.
Defined.

(** A [recipient-stanza] whose index is written [-0] is collected. *)
Example Wrap_index_minus_zero :
  fst (Recipient.Wrap
         (one_plugin "recipient-v1"
            (mkProcess [Ok (mkStanza "recipient-stanza" ["-0"; "test"] None);
                        Ok done_stanza] []))
         test_recipient TestKit.TestFileKey) =
  Ok [mkStanza "test" [] None].
Proof. reflexivity. Qed.

(** The answers in a session in which the plugin asks for a secret that
    nobody can give, and sends a stanza that the client does not know. *)
Example Wrap_session_asking :
  Recipient.Wrap (one_plugin "recipient-v1" asking) test_recipient TestKit.TestFileKey =
  (Err (PluginError "test" (IOError "malformed stanza")),
   Some (mkConn (stdout asking) []
           [Wrote (mkStanza "add-recipient" ["age1test1qqqq"] None);
            Wrote (mkStanza "wrap-file-key" [] (Some TestKit.TestFileKey));
            Wrote (mkStanza "done" [] None);
            Wrote (mkStanza "fail" [] None);
            Wrote (mkStanza "unsupported" [] None);
            ClosedStdin; ClosedStdout; Interrupted; Waited])).
Proof. reflexivity. Qed.

End ClientProps.
